(** * SereneWealth ledger front end

    A shallow embedding of the TypeScript sources of the ledger client
    (transaction and transfer dialogs, account filters, category editors,
    account summary) together with a model of the ledger operations that the
    client calls over HTTP, and the properties of the ledger specification
    that are decided by that code. *)

From Stdlib Require Import Ascii String QArith Qabs Qround Lqa OrdersEx.
From stdpp Require Import gmap strings list sorting pretty.

Local Open Scope Z_scope.
Local Open Scope string_scope.
Local Open Scope list_scope.

(** ** The JavaScript runtime

    The sources compute with the built-in [number] type (IEEE-754 doubles),
    with [Number], [parseFloat], [Number.prototype.toFixed], the string
    methods [localeCompare] and [toLowerCase], and
    [Date.prototype.toISOString].  None of these is defined in the
    repository: the embedding takes them as an interface, and every
    definition below is written against it.  Where a property needs a fact
    about the arithmetic or about the comparator, the fact is a hypothesis
    of the theorem, stated so that it holds of doubles and of a collator.  A
    concrete instance on exact decimals ([Module Decimal]) runs the
    definitions and bears the hypotheses out. *)

Class JSRuntime := {
  number : Type;
  (** the literals [0] and [1] *)
  num_0 : number;
  num_1 : number;
  (** [isNaN(x)] *)
  isNaN : number → bool;
  (** [x + y], [x - y], [x * y], [-x], [Math.abs(x)] *)
  num_add : number → number → number;
  num_sub : number → number → number;
  num_mul : number → number → number;
  num_neg : number → number;
  Math_abs : number → number;
  (** [x > y] and [x === y] on numbers *)
  num_gt : number → number → bool;
  num_eq : number → number → bool;
  (** [Number(s)], [parseFloat(s)], [x.toFixed(digits)] *)
  Number : string → number;
  parseFloat : string → number;
  toFixed : number → nat → string;
  (** [a.localeCompare(b)]: negative, zero or positive; [s.toLowerCase()] *)
  localeCompare : string → string → Z;
  toLowerCase : string → string;
  (** [Date] objects and [d.toISOString()] *)
  Date : Type;
  toISOString : Date → string;
}.

(** ** Strings and truthiness *)

(** [s.replace(/,/g, '.')] *)
Fixpoint replace_commas (s : string) : string :=
  match s with
  | EmptyString => EmptyString
  | String c rest =>
      String (if Ascii.eqb c "," then "."%char else c) (replace_commas rest)
  end.

(** [s.split(sep)[0]] for a one-character separator: the text before the
    first occurrence of [sep], or all of [s] when there is none. *)
Fixpoint split_head (sep : ascii) (s : string) : string :=
  match s with
  | EmptyString => EmptyString
  | String c rest =>
      if Ascii.eqb c sep then EmptyString else String c (split_head sep rest)
  end.

(** A string-valued property that may be missing ([undefined] or [null]). *)
Definition truthy (o : option string) : bool :=
  match o with
  | Some s => negb (String.eqb s "")
  | None => false
  end.

(** [a || b] when [b] is a string: the first operand when it is truthy. *)
Definition or_else (a : option string) (b : string) : string :=
  match a with
  | Some s => if String.eqb s "" then b else s
  | None => b
  end.

(** [a || b] when both operands may be missing. *)
Definition or_opt (a b : option string) : option string :=
  if truthy a then a else b.

(** [s.includes(sub)]: [sub] occurs in [s], at the start or further on. *)
Fixpoint includes (s sub : string) : bool :=
  String.prefix sub s
  || match s with
     | EmptyString => false
     | String _ rest => includes rest sub
     end.

(** ** Data model ([lib/types.ts]) *)

Inductive AccountType := ASSET | LIABILITY.
Inductive AccountSubtype := CHECKING | SAVINGS | CREDIT | LOAN | INVESTMENT.

#[global] Instance AccountType_eq_dec : EqDecision AccountType.
Proof. solve_decision. Defined.
#[global] Instance AccountSubtype_eq_dec : EqDecision AccountSubtype.
Proof. solve_decision. Defined.

Record Account := {
  acc_id : string;
  acc_name : string;
  acc_type : AccountType;
  acc_subtype : AccountSubtype;
  acc_current_balance : string;
  acc_cached_actual_balance : string;
}.

(** The string literals of the two union types. *)
Definition AccountType_name (t : AccountType) : string :=
  match t with
  | ASSET => "ASSET"
  | LIABILITY => "LIABILITY"
  end.

Definition AccountSubtype_name (st : AccountSubtype) : string :=
  match st with
  | CHECKING => "CHECKING"
  | SAVINGS => "SAVINGS"
  | CREDIT => "CREDIT"
  | LOAN => "LOAN"
  | INVESTMENT => "INVESTMENT"
  end.

Inductive CategoryType := INCOME | EXPENSE | TRANSFER.

#[global] Instance CategoryType_eq_dec : EqDecision CategoryType.
Proof. solve_decision. Defined.

Definition CategoryType_name (t : CategoryType) : string :=
  match t with
  | INCOME => "INCOME"
  | EXPENSE => "EXPENSE"
  | TRANSFER => "TRANSFER"
  end.

Record CategoryGroup := {
  grp_id : string;
  grp_name : string;
  grp_type : CategoryType;
}.

(** [type] is declared non-optional, but both grouping functions guard it
    with [category.type || 'EXPENSE']: [None] stands for a missing or empty
    value. *)
Record Category := {
  cat_id : string;
  cat_name : string;
  cat_group : option CategoryGroup;
  cat_group_name : option string;
  cat_type : option CategoryType;
}.

Inductive EffectiveCategoryType := direct | uncategorized.

Record EffectiveCategory := {
  ec_type : EffectiveCategoryType;
  ec_category_id : option string;
  ec_category_name : option string;
  ec_category_type : option string;
}.

Record LedgerEntry := {
  le_id : string;
  le_category : option string;
  le_category_name : option string;
  le_category_type : option string;
  le_effective_category : option EffectiveCategory;
}.

(** ** Form validation and submission

    A zod issue is a path into the form data and a message.  The form
    library's [handleSubmit] runs the schema and calls [onSubmit] only when
    the schema reports no issue; [onSubmit] sends one request. *)

Definition Issue : Type := list string * string.

Definition check (ok : bool) (path : list string) (msg : string) : list Issue :=
  if ok then [] else [(path, msg)].

Definition min1 (s : string) : bool := negb (String.eqb s "").

(** Requests the dialogs send to the ledger service. *)

Record TransactionPayload := {
  tp_account : string;
  tp_effective_date : string;
  tp_description : string;
  tp_raw_amount : string;
  tp_category : option string;
}.

Record TransferPayload := {
  xp_from_account : string;
  xp_to_account : string;
  xp_amount : string;
  xp_effective_date : string;
  xp_purpose_category : string;
  xp_description : string;
}.

Inductive Request :=
  | CreateTransaction (p : TransactionPayload)
  | CreateTransfer (p : TransferPayload).

(** What the form library does with a submit event: [onSubmit] runs only on
    data the schema accepts. *)
Definition handleSubmit {D : Type} (schema : D → list Issue)
    (onSubmit : D → list Request) (data : D) : list Request :=
  match schema data with
  | [] => onSubmit data
  | _ :: _ => []
  end.

(** The service as the client sees it: a state changed by requests only. *)
Definition serve {S : Type} (handler : Request → S → S)
    (requests : list Request) (st : S) : S :=
  fold_left (λ s r, handler r s) requests st.

(** ** [AddTransactionDialog]: the transaction form *)

Inductive Direction := out | in_.

Module AddTransactionDialog.
Section WithRuntime.
Context `{JSRuntime}.

Record TransactionFormData := {
  account : string;
  effective_date : option Date;
  raw_amount : string;
  description : string;
  direction : Direction;
  category : option string;
}.

(** The refinement of [raw_amount]:
    [const num = Number(val); return !isNaN(num) && num !== 0]. *)
Definition raw_amount_ok (val : string) : bool :=
  let num := Number val in
  negb (isNaN num) && negb (num_eq num num_0).

(** [transactionSchema].  A missing date is a type error, which aborts the
    object and skips the object-level refinement; failed checks of the
    other fields do not. *)
Definition transactionSchema (data : TransactionFormData) : list Issue :=
  check (min1 (account data)) ["account"] "Account is required"
  ++ check (bool_decide (is_Some (effective_date data)))
       ["effective_date"] "Date is required"
  ++ check (raw_amount_ok (raw_amount data))
       ["raw_amount"] "Amount cannot be zero"
  ++ check (min1 (description data)) ["description"] "Description is required"
  ++ match effective_date data with
     | None => []
     | Some _ =>
         check (truthy (category data)) [] "Transaction must have a category"
     end.

(** The two branches of the sign computation in [onSubmit], kept apart as
    the source has them. *)
Definition signedRaw_liability (d : Direction) (absAmount : number) : number :=
  match d with out => num_neg absAmount | in_ => absAmount end.

Definition signedRaw_asset (d : Direction) (absAmount : number) : number :=
  match d with out => num_neg absAmount | in_ => absAmount end.

Definition absAmount (data : TransactionFormData) : number :=
  Math_abs (parseFloat (replace_commas (raw_amount data))).

Definition isLiability (accounts : list Account)
    (data : TransactionFormData) : bool :=
  match List.find (λ acc, String.eqb (acc_id acc) (account data)) accounts with
  | Some selectedAccount => bool_decide (acc_type selectedAccount = LIABILITY)
  | None => false
  end.

Definition signedRaw (accounts : list Account)
    (data : TransactionFormData) : number :=
  if isLiability accounts data
  then signedRaw_liability (direction data) (absAmount data)
  else signedRaw_asset (direction data) (absAmount data).

Definition date_part (d : option Date) : string :=
  match d with
  | Some d => split_head "T" (toISOString d)
  | None => ""
  end.

Definition payload (accounts : list Account)
    (data : TransactionFormData) : TransactionPayload :=
  {| tp_account := account data;
     tp_effective_date := date_part (effective_date data);
     tp_description := description data;
     tp_raw_amount := toFixed (signedRaw accounts data) 2;
     tp_category := category data |}.

Definition onSubmit (accounts : list Account)
    (data : TransactionFormData) : list Request :=
  [CreateTransaction (payload accounts data)].

Definition submit (accounts : list Account)
    (data : TransactionFormData) : list Request :=
  handleSubmit transactionSchema (onSubmit accounts) data.

(** The sign of a direction, as section 4.1 of the specification states
    it ([resolve(accountType, direction)]): [out] is negative and [in] is
    positive, for either account type. *)
Definition spec_direction_sign (t : AccountType) (d : Direction) : number :=
  match d with
  | out => num_neg num_1
  | in_ => num_1
  end.

(** The account type [onSubmit] branches on: LIABILITY when the selected
    account is found and is one, ASSET otherwise. *)
Definition account_type_of (accounts : list Account)
    (data : TransactionFormData) : AccountType :=
  if isLiability accounts data then LIABILITY else ASSET.
End WithRuntime.
End AddTransactionDialog.

(** ** [AddTransferDialog]: the transfer form *)

Module AddTransferDialog.
Section WithRuntime.
Context `{JSRuntime}.

Record TransferFormData := {
  from_account : string;
  to_account : string;
  effective_date : option Date;
  amount : string;
  purpose_category : string;
  description : option string;
}.

(** The refinement of [amount]:
    [const num = Number(val); return !isNaN(num) && num > 0]. *)
Definition amount_ok (val : string) : bool :=
  let num := Number val in
  negb (isNaN num) && num_gt num num_0.

Definition accounts_differ (data : TransferFormData) : bool :=
  negb (String.eqb (from_account data) (to_account data)).

(** [transferSchema]; the object-level refinement reports at [to_account]. *)
Definition transferSchema (data : TransferFormData) : list Issue :=
  check (min1 (from_account data)) ["from_account"] "From account is required"
  ++ check (min1 (to_account data)) ["to_account"] "To account is required"
  ++ check (bool_decide (is_Some (effective_date data)))
       ["effective_date"] "Date is required"
  ++ check (amount_ok (amount data))
       ["amount"] "Amount must be greater than zero"
  ++ check (min1 (purpose_category data))
       ["purpose_category"] "Purpose category is required"
  ++ match effective_date data with
     | None => []
     | Some _ =>
         check (accounts_differ data)
           ["to_account"] "From and To accounts must be different"
     end.

Definition date_part (d : option Date) : string :=
  match d with
  | Some d => split_head "T" (toISOString d)
  | None => ""
  end.

Definition payload (data : TransferFormData) : TransferPayload :=
  {| xp_from_account := from_account data;
     xp_to_account := to_account data;
     xp_amount := toFixed (parseFloat (replace_commas (amount data))) 2;
     xp_effective_date := date_part (effective_date data);
     xp_purpose_category := purpose_category data;
     xp_description := default "" (description data) |}.

Definition onSubmit (data : TransferFormData) : list Request :=
  [CreateTransfer (payload data)].

Definition submit (data : TransferFormData) : list Request :=
  handleSubmit transferSchema onSubmit data.
End WithRuntime.
End AddTransferDialog.

(** ** [AccountFilters] ([account-filters.tsx]) and its state in [AccountsPage]

    The select controls hand [updateFilter] plain strings, so the filter state
    is a record of strings. *)

Module AccountFilters.
Record AccountFilters := {
  search : string;
  type : string;
  subtype : string;
}.

(** [keyof AccountFilters] *)
Inductive Key := key_search | key_type | key_subtype.

(** [{ ...filters, [key]: value }] *)
Definition assign (filters : AccountFilters) (key : Key) (value : string)
    : AccountFilters :=
  match key with
  | key_search =>
      {| search := value; type := type filters; subtype := subtype filters |}
  | key_type =>
      {| search := search filters; type := value; subtype := subtype filters |}
  | key_subtype =>
      {| search := search filters; type := type filters; subtype := value |}
  end.

(** Options are [{ value, label }] pairs. *)
Definition getAvailableSubtypesForType (type : string)
    : list (string * string) :=
  if String.eqb type "ASSET" then
    [("CHECKING", "Checking"); ("SAVINGS", "Savings");
     ("INVESTMENT", "Investment")]
  else if String.eqb type "LIABILITY" then
    [("CREDIT", "Credit"); ("LOAN", "Loan")]
  else
    [("CHECKING", "Checking"); ("SAVINGS", "Savings");
     ("INVESTMENT", "Investment"); ("CREDIT", "Credit"); ("LOAN", "Loan")].

(** [updateFilter(key, value)]; the result is what [onFiltersChange]
    receives, and the page stores it as the next state. *)
Definition updateFilter (filters : AccountFilters) (key : Key)
    (value : string) : AccountFilters :=
  let newFilters := assign filters key value in
  match key with
  | key_type =>
      let availableSubtypes := getAvailableSubtypesForType value in
      let currentSubtype := subtype filters in
      if negb (String.eqb currentSubtype "all")
         && negb (existsb (λ st, String.eqb (fst st) currentSubtype)
                    availableSubtypes)
      then assign newFilters key_subtype "all"
      else newFilters
  | _ => newFilters
  end.

Definition getAvailableSubtypes (filters : AccountFilters)
    : list (string * string) :=
  getAvailableSubtypesForType (type filters).

(** The state [AccountsPage] starts from, which is also what
    [clearFilters] restores. *)
Definition initial : AccountFilters :=
  {| search := ""; type := "all"; subtype := "all" |}.

Definition clearFilters (filters : AccountFilters) : AccountFilters := initial.

(** A run of [updateFilter] calls with arbitrary arguments. *)
Definition run (calls : list (Key * string)) (filters : AccountFilters)
    : AccountFilters :=
  fold_left (λ f c, updateFilter f (fst c) (snd c)) calls filters.

(** The values the rendered controls can pass: the search box passes any
    text, the type select one of its three items, and the subtype select
    ["all"] or one of the items listed by [getAvailableSubtypes] for the
    current state.  The remove buttons of the badges pass [""], ["all"] and
    ["all"], which the three controls already cover. *)
Definition type_items : list string := ["all"; "ASSET"; "LIABILITY"].

Definition subtype_items (filters : AccountFilters) : list string :=
  "all" :: map fst (getAvailableSubtypes filters).

Inductive ui_step (filters : AccountFilters) : AccountFilters → Prop :=
  | step_search value :
      ui_step filters (updateFilter filters key_search value)
  | step_type value :
      In value type_items →
      ui_step filters (updateFilter filters key_type value)
  | step_subtype value :
      In value (subtype_items filters) →
      ui_step filters (updateFilter filters key_subtype value)
  | step_clear :
      ui_step filters (clearFilters filters).

Inductive ui_reachable : AccountFilters → Prop :=
  | reach_initial : ui_reachable initial
  | reach_step f f' : ui_reachable f → ui_step f f' → ui_reachable f'.

(** The account invariant of the data model, read on a filter state. *)
Definition subtype_fits_type (filters : AccountFilters) : Prop :=
  (type filters = "ASSET" →
     In (subtype filters) ["all"; "CHECKING"; "SAVINGS"; "INVESTMENT"])
  ∧ (type filters = "LIABILITY" →
     In (subtype filters) ["all"; "CREDIT"; "LOAN"]).

(** The states the controls can produce: a type that the type select
    offers, with a subtype that the subtype select offers for it. *)
Definition offered (filters : AccountFilters) : Prop :=
  In (type filters) type_items ∧ In (subtype filters) (subtype_items filters).

(** [Object.entries(filters)]: the three properties, in the order of the
    object literal that the state starts from (a spread keeps the order). *)
Definition entries (filters : AccountFilters) : list (string * string) :=
  [("search", search filters); ("type", type filters);
   ("subtype", subtype filters)].

(** The number on the filter button; the [Clear all] button and the badges
    are rendered when it is above zero. *)
Definition activeFiltersCount (filters : AccountFilters) : nat :=
  length
    (List.filter
       (λ kv, if String.eqb (fst kv) "search"
              then (0 <? String.length (snd kv))%nat
              else negb (String.eqb (snd kv) "all"))
       (entries filters)).

Definition getTypeLabel (type : string) : string :=
  if String.eqb type "ASSET" then "Assets"
  else if String.eqb type "LIABILITY" then "Liabilities"
  else type.

Definition getSubtypeLabel (subtype : string) : string :=
  if String.eqb subtype "CHECKING" then "Checking"
  else if String.eqb subtype "SAVINGS" then "Savings"
  else if String.eqb subtype "CREDIT" then "Credit"
  else if String.eqb subtype "LOAN" then "Loan"
  else if String.eqb subtype "INVESTMENT" then "Investment"
  else subtype.

(** The badges under the controls, rendered when [activeFiltersCount] is
    above zero: one for a search text, one for a type and one for a subtype
    other than ["all"], each with the call its remove button makes. *)
Definition badges (filters : AccountFilters) : list (string * (Key * string)) :=
  if (0 <? activeFiltersCount filters)%nat then
    (if String.eqb (search filters) "" then []
     else [("Search: " +:+ search filters, (key_search, ""))])
    ++ (if String.eqb (type filters) "all" then []
        else [("Type: " +:+ getTypeLabel (type filters), (key_type, "all"))])
    ++ (if String.eqb (subtype filters) "all" then []
        else [("Subtype: " +:+ getSubtypeLabel (subtype filters),
               (key_subtype, "all"))])
  else [].
End AccountFilters.

(** ** [AccountsPage]: the account summary *)

Module AccountsPage.
Section WithRuntime.
Context `{JSRuntime}.

Record Totals := { count : nat; total : number }.

Record AccountSummary := {
  assets : Totals;
  liabilities : Totals;
  netWorth : number;
}.

(** [a || b] on two strings *)
Definition str_or (a b : string) : string :=
  if String.eqb a "" then b else a.

(** [parseFloat(acc.current_balance || acc.cached_actual_balance || "0")] *)
Definition balance (acc : Account) : number :=
  parseFloat
    (str_or (str_or (acc_current_balance acc) (acc_cached_actual_balance acc))
       "0").

Definition is_asset (acc : Account) : bool :=
  bool_decide (acc_type acc = ASSET).

Definition is_liability (acc : Account) : bool :=
  bool_decide (acc_type acc = LIABILITY).

Definition getAccountSummary (accounts : list Account) : AccountSummary :=
  let assets := List.filter is_asset accounts in
  let liabilities := List.filter is_liability accounts in
  let assetsTotal :=
    fold_left (λ sum acc, num_add sum (balance acc)) assets num_0 in
  let liabilitiesTotal :=
    fold_left (λ sum acc, num_add sum (Math_abs (balance acc)))
      liabilities num_0 in
  let netWorth := num_sub assetsTotal liabilitiesTotal in
  {| assets := {| count := length assets; total := assetsTotal |};
     liabilities :=
       {| count := length liabilities; total := liabilitiesTotal |};
     netWorth := netWorth |}.

(** The sum of a list of numbers, added from the left starting at [0]. *)
Definition num_sum (xs : list number) : number :=
  fold_left num_add xs num_0.
End WithRuntime.
End AccountsPage.

(** ** Plain objects used as tables, and [Array.prototype.sort]

    The grouping functions build [Record<string, T>] tables as object
    literals.  Such an object has its own properties, kept in creation
    order, and inherits the members of [Object.prototype]: reading
    [obj[key]] for a key that is not an own property but names an inherited
    member yields that member (a function, or the prototype itself for
    [__proto__]), which is truthy and is not an array. *)

Definition Obj (V : Type) : Type := list (string * V).

Definition Object_prototype_keys : list string :=
  ["constructor"; "__defineGetter__"; "__defineSetter__"; "hasOwnProperty";
   "__lookupGetter__"; "__lookupSetter__"; "isPrototypeOf";
   "propertyIsEnumerable"; "toString"; "valueOf"; "__proto__";
   "toLocaleString"].

Definition inherited (key : string) : bool :=
  existsb (String.eqb key) Object_prototype_keys.

Inductive Lookup (V : Type) :=
  | Own (v : V)
  | Inherited
  | Missing.
Arguments Own {V} v.
Arguments Inherited {V}.
Arguments Missing {V}.

Fixpoint obj_own {V} (o : Obj V) (key : string) : option V :=
  match o with
  | [] => None
  | (k, v) :: rest => if String.eqb k key then Some v else obj_own rest key
  end.

(** [obj[key]] *)
Definition obj_get {V} (o : Obj V) (key : string) : Lookup V :=
  match obj_own o key with
  | Some v => Own v
  | None => if inherited key then Inherited else Missing
  end.

(** [obj[key] = v]: an own property keeps its place, a new one goes last. *)
Fixpoint obj_set {V} (o : Obj V) (key : string) (v : V) : Obj V :=
  match o with
  | [] => [(key, v)]
  | (k, w) :: rest =>
      if String.eqb k key then (k, v) :: rest else (k, w) :: obj_set rest key v
  end.

(** Keys that are array indices (canonical decimal numerals up to
    [2^32 - 2]) are enumerated first, in numeric order. *)
Definition digit (c : ascii) : option N :=
  let n := N_of_ascii c in
  if ((48 <=? n) && (n <=? 57))%N then Some (n - 48)%N else None.

Fixpoint numeral (s : string) (acc : N) : option N :=
  match s with
  | EmptyString => Some acc
  | String c rest =>
      match digit c with
      | Some d => numeral rest (10 * acc + d)%N
      | None => None
      end
  end.

Definition array_index (s : string) : option N :=
  match s with
  | EmptyString => None
  | String "0" EmptyString => Some 0%N
  | String "0" _ => None
  | _ =>
      match numeral s 0 with
      | Some n => if (n <=? 4294967294)%N then Some n else None
      | None => None
      end
  end.

Definition index_le {V} (a b : string * V) : Prop :=
  (default 0 (array_index (fst a)) ≤ default 0 (array_index (fst b)))%N.

#[global] Instance index_le_dec {V} (a b : string * V)
  : Decision (index_le a b).
Proof. unfold index_le. apply _. Defined.

(** [Object.entries(obj)] *)
Definition Object_entries {V} (o : Obj V) : list (string * V) :=
  merge_sort index_le
    (List.filter (λ kv, bool_decide (is_Some (array_index (fst kv)))) o)
  ++ List.filter (λ kv, negb (bool_decide (is_Some (array_index (fst kv))))) o.

(** [arr.sort(compare)] is a stable sort: [a] is placed before [b] when
    [compare(a, b) < 0], and elements that compare as equal keep their
    order. *)
Fixpoint js_sort_insert {A} (compare : A → A → Z) (x : A) (l : list A)
    : list A :=
  match l with
  | [] => [x]
  | y :: rest =>
      if (compare x y <=? 0)%Z then x :: y :: rest
      else y :: js_sort_insert compare x rest
  end.

Fixpoint js_sort {A} (compare : A → A → Z) (l : list A) : list A :=
  match l with
  | [] => []
  | x :: rest => js_sort_insert compare x (js_sort compare rest)
  end.

(** A function body either returns or throws a [TypeError]. *)
Inductive Completion (A : Type) :=
  | Return (a : A)
  | TypeError.
Arguments Return {A} a.
Arguments TypeError {A}.

Definition and_then {A B} (m : Completion A) (f : A → Completion B)
    : Completion B :=
  match m with
  | Return a => f a
  | TypeError => TypeError
  end.

(** [list.forEach(step)] over a state that [step] updates or throws from. *)
Fixpoint forEach {A S} (step : S → A → Completion S) (l : list A) (s : S)
    : Completion S :=
  match l with
  | [] => Return s
  | x :: rest => and_then (step s x) (forEach step rest)
  end.

(** ** [AccountsPage]: the filtered list and its groups

    The page filters the loaded accounts by the filter state, groups what is
    left by type and subtype, and replaces an account in its list when a
    balance refresh reports back. *)

Module AccountsList.
Section WithRuntime.
Context `{JSRuntime}.
Import AccountFilters AccountsPage.

(** The predicate of [accounts.filter(...)] in [filteredAccounts]. *)
Definition shown (filters : AccountFilters) (account : Account) : bool :=
  if negb (String.eqb (search filters) "")
     && negb (includes (toLowerCase (acc_name account))
                (toLowerCase (search filters)))
  then false
  else if negb (String.eqb (type filters) "all")
          && negb (String.eqb (AccountType_name (acc_type account))
                     (type filters))
  then false
  else if negb (String.eqb (subtype filters) "all")
          && negb (String.eqb (AccountSubtype_name (acc_subtype account))
                     (subtype filters))
  then false
  else true.

Definition filteredAccounts (accounts : list Account)
    (filters : AccountFilters) : list Account :=
  List.filter (shown filters) accounts.

Record AccountGroup := {
  ag_type : AccountType;
  ag_subtype : AccountSubtype;
  ag_accounts : list Account;
  ag_total : number;
}.

(** [`${account.type}_${account.subtype}`] *)
Definition key_of (t : AccountType) (st : AccountSubtype) : string :=
  AccountType_name t +:+ "_" +:+ AccountSubtype_name st.

(** What an account adds to the total of its group: the balance of an
    asset, the absolute value of the balance of a liability. *)
Definition amount_shown (account : Account) : number :=
  if bool_decide (acc_type account = LIABILITY)
  then Math_abs (balance account)
  else balance account.

(** [groups[key].accounts.push(account)] and [groups[key].total += ...] *)
Definition push_account (group : AccountGroup) (account : Account)
    : AccountGroup :=
  {| ag_type := ag_type group;
     ag_subtype := ag_subtype group;
     ag_accounts := ag_accounts group ++ [account];
     ag_total := num_add (ag_total group) (amount_shown account) |}.

(** The body of [accounts.forEach(account => ...)].  The table is an object
    literal: for a key that named an inherited member the group would not
    be created and the [push] would be a call of [undefined]. *)
Definition add_account (groups : Obj AccountGroup) (account : Account)
    : Completion (Obj AccountGroup) :=
  let key := key_of (acc_type account) (acc_subtype account) in
  match obj_get groups key with
  | Missing =>
      Return
        (obj_set groups key
           (push_account
              {| ag_type := acc_type account;
                 ag_subtype := acc_subtype account;
                 ag_accounts := [];
                 ag_total := num_0 |}
              account))
  | Own group => Return (obj_set groups key (push_account group account))
  | Inherited => TypeError
  end.

Definition groupAccountsBySubtype (accounts : list Account)
    : Completion (Obj AccountGroup) :=
  forEach add_account accounts [].

(** [Object.values(obj)] *)
Definition Object_values {V} (o : Obj V) : list V :=
  map snd (Object_entries o).

Record SectionView := {
  sv_count : nat;
  sv_total : number;
  sv_subtypes : list AccountGroup;
}.

Record AccountGroupsView := {
  view_assets : SectionView;
  view_liabilities : SectionView;
  view_netWorth : number;
}.

(** [accountGroups], computed from the filtered accounts. *)
Definition accountGroups (filteredAccounts : list Account)
    : Completion AccountGroupsView :=
  let summary := getAccountSummary filteredAccounts in
  and_then (groupAccountsBySubtype filteredAccounts)
    (λ subtypeGroups,
       Return
         {| view_assets :=
              {| sv_count := count (assets summary);
                 sv_total := total (assets summary);
                 sv_subtypes :=
                   List.filter (λ group, bool_decide (ag_type group = ASSET))
                     (Object_values subtypeGroups) |};
            view_liabilities :=
              {| sv_count := count (liabilities summary);
                 sv_total := total (liabilities summary);
                 sv_subtypes :=
                   List.filter
                     (λ group, bool_decide (ag_type group = LIABILITY))
                     (Object_values subtypeGroups) |};
            view_netWorth := netWorth summary |}).

(** [handleAccountRefresh(updatedAccount)]: the next list of accounts. *)
Definition handleAccountRefresh (prevAccounts : list Account)
    (updatedAccount : option Account) : list Account :=
  match updatedAccount with
  | Some updatedAccount =>
      map (λ account,
             if String.eqb (acc_id account) (acc_id updatedAccount)
             then updatedAccount else account)
        prevAccounts
  | None => prevAccounts
  end.
End WithRuntime.
End AccountsList.

(** ** The category editors

    [BulkCategoryEditor] ([bulk-category-editor.tsx]) and
    [InlineCategoryEditor] ([inline-category-editor.tsx]) each carry their own
    copy of the grouping code.  The two copies agree line by line except for
    the expression that names a category's group, so the shared text is
    embedded once, with that expression as its parameter. *)

Record GroupedCategory := {
  gc_category : Category;
  gc_searchText : string;
}.

Record Group := {
  group_name : string;
  group_categories : list GroupedCategory;
}.

Record TypeSection := {
  section_type : CategoryType;
  section_displayName : string;
  section_groups : list Group;
}.

(** The table [categoryTypes], which starts as
    [{ INCOME: {}, EXPENSE: {}, TRANSFER: {} }]. *)
Record CategoryTypes := {
  of_INCOME : Obj (list GroupedCategory);
  of_EXPENSE : Obj (list GroupedCategory);
  of_TRANSFER : Obj (list GroupedCategory);
}.

Definition categoryTypes_init : CategoryTypes :=
  {| of_INCOME := []; of_EXPENSE := []; of_TRANSFER := [] |}.

Definition groups_of (t : CategoryTypes) (key : CategoryType)
    : Obj (list GroupedCategory) :=
  match key with
  | INCOME => of_INCOME t
  | EXPENSE => of_EXPENSE t
  | TRANSFER => of_TRANSFER t
  end.

Definition with_groups (t : CategoryTypes) (key : CategoryType)
    (o : Obj (list GroupedCategory)) : CategoryTypes :=
  match key with
  | INCOME =>
      {| of_INCOME := o; of_EXPENSE := of_EXPENSE t;
         of_TRANSFER := of_TRANSFER t |}
  | EXPENSE =>
      {| of_INCOME := of_INCOME t; of_EXPENSE := o;
         of_TRANSFER := of_TRANSFER t |}
  | TRANSFER =>
      {| of_INCOME := of_INCOME t; of_EXPENSE := of_EXPENSE t;
         of_TRANSFER := o |}
  end.

Definition typeOrder : list (CategoryType * string) :=
  [(INCOME, "Income"); (EXPENSE, "Expense"); (TRANSFER, "Transfer")].

Section Grouping.
Context `{JSRuntime}.
Variable groupNameOf : Category → string.

(** The body of [categories.forEach(category => ...)].  The table has an
    entry for each of the three declared types from the start, so the
    guard that would create one for another type never fires.  A group name
    that is found on the prototype skips the initialisation of the group's
    array, and the [push] that follows is a call of [undefined]. *)
Definition add_category (t : CategoryTypes) (category : Category)
    : Completion CategoryTypes :=
  let categoryType := default EXPENSE (cat_type category) in
  let groupName := groupNameOf category in
  let entry :=
    {| gc_category := category;
       gc_searchText :=
         toLowerCase (cat_name category +:+ " " +:+ groupName) |} in
  let typeGroups := groups_of t categoryType in
  match obj_get typeGroups groupName with
  | Missing =>
      Return (with_groups t categoryType (obj_set typeGroups groupName [entry]))
  | Own cats =>
      Return
        (with_groups t categoryType
           (obj_set typeGroups groupName (cats ++ [entry])))
  | Inherited => TypeError
  end.

Definition compare_group_names (a b : string * list GroupedCategory) : Z :=
  localeCompare (fst a) (fst b).

Definition compare_category_names (a b : GroupedCategory) : Z :=
  localeCompare (cat_name (gc_category a)) (cat_name (gc_category b)).

Definition sortedGroups (typeGroups : Obj (list GroupedCategory))
    : list Group :=
  map
    (λ kv, {| group_name := fst kv;
              group_categories := js_sort compare_category_names (snd kv) |})
    (js_sort compare_group_names (Object_entries typeGroups)).

(** The body of [typeOrder.forEach(({ key, display }) => ...)], appending
    to [result]. *)
Definition add_type (t : CategoryTypes) (result : list TypeSection)
    (entry : CategoryType * string) : list TypeSection :=
  let groups := sortedGroups (groups_of t (fst entry)) in
  if (0 <? length groups)%nat
  then result ++ [{| section_type := fst entry;
                     section_displayName := snd entry;
                     section_groups := groups |}]
  else result.

Definition groupCategories (categories : list Category)
    : Completion (list TypeSection) :=
  and_then (forEach add_category categories categoryTypes_init)
    (λ t, Return (fold_left (add_type t) typeOrder [])).
End Grouping.

(** The body of [filteredTypes], the same text in both editors: the grouped
    categories narrowed to the search text, without the groups and the
    sections that the search leaves empty. *)
Definition filterCategories `{JSRuntime} (groupedCategories : list TypeSection)
    (searchValue : string) : list TypeSection :=
  if String.eqb searchValue "" then groupedCategories
  else
    let search := toLowerCase searchValue in
    List.filter
      (λ categoryType, (0 <? length (section_groups categoryType))%nat)
      (map
         (λ categoryType,
            {| section_type := section_type categoryType;
               section_displayName := section_displayName categoryType;
               section_groups :=
                 List.filter
                   (λ group, (0 <? length (group_categories group))%nat)
                   (map
                      (λ group,
                         {| group_name := group_name group;
                            group_categories :=
                              List.filter
                                (λ cat, includes (gc_searchText cat) search)
                                (group_categories group) |})
                      (section_groups categoryType)) |})
         groupedCategories).

(** The items of the popover's list as the editors render them, section
    by section and group by group: each category with the type of its
    section and the name of its group. *)
Definition listed (sections : list TypeSection)
    : list (CategoryType * string * GroupedCategory) :=
  flat_map
    (λ categoryType,
       flat_map
         (λ group,
            map (λ category, (section_type categoryType, group_name group,
                              category))
              (group_categories group))
         (section_groups categoryType))
    sections.

Inductive Selected :=
  | selected_null
  | selected_undefined
  | selected_id (id : string).

Module BulkCategoryEditor.
Section WithRuntime.
Context `{JSRuntime}.

Record CurrentCategory := { name : string; isUncategorized : bool }.

(** [propCategories || []] *)
Definition categories_of (propCategories : option (list Category))
    : list Category :=
  default [] propCategories.

Definition getCurrentCategory (categories : list Category)
    (selectedCategoryId : Selected) (placeholder : string) : CurrentCategory :=
  match selectedCategoryId with
  | selected_null => {| name := "Uncategorized"; isUncategorized := true |}
  | selected_undefined => {| name := placeholder; isUncategorized := false |}
  | selected_id id =>
      let category := List.find (λ c, String.eqb (cat_id c) id) categories in
      {| name := or_else (cat_name <$> category) "Unknown Category";
         isUncategorized := false |}
  end.

(** [category.group_name || category.group?.name || 'Other'] *)
Definition groupName (category : Category) : string :=
  or_else (or_opt (cat_group_name category) (grp_name <$> cat_group category))
    "Other".

Definition groupedCategories (categories : list Category)
    : Completion (list TypeSection) :=
  groupCategories groupName categories.

(** [filteredTypes] reads the memoised [groupedCategories]. *)
Definition filteredTypes (categories : list Category) (searchValue : string)
    : Completion (list TypeSection) :=
  and_then (groupedCategories categories)
    (λ grouped, Return (filterCategories grouped searchValue)).
End WithRuntime.
End BulkCategoryEditor.

Module InlineCategoryEditor.
Section WithRuntime.
Context `{JSRuntime}.

Record CategoryInfo := {
  name : string;
  type : option string;
  isUncategorized : bool;
  categoryId : option string;
}.

Definition uncategorized_info : CategoryInfo :=
  {| name := "Uncategorized"; type := None; isUncategorized := true;
     categoryId := None |}.

(** The legacy fallback and the final default of [getCurrentCategoryInfo]. *)
Definition legacy_info (entry : LedgerEntry) : CategoryInfo :=
  match le_category_name entry with
  | Some n =>
      if String.eqb n "" then uncategorized_info
      else {| name := n; type := le_category_type entry;
              isUncategorized := false; categoryId := le_category entry |}
  | None => uncategorized_info
  end.

Definition getCurrentCategoryInfo (entry : LedgerEntry) : CategoryInfo :=
  match le_effective_category entry with
  | Some ec =>
      match ec_type ec with
      | direct =>
          {| name := or_else (ec_category_name ec) "Unknown";
             type := ec_category_type ec;
             isUncategorized := false;
             categoryId := ec_category_id ec |}
      | uncategorized => uncategorized_info
      end
  | None => legacy_info entry
  end.

(** [category.group_name || 'Other'] *)
Definition groupName (category : Category) : string :=
  or_else (cat_group_name category) "Other".

Definition groupedCategories (categories : list Category)
    : Completion (list TypeSection) :=
  groupCategories groupName categories.

(** [filteredTypes] reads the memoised [groupedCategories]. *)
Definition filteredTypes (categories : list Category) (searchValue : string)
    : Completion (list TypeSection) :=
  and_then (groupedCategories categories)
    (λ grouped, Return (filterCategories grouped searchValue)).

(** [api.updateTransaction(entry.id, { category: categoryId || undefined })]:
    a [PATCH] of the entry; a [category] that is [undefined] is left out of
    the JSON body. *)
Record UpdateTransaction := {
  ut_id : string;
  ut_category : option string;
}.

(** What a call of [handleCategorySelect] does: the requests it sends, the
    call of [onCategoryUpdated] it makes (entry id and category, or none),
    the toast it raises (title and description), and whether it closes the
    popover. *)
Record Selection := {
  sent : list UpdateTransaction;
  reported : option (string * option Category);
  toast : option (string * string);
  closes : bool;
}.

(** [handleCategorySelect(categoryId)] for an update that [resolves] or
    throws. *)
Definition handleCategorySelect (entry : LedgerEntry)
    (categories : list Category) (isUpdating resolves : bool)
    (categoryId : option string) : Selection :=
  if isUpdating
  then {| sent := []; reported := None; toast := None; closes := false |}
  else
    let request :=
      {| ut_id := le_id entry;
         ut_category := if truthy categoryId then categoryId else None |} in
    if resolves then
      let selectedCategory :=
        match categoryId with
        | Some id =>
            if String.eqb id "" then None
            else List.find (λ cat, String.eqb (cat_id cat) id) categories
        | None => None
        end in
      {| sent := [request];
         reported := Some (le_id entry, selectedCategory);
         toast :=
           Some ("Category updated",
                 "Transaction category changed to "
                 +:+ or_else (cat_name <$> selectedCategory) "Uncategorized");
         closes := true |}
    else
      {| sent := [request];
         reported := None;
         toast :=
           Some ("Error", "Failed to update category. Please try again.");
         closes := false |}.

(** [handleCategoryCreated(newCategory)], after it has notified the parent:
    the new category is applied to the entry. *)
Definition handleCategoryCreated (entry : LedgerEntry)
    (categories : list Category) (isUpdating resolves : bool)
    (newCategory : Category) : Selection :=
  handleCategorySelect entry categories isUpdating resolves
    (Some (cat_id newCategory)).
End WithRuntime.
End InlineCategoryEditor.

(** ** [TransactionsTable] ([transactions-table.tsx])

    The table keeps the loaded entries in [localTransactions], rewrites the
    category fields of an entry when its editor reports a change, and renders
    the entries day by day under date headers. *)

Module TransactionsTable.
Section WithRuntime.
Context `{JSRuntime}.

(** A row: the entry as the editor reads it, with the further fields of
    [LedgerEntry] that the table reads or writes. *)
Record Row := {
  row_entry : LedgerEntry;
  row_effective_date : string;
  row_raw_amount : string;
  row_category_group_name : option string;
}.

(** [x || undefined] on a string that may be missing *)
Definition or_undefined (x : option string) : option string :=
  if truthy x then x else None.

(** The object [handleCategoryUpdated] puts in place of the entry. *)
Definition with_category (transaction : Row) (newCategory : option Category)
    : Row :=
  {| row_entry :=
       {| le_id := le_id (row_entry transaction);
          le_category := or_undefined (cat_id <$> newCategory);
          le_category_name := or_undefined (cat_name <$> newCategory);
          le_category_type :=
            CategoryType_name <$> (newCategory ≫= cat_type);
          le_effective_category :=
            Some
              match newCategory with
              | Some newCategory =>
                  {| ec_type := direct;
                     ec_category_id := Some (cat_id newCategory);
                     ec_category_name := Some (cat_name newCategory);
                     ec_category_type :=
                       CategoryType_name <$> cat_type newCategory |}
              | None =>
                  {| ec_type := uncategorized;
                     ec_category_id := None;
                     ec_category_name := None;
                     ec_category_type := None |}
              end |};
     row_effective_date := row_effective_date transaction;
     row_raw_amount := row_raw_amount transaction;
     row_category_group_name :=
       or_undefined (newCategory ≫= cat_group_name) |}.

(** [handleCategoryUpdated(entryId, newCategory)]: the next value of
    [localTransactions]. *)
Definition handleCategoryUpdated (prev : list Row) (entryId : string)
    (newCategory : option Category) : list Row :=
  map
    (λ transaction,
       if negb (String.eqb (le_id (row_entry transaction)) entryId)
       then transaction
       else with_category transaction newCategory)
    prev.

(** The editor of a row is rendered with [onCategoryUpdated =
    handleCategoryUpdated]: the rows after a call of the editor's
    [handleCategorySelect]. *)
Definition after_selection (rows : list Row)
    (selection : InlineCategoryEditor.Selection) : list Row :=
  match InlineCategoryEditor.reported selection with
  | Some (entryId, newCategory) => handleCategoryUpdated rows entryId newCategory
  | None => rows
  end.

(** An item of [groupedTransactions]: a date header or an entry. *)
Inductive Item :=
  | date_header (date : string) (total : number)
  | transaction (t : Row).

(** The body of [localTransactions.forEach(transaction => ...)]: a date
    that names an inherited member finds a value that is not an array. *)
Definition add_transaction (groups : Obj (list Row)) (t : Row)
    : Completion (Obj (list Row)) :=
  let date := row_effective_date t in
  match obj_get groups date with
  | Missing => Return (obj_set groups date [t])
  | Own day => Return (obj_set groups date (day ++ [t]))
  | Inherited => TypeError
  end.

(** [Object.keys(obj)] *)
Definition Object_keys {V} (o : Obj V) : list string :=
  map fst (Object_entries o).

(** [(a, b) => b.localeCompare(a)] and [(a, b) => b.id.localeCompare(a.id)] *)
Definition compare_dates (a b : string) : Z := localeCompare b a.

Definition compare_ids (a b : Row) : Z :=
  localeCompare (le_id (row_entry b)) (le_id (row_entry a)).

(** [dayTransactions.reduce((sum, t) => sum + parseFloat(t.raw_amount), 0)] *)
Definition dayTotal (dayTransactions : list Row) : number :=
  fold_left (λ sum t, num_add sum (parseFloat (row_raw_amount t)))
    dayTransactions num_0.

(** The body of [sortedDates.forEach(date => ...)], appending to
    [flattenedTransactions]. *)
Definition add_day (groups : Obj (list Row)) (flattened : list Item)
    (date : string) : Completion (list Item) :=
  match obj_get groups date with
  | Own day =>
      let dayTransactions := js_sort compare_ids day in
      Return
        (flattened
         ++ date_header date (dayTotal dayTransactions)
            :: map transaction dayTransactions)
  | _ => TypeError
  end.

Definition groupedTransactions (localTransactions : list Row)
    : Completion (list Item) :=
  and_then (forEach add_transaction localTransactions [])
    (λ groups,
       let sortedDates := js_sort compare_dates (Object_keys groups) in
       forEach (add_day groups) sortedDates []).
End WithRuntime.
End TransactionsTable.

(** ** The ledger service

    The client reaches reconciliation and balance refresh through
    [bulkReconcileTransactions] ([api/ledger.ts]) and [refreshAccountBalance]
    (the accounts API module), which post a request and hand back the body of
    the response.  The handlers behind those endpoints are not part of the
    client sources: they are modelled from the ledger specification.
    Amounts are exact decimals, kept as integers in hundredths. *)

(** What [authenticatedFetch] followed by [response.json()] yields. *)
Inductive HttpResponse (A : Type) :=
  | http_ok (body : A)
  | http_error (status : nat) (detail error : option string)
  | network_failure.
Arguments http_ok {A} body.
Arguments http_error {A} status detail error.
Arguments network_failure {A}.

(** The outcome of an API call: the promise resolves, or rejects with an
    [APIError(status, message)]. *)
Inductive ApiResult (A : Type) :=
  | resolved (a : A)
  | rejected (status : nat) (message : string).
Arguments resolved {A} a.
Arguments rejected {A} status message.

Module LedgerService.
Inductive ReconciliationStatus := matched | manually_cleared | unmatched.
Inductive Action := mark_cleared | mark_uncleared.

#[global] Instance ReconciliationStatus_eq_dec
  : EqDecision ReconciliationStatus.
Proof. solve_decision. Defined.

Record TransferLink := {
  transfer_id : string;
  counterpart : string;
}.

(** Modelled from the spec: the ledger entry of section 3, as far as
    reconciliation and balances read it; the entry store is not in the
    client sources. *)
Record Entry := {
  account : string;
  description : string;
  signed_amount : Z;
  reconciliation_status : ReconciliationStatus;
  transfer_link : option TransferLink;
}.

(** Modelled from the spec: the state of the ledger service, which the
    client sources do not contain: the entry store (section 4.3) by entry
    id and the stored balance of each account (section 3) by account id. *)
Record Ledger := {
  entries : gmap string Entry;
  balances : gmap string Z;
}.

(** *** Balance refresh (section 4.3, [recomputeBalance]) *)

(** The fields of the response that section 6 lists (the body also names
    the account and has a [success] flag and a [message], left out). *)
Record RefreshBalance := {
  previous_balance : Z;
  current_balance : Z;
  difference : Z;
  was_updated : bool;
}.

(** Modelled from the spec: the sum of the signed amounts of all entries of
    an account, which the absent [refresh_balance] handler computes. *)
Definition entry_total (accountId : string) (es : gmap string Entry) : Z :=
  map_fold
    (λ _ e sum, if String.eqb (account e) accountId
                then sum + signed_amount e else sum)
    0 es.

(** Modelled from the spec: the absent [refresh_balance] handler, as
    section 4.3 words it: "full balance recomputation as the sum of all
    signed_amounts for the account", returning [{previous, current,
    changed}] (section 6: [{previous, current, difference, was_updated}]),
    and failing for an account that does not exist. *)
Definition recomputeBalance (accountId : string) (l : Ledger)
    : option (RefreshBalance * Ledger) :=
  match balances l !! accountId with
  | None => None
  | Some previous =>
      let current := entry_total accountId (entries l) in
      Some ({| previous_balance := previous;
               current_balance := current;
               difference := current - previous;
               was_updated := negb (Z.eqb previous current) |},
            {| entries := entries l;
               balances := <[accountId := current]> (balances l) |})
  end.

(** *** Bulk reconciliation (section 4.5, [bulkReconcile]) *)

Record SkippedEntry := {
  skipped_id : string;
  reason : string;
  skipped_description : string;
}.

(** The fields of the response that section 4.5 lists (the body also has a
    free-text [message], which is left out). *)
Record BulkReconcileResponse := {
  updated_count : nat;
  skipped_count : nat;
  total_requested : nat;
  transfer_entries_included : list string;
  skipped_entries : list SkippedEntry;
  action_performed : Action;
}.

(** Modelled from the spec: the status each action of section 4.5 leads
    to ([unmatched] and [manually_cleared] are reversible into each other). *)
Definition status_for (action : Action) : ReconciliationStatus :=
  match action with
  | mark_cleared => manually_cleared
  | mark_uncleared => unmatched
  end.

(** Modelled from the spec: the other side of a transfer pair (section 3:
    a transfer link names the counterpart entry), when the store has it. *)
Definition counterpart_of (es : gmap string Entry) (id : string)
    : option string :=
  e ← es !! id;
  link ← transfer_link e;
  if bool_decide (is_Some (es !! counterpart link))
  then Some (counterpart link) else None.

(** Modelled from the spec: "when one side of a transfer pair is included
    in the id list, apply the same action to both sides of the pair even if
    only one side was explicitly selected, recording the added counterpart
    id": the counterparts of the requested entries that were not requested
    themselves. *)
Definition included (es : gmap string Entry) (entryIds : list string)
    : list string :=
  remove_dups
    (List.filter (λ c, negb (bool_decide (c ∈ entryIds)))
       (omap (counterpart_of es) entryIds)).

(** Modelled from the spec: the entries the action is aimed at, which the
    absent handler resolves: the requested ones that exist, once each, then
    the added counterparts. *)
Definition targets (es : gmap string Entry) (entryIds : list string)
    : list string :=
  List.filter (λ id, bool_decide (is_Some (es !! id))) (remove_dups entryIds)
  ++ included es entryIds.

(** Modelled from the spec: "entries whose reconciliation_status is already
    matched", which the absent handler skips. *)
Definition is_matched (es : gmap string Entry) (id : string) : bool :=
  match es !! id with
  | Some e => bool_decide (reconciliation_status e = matched)
  | None => false
  end.

(** Modelled from the spec: the report of a skipped entry, "each with id,
    reason, description". *)
Definition skip (es : gmap string Entry) (id : string)
    : option SkippedEntry :=
  e ← es !! id;
  if bool_decide (reconciliation_status e = matched)
  then Some {| skipped_id := id; reason := "already_matched";
               skipped_description := description e |}
  else None.

(** An entry with its reconciliation status replaced. *)
Definition with_status (s : ReconciliationStatus) (e : Entry) : Entry :=
  {| account := account e; description := description e;
     signed_amount := signed_amount e; reconciliation_status := s;
     transfer_link := transfer_link e |}.

(** Modelled from the spec: the absent [bulk_reconcile] handler, as section
    4.5 words it: entries that are already [matched] are skipped and
    reported with reason [already_matched], every other aimed-at entry gets
    the status of the action, and the response carries the six fields the
    section lists. *)
Definition bulkReconcile (entryIds : list string) (action : Action)
    (l : Ledger) : BulkReconcileResponse * Ledger :=
  let es := entries l in
  let aimed := targets es entryIds in
  let skipped := omap (skip es) aimed in
  let updated := List.filter (λ id, negb (is_matched es id)) aimed in
  ({| updated_count := length updated;
      skipped_count := length skipped;
      total_requested := length entryIds;
      transfer_entries_included := included es entryIds;
      skipped_entries := skipped;
      action_performed := action |},
   {| entries :=
        map_imap
          (λ id e,
             Some (if bool_decide (id ∈ aimed)
                      && negb (bool_decide (reconciliation_status e = matched))
                   then with_status (status_for action) e else e))
          es;
      balances := balances l |}).

(** *** The client functions ([bulkReconcileTransactions],
    [refreshAccountBalance]) *)

(** [errorData.detail || errorData.error || fallback] *)
Definition error_message (detail error : option string) (fallback : string)
    : string :=
  or_else (or_opt detail error) fallback.

(** Both functions post, throw an [APIError] when the response is not ok
    (status 0 for a failed fetch) and otherwise return the parsed body. *)
Definition api_call {A} (fallback : string) (response : HttpResponse A)
    : ApiResult A :=
  match response with
  | http_ok body => resolved body
  | http_error status detail error =>
      rejected status (error_message detail error fallback)
  | network_failure => rejected 0 "Network error occurred"
  end.

Definition bulkReconcileTransactions
    (authenticatedFetch :
       list string → Action → HttpResponse BulkReconcileResponse)
    (entryIds : list string) (action : Action)
    : ApiResult BulkReconcileResponse :=
  api_call "Failed to bulk reconcile transactions"
    (authenticatedFetch entryIds action).

Definition refreshAccountBalance
    (authenticatedFetch : string → HttpResponse RefreshBalance)
    (id : string) : ApiResult RefreshBalance :=
  api_call "Failed to refresh account balance" (authenticatedFetch id).

(** A service that answers from a ledger state. *)
Definition reconcile_endpoint (l : Ledger) (entryIds : list string)
    (action : Action) : HttpResponse BulkReconcileResponse :=
  http_ok (fst (bulkReconcile entryIds action l)).

Definition refresh_endpoint (l : Ledger) (id : string)
    : HttpResponse RefreshBalance :=
  match recomputeBalance id l with
  | Some (r, _) => http_ok r
  | None => http_error 404 (Some "Not found.") None
  end.
End LedgerService.

(** ** [RefreshBalanceButton] ([refresh-balance-button.tsx])

    The button awaits [refreshAccountBalance] and hands the account with its
    new balance to [onRefreshComplete], which on the accounts page is
    [handleAccountRefresh]. *)

Module RefreshBalanceButton.
(** The fields of [RefreshBalanceResponse] that the button reads. *)
Record RefreshBalanceResponse := {
  previous_balance : string;
  current_balance : string;
  was_updated : bool;
}.

(** What [handleRefreshBalance] leaves behind: the two pieces of state and
    the argument of its call of [onRefreshComplete], if it makes one.  The
    awaited [refreshAccountBalance] rejects with an [APIError] only, so the
    message for other errors is never set. *)
Record Refreshed := {
  refreshSuccess : bool;
  refreshMessage : string;
  completed : option Account;
}.

Definition handleRefreshBalance (account : Account)
    (outcome : ApiResult RefreshBalanceResponse) : Refreshed :=
  match outcome with
  | resolved result =>
      {| refreshSuccess := true;
         refreshMessage :=
           if was_updated result
           then "Balance updated! Previous: $" +:+ previous_balance result
                +:+ ", Current: $" +:+ current_balance result
           else "Balance refresh completed! Balance was already correct.";
         completed :=
           Some {| acc_id := acc_id account;
                   acc_name := acc_name account;
                   acc_type := acc_type account;
                   acc_subtype := acc_subtype account;
                   acc_current_balance := current_balance result;
                   acc_cached_actual_balance := current_balance result |} |}
  | rejected _ message =>
      {| refreshSuccess := false;
         refreshMessage := "Failed to refresh balance: " +:+ message;
         completed := None |}
  end.
End RefreshBalanceButton.

(** ** A runtime on exact decimals

    An instance of the runtime interface on which the embedding runs:
    numbers are [NaN] or an exact rational, numerals are plain decimal
    literals (no exponent, no hexadecimal form, no [Infinity], no blanks),
    [localeCompare] orders by character code, and a date is kept as its
    ISO-8601 text.  There is no rounding and no signed zero. *)

Module Decimal.
Definition number : Type := option Q.

Definition lift2 (f : Q → Q → Q) (x y : number) : number :=
  match x, y with
  | Some a, Some b => Some (f a b)
  | _, _ => None
  end.

Definition isNaN (x : number) : bool :=
  match x with Some _ => false | None => true end.

Definition gt (x y : number) : bool :=
  match x, y with
  | Some a, Some b => negb (Qle_bool a b)
  | _, _ => false
  end.

Definition strict_eq (x y : number) : bool :=
  match x, y with
  | Some a, Some b => Qeq_bool a b
  | _, _ => false
  end.

(** Reading a run of digits: its value after [acc], how many digits were
    read, and the rest of the text. *)
Fixpoint digits (s : string) (acc : N) (read : nat) : N * nat * string :=
  match s with
  | EmptyString => (acc, read, EmptyString)
  | String c rest =>
      match digit c with
      | Some d => digits rest (10 * acc + d)%N (S read)
      | None => (acc, read, s)
      end
  end.

(** The longest decimal literal at the start of [s] ([sign? digits
    (. digits?)?] or [sign? . digits]) and the text after it. *)
Definition scan (s : string) : option (Q * string) :=
  let '(negative, s1) :=
    match s with
    | String "-" rest => (true, rest)
    | String "+" rest => (false, rest)
    | _ => (false, s)
    end in
  let '(whole, n_whole, s2) := digits s1 0 0 in
  let '(mantissa, n_frac, s3) :=
    match s2 with
    | String "." rest =>
        let '(m, n, after) := digits rest whole 0 in
        if (n_whole + n =? 0)%nat then (whole, 0%nat, s2) else (m, n, after)
    | _ => (whole, 0%nat, s2)
    end in
  if (n_whole + n_frac =? 0)%nat then None
  else
    let magnitude := Qmake (Z.of_N mantissa) (Pos.pow 10 (Pos.of_nat n_frac)) in
    let magnitude :=
      if (n_frac =? 0)%nat then inject_Z (Z.of_N mantissa) else magnitude in
    Some (if negative then Qopp magnitude else magnitude, s3).

Definition parseFloat (s : string) : number :=
  fst <$> scan s.

Definition Number (s : string) : number :=
  match s with
  | EmptyString => Some 0%Q
  | _ =>
      match scan s with
      | Some (q, EmptyString) => Some q
      | _ => None
      end
  end.

Fixpoint zeros (n : nat) : string :=
  match n with O => EmptyString | S n => String "0" (zeros n) end.

(** [x.toFixed(f)]: the nearest multiple of [10^-f], the larger one on a
    tie, written with [f] fraction digits. *)
Definition toFixed (x : number) (f : nat) : string :=
  match x with
  | None => "NaN"
  | Some q =>
      let scaled := Qmult (Qabs q) (inject_Z (10 ^ Z.of_nat f)) in
      let n := Z.to_N (Qfloor (Qplus scaled (1 # 2))) in
      let text := pretty n in
      let text := zeros (S f - String.length text) +:+ text in
      let cut := (String.length text - f)%nat in
      (if Qle_bool 0 q then "" else "-")
      +:+ substring 0 cut text
      +:+ (if (f =? 0)%nat then "" else "." +:+ substring cut f text)
  end.

Definition localeCompare (a b : string) : Z :=
  match String_as_OT.compare a b with
  | Lt => -1
  | Eq => 0
  | Gt => 1
  end.

Definition lower (c : ascii) : ascii :=
  let n := N_of_ascii c in
  if ((65 <=? n) && (n <=? 90))%N then ascii_of_N (n + 32) else c.

Fixpoint toLowerCase (s : string) : string :=
  match s with
  | EmptyString => EmptyString
  | String c rest => String (lower c) (toLowerCase rest)
  end.

Definition Date : Type := string.

Definition toISOString (d : Date) : string := d.

#[global] Instance runtime : JSRuntime :=
  Build_JSRuntime number (Some 0%Q) (Some 1%Q) isNaN
    (lift2 Qplus) (lift2 Qminus) (lift2 Qmult) (fmap Qopp) (fmap Qabs)
    gt strict_eq Number parseFloat toFixed localeCompare toLowerCase
    Date toISOString.
End Decimal.

(** * Specification-side definitions

    What the claims are stated with: the sign convention of section 4.1 sits
    with the transaction form above; here are the reading of a comparator as
    an order, the contents and the ordering of the grouped categories, and
    the data of the scenarios. *)

(** When the entry points at no category for the editor to show: the
    service resolved it to [uncategorized], or it sent neither a resolved
    category nor a legacy category name. *)
Definition no_category_shown (entry : LedgerEntry) : Prop :=
  match le_effective_category entry with
  | Some ec => ec_type ec = uncategorized
  | None => truthy (le_category_name entry) = false
  end.

(** [a] may stand before [b] under a comparator. *)
Definition cmp_le {A} (compare : A → A → Z) (a b : A) : Prop :=
  (compare a b ≤ 0)%Z.

(** The group object is not needed to name the group: the category has a
    [group_name], or its group object has no name to fall back on. *)
Definition named_without_group_object (c : Category) : Prop :=
  truthy (cat_group_name c) = true ∨ truthy (grp_name <$> cat_group c) = false.

Section GroupingSpec.
Context `{JSRuntime}.
Variable groupNameOf : Category → string.

(** [category.type || 'EXPENSE'] *)
Definition type_of (c : Category) : CategoryType :=
  default EXPENSE (cat_type c).

(** What the grouping code pushes for a category. *)
Definition grouped_entry (c : Category) : GroupedCategory :=
  {| gc_category := c;
     gc_searchText := toLowerCase (cat_name c +:+ " " +:+ groupNameOf c) |}.

(** The categories of type [ty] whose group is named [g], in list order. *)
Definition in_group (ty : CategoryType) (g : string) (c : Category) : bool :=
  bool_decide (type_of c = ty) && String.eqb (groupNameOf c) g.

Definition members (ty : CategoryType) (g : string) (cs : list Category)
    : list Category :=
  List.filter (in_group ty g) cs.

(** The table [categoryTypes] after the categories [cs] have been filed:
    under each type the keys are distinct, none of them names an inherited
    member, and each key holds the entries of its categories in list order
    (a key exists only when it has a category). *)
Definition table_holds (t : CategoryTypes) (cs : list Category) : Prop :=
  ∀ ty,
    NoDup (map fst (groups_of t ty))
    ∧ (∀ g, g ∈ map fst (groups_of t ty) → inherited g = false)
    ∧ (∀ g, obj_own (groups_of t ty) g
            = match members ty g cs with
              | [] => None
              | m => Some (map grouped_entry m)
              end).

(** Alphabetical order, as [localeCompare] decides it. *)
Definition name_le (a b : string) : Prop := (localeCompare a b ≤ 0)%Z.

(** A group of a section of type [ty]: its categories are sorted by name and
    are exactly the categories of that type and group. *)
Definition group_ok (cs : list Category) (ty : CategoryType) (g : Group)
    : Prop :=
  StronglySorted name_le
    (map (λ e, cat_name (gc_category e)) (group_categories g))
  ∧ group_categories g
    ≡ₚ map grouped_entry (members ty (group_name g) cs).

(** A section: its groups are sorted by name, their names are distinct and
    are the group names of the categories of its type, and every group is
    as above. *)
Definition section_ok (cs : list Category) (s : TypeSection) : Prop :=
  StronglySorted name_le (map group_name (section_groups s))
  ∧ NoDup (map group_name (section_groups s))
  ∧ (∀ g, g ∈ map group_name (section_groups s)
          ↔ ∃ c, c ∈ cs ∧ type_of c = section_type s ∧ groupNameOf c = g)
  ∧ Forall (group_ok cs (section_type s)) (section_groups s).

(** The section that one round of [typeOrder.forEach] adds, if any. *)
Definition section_for (t : CategoryTypes) (entry : CategoryType * string)
    : list TypeSection :=
  let groups := sortedGroups (groups_of t (fst entry)) in
  if (0 <? length groups)%nat
  then [{| section_type := fst entry; section_displayName := snd entry;
           section_groups := groups |}]
  else [].

(** What a grouping function owes on the list [cs]: it throws only when a
    group is named after an inherited member; otherwise no group is, the
    sections are those of INCOME, EXPENSE and TRANSFER that have a
    category, in that order and named "Income", "Expense" and "Transfer",
    and every section is as above. *)
Definition grouping_spec (cs : list Category)
    (outcome : Completion (list TypeSection)) : Prop :=
  match outcome with
  | TypeError => Exists (λ c, inherited (groupNameOf c) = true) cs
  | Return result =>
      Forall (λ c, inherited (groupNameOf c) = false) cs
      ∧ map (λ s, (section_type s, section_displayName s)) result
        = List.filter
            (λ entry, existsb (λ c, bool_decide (type_of c = fst entry)) cs)
            [(INCOME, "Income"); (EXPENSE, "Expense"); (TRANSFER, "Transfer")]
      ∧ Forall (section_ok cs) result
  end.
End GroupingSpec.

(** The items of the editors' list.  A category is listed with its type
    and the name of its group, as the entry the grouping code builds for
    it; a search keeps the items whose search text contains the search
    value in lower case. *)
Section ListingSpec.
Context `{JSRuntime}.
Variable groupNameOf : Category → string.

Definition item (c : Category) : CategoryType * string * GroupedCategory :=
  (type_of c, groupNameOf c, grouped_entry groupNameOf c).
End ListingSpec.

Definition found `{JSRuntime} (searchValue : string)
    (it : CategoryType * string * GroupedCategory) : bool :=
  includes (gc_searchText (snd it)) (toLowerCase searchValue).

(** The entries held by a table of groups, each with its type and key. *)
Definition group_items (ty : CategoryType) (o : Obj (list GroupedCategory))
    : list (CategoryType * string * GroupedCategory) :=
  flat_map (λ kv, map (λ e, (ty, fst kv, e)) (snd kv)) o.

Definition table_items (t : CategoryTypes)
    : list (CategoryType * string * GroupedCategory) :=
  group_items INCOME (of_INCOME t) ++ group_items EXPENSE (of_EXPENSE t)
  ++ group_items TRANSFER (of_TRANSFER t).

(** What an editor lists for the categories [cs] and a search value: it
    throws only when a group is named after an inherited member; otherwise
    it lists each category that the search finds once (every category when
    the search value is empty), and no section or group without an item. *)
Definition listing_spec `{JSRuntime} (groupNameOf : Category → string)
    (cs : list Category) (searchValue : string)
    (outcome : Completion (list TypeSection)) : Prop :=
  match outcome with
  | TypeError => Exists (λ c, inherited (groupNameOf c) = true) cs
  | Return sections =>
      listed sections
      ≡ₚ (if String.eqb searchValue "" then map (item groupNameOf) cs
          else List.filter (found searchValue) (map (item groupNameOf) cs))
      ∧ Forall
          (λ s, section_groups s ≠ []
                ∧ Forall (λ g, group_categories g ≠ []) (section_groups s))
          sections
  end.

(** What the editor of a row shows for a category that was put on the
    row's entry. *)
Definition shown_for (newCategory : option Category)
    : InlineCategoryEditor.CategoryInfo :=
  match newCategory with
  | Some c =>
      {| InlineCategoryEditor.name := or_else (Some (cat_name c)) "Unknown";
         InlineCategoryEditor.type := CategoryType_name <$> cat_type c;
         InlineCategoryEditor.isUncategorized := false;
         InlineCategoryEditor.categoryId := Some (cat_id c) |}
  | None => InlineCategoryEditor.uncategorized_info
  end.

(** The groups of the accounts page.  The accounts of a type and subtype,
    in list order; a group holds exactly those, is never empty, and its
    total is their balances added from the left, starting at zero: the
    balance of an account is parsed from its [current_balance], or from its
    [cached_actual_balance] when that is empty, or from "0" when both are,
    and the balance of a LIABILITY is added as its absolute value. *)
Section AccountGroupsSpec.
Context `{JSRuntime}.
Import AccountsPage AccountsList.

Definition in_account_group (t : AccountType) (st : AccountSubtype)
    (a : Account) : bool :=
  bool_decide (acc_type a = t) && bool_decide (acc_subtype a = st).

Definition accounts_of (t : AccountType) (st : AccountSubtype)
    (accounts : list Account) : list Account :=
  List.filter (in_account_group t st) accounts.

Definition total_shown (accounts : list Account) : number :=
  fold_left
    (λ sum a,
       let parsed :=
         parseFloat
           (if String.eqb (acc_current_balance a) "" then
              if String.eqb (acc_cached_actual_balance a) "" then "0"
              else acc_cached_actual_balance a
            else acc_current_balance a) in
       num_add sum
         match acc_type a with
         | LIABILITY => Math_abs parsed
         | ASSET => parsed
         end)
    accounts num_0.

Definition account_group_ok (accounts : list Account) (g : AccountGroup)
    : Prop :=
  ag_accounts g = accounts_of (ag_type g) (ag_subtype g) accounts
  ∧ ag_accounts g ≠ []
  ∧ ag_total g = total_shown (ag_accounts g).

(** The table [groups] after the accounts have been filed. *)
Definition groups_hold (groups : Obj AccountGroup) (accounts : list Account)
    : Prop :=
  NoDup (map fst groups)
  ∧ (∀ k, k ∈ map fst groups → ∃ t st, k = key_of t st)
  ∧ (∀ t st,
       obj_own groups (key_of t st)
       = match accounts_of t st accounts with
         | [] => None
         | m => Some {| ag_type := t; ag_subtype := st; ag_accounts := m;
                        ag_total := total_shown m |}
         end).

Definition grouped_accounts (groups : Obj AccountGroup) : list Account :=
  flat_map (λ kv, ag_accounts (snd kv)) groups.

(** The accounts of the page after a refresh of [account] has come back:
    the button calls [onRefreshComplete] on success only. *)
Definition after_refresh (accounts : list Account) (account : Account)
    (outcome : ApiResult RefreshBalanceButton.RefreshBalanceResponse)
    : list Account :=
  match RefreshBalanceButton.completed
          (RefreshBalanceButton.handleRefreshBalance account outcome) with
  | Some updatedAccount => handleAccountRefresh accounts (Some updatedAccount)
  | None => accounts
  end.
End AccountGroupsSpec.

(** The days of the transactions table.  The entries of a date, in list
    order; a day is rendered as a header with the date and the day's total
    (the parsed raw amounts of its entries as listed, added from the left
    starting at zero), followed by its entries; the later of two dates or
    ids comes first. *)
Section DaysSpec.
Context `{JSRuntime}.
Import TransactionsTable.

Definition day_of (date : string) (rows : list Row) : list Row :=
  List.filter (λ t, String.eqb (row_effective_date t) date) rows.

Definition day_block (day : string * list Row) : list Item :=
  date_header (fst day)
    (fold_left (λ sum t, num_add sum (parseFloat (row_raw_amount t)))
       (snd day) num_0)
  :: map transaction (snd day).

(** The table [groups] after the entries [rows] have been filed. *)
Definition days_hold (groups : Obj (list Row)) (rows : list Row) : Prop :=
  NoDup (map fst groups)
  ∧ (∀ d, d ∈ map fst groups → inherited d = false)
  ∧ (∀ d, obj_own groups d
          = match day_of d rows with
            | [] => None
            | m => Some m
            end).

(** The day of a date as the second loop reads it. *)
Definition sorted_day (groups : Obj (list Row)) (date : string)
    : string * list Row :=
  (date, js_sort compare_ids (default [] (obj_own groups date))).

Definition later_first (a b : string) : Prop := (localeCompare b a ≤ 0)%Z.

Definition day_ok (rows : list Row) (day : string * list Row) : Prop :=
  snd day ≡ₚ day_of (fst day) rows
  ∧ StronglySorted later_first (map (λ t, le_id (row_entry t)) (snd day)).

(** What [groupedTransactions] owes on the entries [rows]: it throws only
    when an entry's date names an inherited member; otherwise the items are
    the blocks of a list of days whose dates are distinct, are the dates of
    the entries, and stand latest first, each day holding the entries of its
    date with the latest id first. *)
Definition grouped_by_day (rows : list Row) (outcome : Completion (list Item))
    : Prop :=
  match outcome with
  | TypeError => Exists (λ t, inherited (row_effective_date t) = true) rows
  | Return items =>
      Forall (λ t, inherited (row_effective_date t) = false) rows
      ∧ ∃ days : list (string * list Row),
          items = flat_map day_block days
          ∧ StronglySorted later_first (map fst days)
          ∧ NoDup (map fst days)
          ∧ (∀ d, d ∈ map fst days
                  ↔ ∃ t, t ∈ rows ∧ row_effective_date t = d)
          ∧ Forall (day_ok rows) days
  end.
End DaysSpec.

(** ** Scenario data *)

(** An asset account, a liability with a negative balance, and a liability
    whose [current_balance] is empty. *)
Definition checking : Account :=
  {| acc_id := "a1"; acc_name := "Checking"; acc_type := ASSET;
     acc_subtype := CHECKING; acc_current_balance := "1200.50";
     acc_cached_actual_balance := "1200.50" |}.

Definition card : Account :=
  {| acc_id := "a2"; acc_name := "Card"; acc_type := LIABILITY;
     acc_subtype := CREDIT; acc_current_balance := "-300.25";
     acc_cached_actual_balance := "" |}.

Definition loan : Account :=
  {| acc_id := "a3"; acc_name := "Loan"; acc_type := LIABILITY;
     acc_subtype := LOAN; acc_current_balance := "";
     acc_cached_actual_balance := "5000" |}.

Definition entry_form (accountId amount : string) (d : Direction)
    : AddTransactionDialog.TransactionFormData :=
  {| AddTransactionDialog.account := accountId;
     AddTransactionDialog.effective_date := Some "2025-03-01T00:00:00.000Z";
     AddTransactionDialog.raw_amount := amount;
     AddTransactionDialog.description := "Groceries";
     AddTransactionDialog.direction := d;
     AddTransactionDialog.category := Some "c1" |}.

Definition transfer_out : LedgerService.Entry :=
  {| LedgerService.account := "A";
     LedgerService.description := "To savings";
     LedgerService.signed_amount := -1000;
     LedgerService.reconciliation_status := LedgerService.unmatched;
     LedgerService.transfer_link :=
       Some {| LedgerService.transfer_id := "T";
               LedgerService.counterpart := "e2" |} |}.

Definition transfer_in : LedgerService.Entry :=
  {| LedgerService.account := "B";
     LedgerService.description := "From checking";
     LedgerService.signed_amount := 1000;
     LedgerService.reconciliation_status := LedgerService.unmatched;
     LedgerService.transfer_link :=
       Some {| LedgerService.transfer_id := "T";
               LedgerService.counterpart := "e1" |} |}.

Definition statement_line : LedgerService.Entry :=
  {| LedgerService.account := "A";
     LedgerService.description := "Salary";
     LedgerService.signed_amount := 250000;
     LedgerService.reconciliation_status := LedgerService.matched;
     LedgerService.transfer_link := None |}.

(** Two sides of a transfer between accounts A and B, a matched entry, and
    a stored balance of A that has drifted from its entries. *)
Definition ledger : LedgerService.Ledger :=
  {| LedgerService.entries :=
       <["e1" := transfer_out]> (<["e2" := transfer_in]>
         (<["e3" := statement_line]> ∅));
     LedgerService.balances := <["A" := 0]> (<["B" := 1000]> ∅) |}.

(** A category whose group carries the name of a member of
    [Object.prototype]. *)
Definition rent_in_group_constructor : Category :=
  {| cat_id := "c1"; cat_name := "Rent"; cat_group := None;
     cat_group_name := Some "constructor"; cat_type := Some EXPENSE |}.

(** A category sent with its full group object and no [group_name]. *)
Definition rent_with_group_object : Category :=
  {| cat_id := "c1"; cat_name := "Rent";
     cat_group := Some {| grp_id := "g1"; grp_name := "Housing";
                          grp_type := EXPENSE |};
     cat_group_name := None; cat_type := Some EXPENSE |}.

(** A small catalog whose categories carry their [group_name]. *)
Definition category (id name : string) (group : option string)
    (ty : CategoryType) : Category :=
  {| cat_id := id; cat_name := name; cat_group := None;
     cat_group_name := group; cat_type := Some ty |}.

Definition catalog : list Category :=
  [category "c1" "Rent" (Some "Housing") EXPENSE;
   category "c2" "Salary" (Some "Work") INCOME;
   category "c3" "Groceries" (Some "Food") EXPENSE;
   category "c4" "Dining" (Some "Food") EXPENSE;
   category "c5" "Gifts" None EXPENSE].

(** A filter state with a search text, a type and a subtype. *)
Definition filters_in_use : AccountFilters.AccountFilters :=
  {| AccountFilters.search := "chk"; AccountFilters.type := "ASSET";
     AccountFilters.subtype := "CHECKING" |}.

(** Three entries on two days, none of them categorized. *)
Definition ledger_entry (id : string) : LedgerEntry :=
  {| le_id := id; le_category := None; le_category_name := None;
     le_category_type := None; le_effective_category := None |}.

Definition row (id date amount : string) : TransactionsTable.Row :=
  {| TransactionsTable.row_entry := ledger_entry id;
     TransactionsTable.row_effective_date := date;
     TransactionsTable.row_raw_amount := amount;
     TransactionsTable.row_category_group_name := None |}.

Definition table_rows : list TransactionsTable.Row :=
  [row "e1" "2025-03-01" "-20.00"; row "e2" "2025-03-02" "5.50";
   row "e3" "2025-03-01" "-4.25"].

(** A category that has just been created and is not in the catalog. *)
Definition pets : Category := category "c9" "Pets" (Some "Home") EXPENSE.

(** * Properties *)

(** ** Helper facts *)

Lemma check_nil ok path msg : check ok path msg = [] ↔ ok = true.
Proof. unfold check. destruct ok; split; congruence. Qed.

Lemma check_In ok path msg i :
  In i (check ok path msg) ↔ ok = false ∧ i = (path, msg).
Proof.
  unfold check. destruct ok; simpl.
  - split; [tauto | intros [Hf _]; discriminate Hf].
  - split; [intros [<- | []]; auto | intros [_ ->]; auto].
Qed.

Lemma handleSubmit_rejected {D} (schema : D → list Issue) onSubmit data :
  schema data ≠ [] → handleSubmit schema onSubmit data = [].
Proof. unfold handleSubmit. destruct (schema data); congruence. Qed.

Lemma serve_nothing {S} (handler : Request → S → S) st : serve handler [] st = st.
Proof. reflexivity. Qed.

(** ** The sign convention of the transaction form *)

Section SignConvention.
Context `{JSRuntime}.
Import AddTransactionDialog.

(** What the interface needs from multiplication: [1 * x] is [x] and
    [-1 * x] is [-x], as IEEE-754 multiplication has it for every double. *)
Hypothesis mul_one : ∀ x, num_mul num_1 x = x.
Hypothesis mul_minus_one : ∀ x, num_mul (num_neg num_1) x = num_neg x.

(** C1.  For every list of accounts and every form data (whatever the type
    of the selected account, and whatever the raw amount), [onSubmit]
    computes the signed amount as the sign of the direction times the
    magnitude of the raw amount, which is the absolute value of what
    [parseFloat] reads from the raw amount with its commas replaced by
    points: [out] gives minus the magnitude and [in] gives the magnitude,
    for every account type, so a sign typed into the raw amount has no
    effect; the branch for LIABILITY accounts and the branch for ASSET
    accounts are the same function; and the submitted [raw_amount] is
    that signed amount printed with two fraction digits. *)
Theorem signed_amount_is_direction_sign_times_magnitude
    (accounts : list Account) (data : TransactionFormData) :
  (∀ t : AccountType,
     signedRaw accounts data
     = num_mul (spec_direction_sign t (direction data))
         (Math_abs (parseFloat (replace_commas (raw_amount data)))))
  ∧ (direction data = out →
     signedRaw accounts data
     = num_neg (Math_abs (parseFloat (replace_commas (raw_amount data)))))
  ∧ (direction data = in_ →
     signedRaw accounts data
     = Math_abs (parseFloat (replace_commas (raw_amount data))))
  ∧ (∀ d x,
       signedRaw_liability d x = signedRaw_asset d x
       ∧ signedRaw_asset d x
         = match d with out => num_neg x | in_ => x end)
  ∧ tp_raw_amount (payload accounts data)
    = toFixed
        (num_mul (spec_direction_sign (account_type_of accounts data)
                    (direction data))
           (Math_abs (parseFloat (replace_commas (raw_amount data))))) 2.
Proof.
  assert (Hs : ∀ t : AccountType,
            signedRaw accounts data
            = num_mul (spec_direction_sign t (direction data))
                (Math_abs (parseFloat (replace_commas (raw_amount data))))).
  { intros t.
    unfold signedRaw, signedRaw_liability, signedRaw_asset, absAmount,
      spec_direction_sign.
    destruct (isLiability accounts data), (direction data);
      rewrite ?mul_one, ?mul_minus_one; reflexivity. }
  split; [exact Hs|].
  split; [|split; [|split]].
  - intros Hd. unfold signedRaw, signedRaw_liability, signedRaw_asset, absAmount.
    rewrite Hd. destruct (isLiability accounts data); reflexivity.
  - intros Hd. unfold signedRaw, signedRaw_liability, signedRaw_asset, absAmount.
    rewrite Hd. destruct (isLiability accounts data); reflexivity.
  - intros d x. split; reflexivity.
  - unfold payload. simpl. rewrite (Hs (account_type_of accounts data)).
    reflexivity.
Qed.
End SignConvention.

(** ** Validation of the transaction form *)

Section TransactionValidation.
Context `{JSRuntime}.
Import AddTransactionDialog.

Lemma transactionSchema_amount_issue (data : TransactionFormData) :
  raw_amount_ok (raw_amount data) = false → transactionSchema data ≠ [].
Proof.
  intros Hbad Hnil. unfold transactionSchema in Hnil.
  apply app_eq_nil in Hnil as [_ Hnil].
  apply app_eq_nil in Hnil as [_ Hnil].
  apply app_eq_nil in Hnil as [Hnil _].
  apply check_nil in Hnil. congruence.
Qed.

(** What the validation does decide.  The amount check of the transaction
    form fails exactly when [Number(val)] is [NaN] or equals zero, so every
    string that [Number] reads as a number other than zero passes it; a
    failed check is reported as the issue "Amount cannot be zero" at
    [raw_amount], and a submit with such an amount sends no request. *)
Lemma transaction_amount_rejected_iff_nan_or_zero
    (accounts : list Account) (data : TransactionFormData) :
  (raw_amount_ok (raw_amount data) = false
     ↔ isNaN (Number (raw_amount data)) = true
       ∨ num_eq (Number (raw_amount data)) num_0 = true)
  ∧ (isNaN (Number (raw_amount data)) = false →
     num_eq (Number (raw_amount data)) num_0 = false →
     raw_amount_ok (raw_amount data) = true)
  ∧ (In (["raw_amount"], "Amount cannot be zero") (transactionSchema data)
     ↔ raw_amount_ok (raw_amount data) = false)
  ∧ (raw_amount_ok (raw_amount data) = false → submit accounts data = []).
Proof.
  split; [|split; [|split]].
  - unfold raw_amount_ok.
    destruct (isNaN _), (num_eq _ _); simpl; split; auto;
      intros [?|?]; congruence.
  - unfold raw_amount_ok. intros -> ->. reflexivity.
  - unfold transactionSchema.
    rewrite !in_app_iff, !check_In. split.
    + intros [[_ Hi]|[[_ Hi]|[[Hb _]|[[_ Hi]|Hi]]]];
        try (inversion Hi; fail); auto.
      destruct (effective_date data); [|destruct Hi].
      apply check_In in Hi as [_ Hi]. inversion Hi.
    + intros Hb. right. right. left. auto.
  - intros Hb. apply handleSubmit_rejected.
    apply transactionSchema_amount_issue, Hb.
Qed.

(** C7 fails on the code.  The check reads the amount with [Number], but
    [onSubmit] sends what [parseFloat] reads from the amount with its commas
    replaced, signed by the direction and rounded to two fraction digits.
    So for every complete form whose amount [Number] reads as a number
    other than zero, the check passes and a request is sent; and when the
    amount that [onSubmit] computes prints as zero (as it does for "0.001"
    and "0.004", which round to zero, and for "0x10", which [Number] reads
    as 16 and [parseFloat] as 0), the request that creates the entry
    carries a zero amount. *)
Theorem amount_read_as_zero_is_sent
    (accounts : list Account) (date : Date) (amount : string)
    (d : Direction) :
  isNaN (Number amount) = false →
  num_eq (Number amount) num_0 = false →
  toFixed
    match d with
    | out => num_neg (Math_abs (parseFloat (replace_commas amount)))
    | in_ => Math_abs (parseFloat (replace_commas amount))
    end 2 = "0.00"
  ∨ toFixed
      match d with
      | out => num_neg (Math_abs (parseFloat (replace_commas amount)))
      | in_ => Math_abs (parseFloat (replace_commas amount))
      end 2 = "-0.00" →
  transactionSchema
    {| account := "a1"; effective_date := Some date; raw_amount := amount;
       description := "Groceries"; direction := d; category := Some "c1" |}
  = []
  ∧ ∃ zero,
      (zero = "0.00" ∨ zero = "-0.00")
      ∧ submit accounts
          {| account := "a1"; effective_date := Some date;
             raw_amount := amount; description := "Groceries";
             direction := d; category := Some "c1" |}
        = [CreateTransaction
             {| tp_account := "a1";
                tp_effective_date := split_head "T" (toISOString date);
                tp_description := "Groceries";
                tp_raw_amount := zero;
                tp_category := Some "c1" |}].
Proof.
  intros Hnan Hzero Hprint.
  assert (Hok : transactionSchema
                  {| account := "a1"; effective_date := Some date;
                     raw_amount := amount; description := "Groceries";
                     direction := d; category := Some "c1" |} = []).
  { unfold transactionSchema, raw_amount_ok. cbn [account effective_date
      raw_amount description category]. rewrite Hnan, Hzero. reflexivity. }
  split; [exact Hok|].
  eexists. split; [exact Hprint|].
  unfold submit, handleSubmit. rewrite Hok.
  unfold onSubmit, payload, signedRaw, signedRaw_liability, signedRaw_asset,
    absAmount, date_part.
  cbn [account effective_date raw_amount description category direction].
  destruct (isLiability accounts _); reflexivity.
Qed.
End TransactionValidation.

(** ** Validation of the transfer form *)

Section TransferValidation.
Context `{JSRuntime}.
Import AddTransferDialog.

Lemma transferSchema_accepts (data : TransferFormData) :
  transferSchema data = [] →
  amount_ok (amount data) = true ∧ accounts_differ data = true.
Proof.
  unfold transferSchema. intros Hnil.
  apply app_eq_nil in Hnil as [_ Hnil].
  apply app_eq_nil in Hnil as [_ Hnil].
  apply app_eq_nil in Hnil as [Hdate Hnil].
  apply app_eq_nil in Hnil as [Hamount Hnil].
  apply app_eq_nil in Hnil as [_ Hdiff].
  apply check_nil in Hamount. apply check_nil in Hdate.
  apply bool_decide_eq_true in Hdate as [d Hd]. rewrite Hd in Hdiff.
  apply check_nil in Hdiff. auto.
Qed.

(** C2.  The transfer form validates only if [Number(amount)] is a number
    greater than zero and the two accounts differ; when the amount is not
    numeric or not greater than zero, or the accounts are the same, the
    submit sends no [createTransfer] request, so whatever the service does
    with requests, its state (entries and balances) stays as it was. *)
Theorem transfer_rejected_before_any_request (data : TransferFormData) :
  (transferSchema data = [] →
     isNaN (Number (amount data)) = false
     ∧ num_gt (Number (amount data)) num_0 = true
     ∧ from_account data ≠ to_account data)
  ∧ (isNaN (Number (amount data)) = true
     ∨ num_gt (Number (amount data)) num_0 = false
     ∨ from_account data = to_account data →
     submit data = []
     ∧ ∀ (S : Type) (handler : Request → S → S) (st : S),
         serve handler (submit data) st = st).
Proof.
  assert (Hok : transferSchema data = [] →
                isNaN (Number (amount data)) = false
                ∧ num_gt (Number (amount data)) num_0 = true
                ∧ from_account data ≠ to_account data).
  { intros Hnil. apply transferSchema_accepts in Hnil as [Ha Hd].
    unfold amount_ok in Ha.
    apply andb_true_iff in Ha as [Hn Hg].
    apply negb_true_iff in Hn.
    unfold accounts_differ in Hd.
    apply negb_true_iff, String.eqb_neq in Hd. auto. }
  split; [exact Hok|].
  intros Hbad.
  assert (Hsub : submit data = []).
  { apply handleSubmit_rejected. intros Hnil.
    destruct (Hok Hnil) as (Hn & Hg & Hd).
    destruct Hbad as [?|[?|?]]; congruence. }
  split; [exact Hsub|].
  intros S handler st. rewrite Hsub. apply serve_nothing.
Qed.
End TransferValidation.

(** ** The account filter state *)

Section FilterInvariant.
Import AccountFilters.

Lemma offered_fits filters : offered filters → subtype_fits_type filters.
Proof.
  destruct filters as [s t st]. unfold offered, subtype_fits_type, subtype_items,
    getAvailableSubtypes. simpl.
  intros [_ Hst]. split; intros ->; simpl in Hst; simpl; tauto.
Qed.

Lemma ui_step_offered f f' : offered f → ui_step f f' → offered f'.
Proof.
  destruct f as [s t st]. unfold offered, subtype_items, getAvailableSubtypes.
  simpl. intros [Ht Hst] Hstep.
  inversion Hstep as [value | value Hv | value Hv | ]; subst; clear Hstep.
  - simpl. auto.
  - simpl in Hv.
    destruct Ht as [<-|[<-|[<-|[]]]]; simpl in Hst;
      destruct Hv as [<-|[<-|[<-|[]]]];
      repeat (destruct Hst as [<-|Hst]; [vm_compute; tauto|]);
      destruct Hst.
  - unfold subtype_items, getAvailableSubtypes in Hv. simpl in Hv. simpl. auto.
  - vm_compute. tauto.
Qed.

Lemma ui_reachable_offered f : ui_reachable f → offered f.
Proof.
  induction 1 as [|f f' _ IH Hstep].
  - vm_compute. tauto.
  - eapply ui_step_offered; eauto.
Qed.

Lemma type_change_resets filters value :
  subtype filters ≠ "all" →
  ¬ In (subtype filters) (map fst (getAvailableSubtypesForType value)) →
  subtype (updateFilter filters key_type value) = "all".
Proof.
  intros Hall Hnot. unfold updateFilter.
  assert (Hcur : String.eqb (subtype filters) "all" = false)
    by (apply String.eqb_neq, Hall).
  assert (Hex : existsb (λ st, String.eqb (fst st) (subtype filters))
                  (getAvailableSubtypesForType value) = false).
  { apply not_true_is_false. intros Hex.
    apply existsb_exists in Hex as (st & Hin & Heq).
    apply String.eqb_eq in Heq. apply Hnot. rewrite <- Heq.
    apply in_map, Hin. }
  rewrite Hcur, Hex. reflexivity.
Qed.

(** C8, as the code has it.  Starting from the state the page begins with,
    every sequence of [updateFilter] calls that the rendered controls can
    issue (any search text; a type among the items of the type select; a
    subtype among the items the subtype select lists for the current type;
    clearing) ends in a state where type ASSET goes with subtype [all],
    CHECKING, SAVINGS or INVESTMENT, and type LIABILITY goes with subtype
    [all], CREDIT or LOAN; and changing the type resets a subtype that the
    new type does not have to [all]. *)
Theorem ui_filter_state_keeps_subtype_in_type (f : AccountFilters) :
  ui_reachable f →
  subtype_fits_type f
  ∧ (∀ value,
       subtype f ≠ "all" →
       ¬ In (subtype f) (map fst (getAvailableSubtypesForType value)) →
       subtype (updateFilter f key_type value) = "all").
Proof.
  intros Hr. split.
  - apply offered_fits, ui_reachable_offered, Hr.
  - intros value. apply type_change_resets.
Qed.

(** C8, as stated, fails: [updateFilter] itself takes any key and any
    value, and only a change of the type resets the subtype.  Setting the
    type to ASSET and then the subtype to CREDIT leaves the pair
    (ASSET, CREDIT). *)
Lemma updateFilter_calls_can_break_subtype_in_type :
  ¬ (∀ calls : list (Key * string), subtype_fits_type (run calls initial)).
Proof.
  intros Hall.
  destruct (Hall [(key_type, "ASSET"); (key_subtype, "CREDIT")]) as [Hasset _].
  specialize (Hasset eq_refl). vm_compute in Hasset.
  repeat (destruct Hasset as [Hasset|Hasset]; [discriminate Hasset|]).
  exact Hasset.
Qed.

Lemma ui_filter_state_keeps_subtype_in_type_witness :
  subtype_fits_type
    (updateFilter
       (updateFilter (updateFilter initial key_subtype "CREDIT") key_type "ASSET")
       key_subtype "SAVINGS").
Proof.
  apply ui_filter_state_keeps_subtype_in_type.
  apply (reach_step
           (updateFilter (updateFilter initial key_subtype "CREDIT")
              key_type "ASSET")).
  - apply (reach_step (updateFilter initial key_subtype "CREDIT")).
    + apply (reach_step initial); [apply reach_initial|].
      apply (step_subtype initial "CREDIT"). vm_compute. tauto.
    + apply (step_type _ "ASSET"). vm_compute. tauto.
  - apply (step_subtype _ "SAVINGS"). vm_compute. tauto.
Defined.
End FilterInvariant.

(** ** Resolution of the current category *)

Section CategoryResolution.
Lemma find_absent (categories : list Category) (id : string) :
  (∀ c, In c categories → cat_id c ≠ id) →
  List.find (λ c, String.eqb (cat_id c) id) categories = None.
Proof.
  induction categories as [|c rest IH]; intros Habsent; simpl; [reflexivity|].
  destruct (String.eqb_spec (cat_id c) id) as [Heq|_].
  - exfalso. apply (Habsent c); simpl; auto.
  - apply IH. intros c' Hin. apply Habsent. simpl. auto.
Qed.

(** C4, as the code has it.  Both resolvers are total: neither can fail.
    For a selected id that is not in the catalog, [getCurrentCategory]
    returns the placeholder named "Unknown Category", which is not marked
    as uncategorized; it returns the uncategorized result for a [null]
    selection only.  [getCurrentCategoryInfo] does not consult the catalog:
    it returns "Uncategorized" exactly when the entry shows no category. *)
Theorem stale_selection_resolves_to_placeholder
    (categories : list Category) (id placeholder : string)
    (entry : LedgerEntry) :
  (∀ c, In c categories → cat_id c ≠ id) →
  BulkCategoryEditor.getCurrentCategory categories (selected_id id) placeholder
    = {| BulkCategoryEditor.name := "Unknown Category";
         BulkCategoryEditor.isUncategorized := false |}
  ∧ (∀ selected,
       BulkCategoryEditor.isUncategorized
         (BulkCategoryEditor.getCurrentCategory categories selected placeholder)
         = true
       ↔ selected = selected_null)
  ∧ BulkCategoryEditor.getCurrentCategory categories selected_null placeholder
    = {| BulkCategoryEditor.name := "Uncategorized";
         BulkCategoryEditor.isUncategorized := true |}
  ∧ (InlineCategoryEditor.isUncategorized
       (InlineCategoryEditor.getCurrentCategoryInfo entry) = true
     ↔ no_category_shown entry)
  ∧ (no_category_shown entry →
     InlineCategoryEditor.getCurrentCategoryInfo entry
       = InlineCategoryEditor.uncategorized_info).
Proof.
  intros Habsent. split; [|split; [|split; [|split]]].
  - unfold BulkCategoryEditor.getCurrentCategory.
    rewrite (find_absent _ _ Habsent). reflexivity.
  - intros [| |id']; simpl; split; intros Heq;
      try reflexivity; try discriminate Heq.
  - reflexivity.
  - unfold InlineCategoryEditor.getCurrentCategoryInfo, no_category_shown,
      InlineCategoryEditor.legacy_info, truthy.
    destruct (le_effective_category entry) as [ec|].
    + destruct (ec_type ec); simpl; split; intros Heq;
        try reflexivity; discriminate Heq.
    + destruct (le_category_name entry) as [n|]; simpl; [|tauto].
      destruct (String.eqb n ""); simpl; split; intros Heq;
        try reflexivity; discriminate Heq.
  - unfold InlineCategoryEditor.getCurrentCategoryInfo, no_category_shown,
      InlineCategoryEditor.legacy_info, truthy.
    destruct (le_effective_category entry) as [ec|].
    + intros ->. reflexivity.
    + destruct (le_category_name entry) as [n|]; [|reflexivity].
      destruct (String.eqb n ""); [reflexivity|]. intros Heq. discriminate Heq.
Qed.

(** C4, as stated, fails: with an empty catalog the selected id ["c1"] is
    stale, and [getCurrentCategory] answers "Unknown Category", not the
    uncategorized result. *)
Lemma stale_selection_is_not_uncategorized :
  ¬ (∀ (categories : list Category) (id placeholder : string),
       (∀ c, In c categories → cat_id c ≠ id) →
       BulkCategoryEditor.getCurrentCategory categories (selected_id id)
         placeholder
       = {| BulkCategoryEditor.name := "Uncategorized";
            BulkCategoryEditor.isUncategorized := true |}).
Proof.
  intros Hall.
  specialize (Hall [] "c1" "Choose category..." (λ c Hin, match Hin with end)).
  discriminate Hall.
Qed.

Lemma stale_selection_resolves_to_placeholder_witness :
  BulkCategoryEditor.getCurrentCategory
    [{| cat_id := "c2"; cat_name := "Rent"; cat_group := None;
        cat_group_name := Some "Housing"; cat_type := Some EXPENSE |}]
    (selected_id "c1") "Choose category..."
  = {| BulkCategoryEditor.name := "Unknown Category";
       BulkCategoryEditor.isUncategorized := false |}.
Proof.
  apply (stale_selection_resolves_to_placeholder
           [{| cat_id := "c2"; cat_name := "Rent"; cat_group := None;
               cat_group_name := Some "Housing"; cat_type := Some EXPENSE |}]
           "c1" "Choose category..."
           {| le_id := "e1"; le_category := Some "c1";
              le_category_name := None; le_category_type := None;
              le_effective_category := None |}).
  intros c [<-|[]]. simpl. discriminate.
Defined.
End CategoryResolution.

(** ** Net worth in the account summary *)

Section NetWorth.
Context `{JSRuntime}.
Import AccountsPage.

Lemma fold_add_map {A} (f : A → number) (l : list A) (start : number) :
  fold_left (λ sum a, num_add sum (f a)) l start
  = fold_left num_add (map f l) start.
Proof. revert start. induction l as [|a l IH]; intros start; simpl; auto. Qed.

Lemma filter_liability_not_asset (acc : Account) :
  acc_type acc = LIABILITY → is_asset acc = false ∧ is_liability acc = true.
Proof.
  intros Ht. unfold is_asset, is_liability. rewrite Ht. split; reflexivity.
Qed.

(** What the claim needs from the arithmetic, stated so that it holds for
    IEEE-754 doubles, [NaN] and the infinities included (a comparison with
    [NaN] is false): adding an absolute value does not take a sum below
    where it was, and rounded addition and subtraction are monotone. *)
Hypothesis add_abs_not_below :
  ∀ x y, num_gt x (num_add x (Math_abs y)) = false.
Hypothesis add_monotone :
  ∀ x y z, num_gt x y = false → num_gt (num_add x z) (num_add y z) = false.
Hypothesis sub_antitone :
  ∀ a x y, num_gt x y = false → num_gt (num_sub a y) (num_sub a x) = false.

Lemma fold_add_monotone (zs : list number) (x y : number) :
  num_gt x y = false →
  num_gt (fold_left num_add zs x) (fold_left num_add zs y) = false.
Proof.
  revert x y. induction zs as [|z zs IH]; intros x y Hxy; simpl; auto.
Qed.

(** C10, as the code has it.  For every list of accounts, [netWorth] is the
    sum of the parsed balances of the ASSET accounts minus the sum of the
    absolute values of the parsed balances of the LIABILITY accounts, where
    the balance of an account is parsed from its [current_balance], or from
    its [cached_actual_balance] when that string is empty, or from "0" when
    both are; and putting one more LIABILITY account anywhere in the list
    never makes [netWorth] greater, whatever the sign of its balance. *)
Theorem net_worth_is_assets_minus_absolute_liabilities
    (accounts : list Account) :
  netWorth (getAccountSummary accounts)
    = num_sub
        (num_sum (map balance (List.filter is_asset accounts)))
        (num_sum (map (λ acc, Math_abs (balance acc))
                    (List.filter is_liability accounts)))
  ∧ (∀ acc,
       balance acc
       = parseFloat
           (if String.eqb (acc_current_balance acc) "" then
              if String.eqb (acc_cached_actual_balance acc) "" then "0"
              else acc_cached_actual_balance acc
            else acc_current_balance acc))
  ∧ (∀ before after acc,
       accounts = before ++ after →
       acc_type acc = LIABILITY →
       num_gt (netWorth (getAccountSummary (before ++ acc :: after)))
              (netWorth (getAccountSummary accounts)) = false).
Proof.
  split; [|split].
  - unfold getAccountSummary, num_sum. simpl.
    rewrite (fold_add_map balance).
    rewrite (fold_add_map (λ acc, Math_abs (balance acc))). reflexivity.
  - intros acc. unfold balance, str_or.
    destruct (String.eqb (acc_current_balance acc) "") eqn:Hcur.
    + reflexivity.
    + rewrite Hcur. reflexivity.
  - intros before after acc -> Hliab.
    destruct (filter_liability_not_asset acc Hliab) as [Hna Hl].
    unfold getAccountSummary. simpl.
    rewrite !List.filter_app. simpl. rewrite Hna, Hl.
    rewrite !fold_left_app. simpl.
    apply sub_antitone.
    rewrite !(fold_add_map (λ acc, Math_abs (balance acc))).
    apply fold_add_monotone.
    apply add_abs_not_below.
Qed.
End NetWorth.

(** ** The decimal runtime satisfies what the theorems ask of the arithmetic *)

Section DecimalLaws.
Lemma decimal_mul_one (x : Decimal.number) :
  Decimal.lift2 Qmult (Some 1%Q) x = x.
Proof. destruct x as [[n d]|]; [|reflexivity]. destruct n; reflexivity. Qed.

Lemma decimal_mul_minus_one (x : Decimal.number) :
  Decimal.lift2 Qmult (Qopp <$> Some 1%Q) x = Qopp <$> x.
Proof. destruct x as [[n d]|]; [|reflexivity]. destruct n; reflexivity. Qed.

Lemma decimal_gt_false (a b : Q) :
  Decimal.gt (Some a) (Some b) = false ↔ (a <= b)%Q.
Proof.
  unfold Decimal.gt. rewrite negb_false_iff. apply Qle_bool_iff.
Qed.

Lemma decimal_add_abs_not_below (x y : Decimal.number) :
  Decimal.gt x (Decimal.lift2 Qplus x (Qabs <$> y)) = false.
Proof.
  destruct x as [a|], y as [b|]; try reflexivity.
  cbn [Decimal.lift2 fmap option_fmap option_map]. apply decimal_gt_false.
  pose proof (Qabs_nonneg b). lra.
Qed.

Lemma decimal_add_monotone (x y z : Decimal.number) :
  Decimal.gt x y = false →
  Decimal.gt (Decimal.lift2 Qplus x z) (Decimal.lift2 Qplus y z) = false.
Proof.
  destruct x as [a|], y as [b|], z as [c|]; try reflexivity.
  cbn [Decimal.lift2]. rewrite !decimal_gt_false. lra.
Qed.

Lemma decimal_sub_antitone (a x y : Decimal.number) :
  Decimal.gt x y = false →
  Decimal.gt (Decimal.lift2 Qminus a y) (Decimal.lift2 Qminus a x) = false.
Proof.
  destruct a as [c|], x as [p|], y as [q|]; try reflexivity.
  cbn [Decimal.lift2]. rewrite !decimal_gt_false. lra.
Qed.
End DecimalLaws.

(** ** The theorems at concrete inputs *)

Section Scenarios.

Lemma signed_amount_is_direction_sign_times_magnitude_witness :
  AddTransactionDialog.signedRaw [checking; card]
    (entry_form "a2" "-50,25" in_)
  = Some 50.25%Q
  ∧ AddTransactionDialog.signedRaw [checking; card]
      (entry_form "a1" "-50,25" out)
    = Some (-50.25)%Q.
Proof.
  destruct (@signed_amount_is_direction_sign_times_magnitude
              Decimal.runtime decimal_mul_one decimal_mul_minus_one
              [checking; card] (entry_form "a2" "-50,25" in_))
    as (_ & _ & Hin & _).
  destruct (@signed_amount_is_direction_sign_times_magnitude
              Decimal.runtime decimal_mul_one decimal_mul_minus_one
              [checking; card] (entry_form "a1" "-50,25" out))
    as (_ & Hout & _).
  split.
  - rewrite Hin; reflexivity.
  - rewrite Hout; reflexivity.
Defined.

(** A sign typed into the amount does not reach the request: "-50.25"
    coming in to a LIABILITY account is submitted as "50.25", and going out
    of an ASSET account as "-50.25". *)
Example typed_sign_is_dropped :
  AddTransactionDialog.submit [checking; card] (entry_form "a2" "-50.25" in_)
  = [CreateTransaction
       {| tp_account := "a2"; tp_effective_date := "2025-03-01";
          tp_description := "Groceries"; tp_raw_amount := "50.25";
          tp_category := Some "c1" |}]
  ∧ AddTransactionDialog.submit [checking; card] (entry_form "a1" "-50.25" out)
    = [CreateTransaction
         {| tp_account := "a1"; tp_effective_date := "2025-03-01";
            tp_description := "Groceries"; tp_raw_amount := "-50.25";
            tp_category := Some "c1" |}].
Proof. split; vm_compute; reflexivity. Qed.

(** The round trip of the specification: "50.00" going out of an ASSET
    account is submitted as "-50.00", and "50.00" coming in to a LIABILITY
    account as "50.00". *)
Example round_trip_out_of_asset :
  AddTransactionDialog.submit [checking; card] (entry_form "a1" "50.00" out)
  = [CreateTransaction
       {| tp_account := "a1"; tp_effective_date := "2025-03-01";
          tp_description := "Groceries"; tp_raw_amount := "-50.00";
          tp_category := Some "c1" |}].
Proof. vm_compute. reflexivity. Qed.

Example round_trip_in_to_liability :
  AddTransactionDialog.submit [checking; card] (entry_form "a2" "50.00" in_)
  = [CreateTransaction
       {| tp_account := "a2"; tp_effective_date := "2025-03-01";
          tp_description := "Groceries"; tp_raw_amount := "50.00";
          tp_category := Some "c1" |}].
Proof. vm_compute. reflexivity. Qed.

(** An amount below half a cent passes the check, being other than zero,
    and is submitted rounded to two digits. *)
Example small_amount_is_submitted_rounded :
  AddTransactionDialog.raw_amount_ok (H := Decimal.runtime) "0.001" = true
  ∧ AddTransactionDialog.submit [checking; card] (entry_form "a1" "0.001" out)
    = [CreateTransaction
         {| tp_account := "a1"; tp_effective_date := "2025-03-01";
            tp_description := "Groceries"; tp_raw_amount := "-0.00";
            tp_category := Some "c1" |}].
Proof. split; vm_compute; reflexivity. Qed.

Lemma amount_read_as_zero_is_sent_witness :
  AddTransactionDialog.transactionSchema (entry_form "a1" "0.001" out) = []
  ∧ ∃ zero,
      (zero = "0.00" ∨ zero = "-0.00")
      ∧ AddTransactionDialog.submit [checking; card]
          (entry_form "a1" "0.001" out)
        = [CreateTransaction
             {| tp_account := "a1"; tp_effective_date := "2025-03-01";
                tp_description := "Groceries"; tp_raw_amount := zero;
                tp_category := Some "c1" |}].
Proof.
  apply (@amount_read_as_zero_is_sent Decimal.runtime [checking; card]
           "2025-03-01T00:00:00.000Z" "0.001" out);
    [reflexivity|reflexivity|right; reflexivity].
Defined.

Example zero_amount_sends_nothing :
  AddTransactionDialog.submit [checking; card] (entry_form "a1" "0.00" out) = []
  ∧ AddTransactionDialog.submit [checking; card] (entry_form "a1" "abc" out) = [].
Proof. split; vm_compute; reflexivity. Qed.

Lemma net_worth_is_assets_minus_absolute_liabilities_witness :
  Decimal.gt
    (AccountsPage.netWorth (AccountsPage.getAccountSummary [checking; card; loan]))
    (AccountsPage.netWorth (AccountsPage.getAccountSummary [checking; loan]))
  = false.
Proof.
  destruct (@net_worth_is_assets_minus_absolute_liabilities
              Decimal.runtime decimal_add_abs_not_below decimal_add_monotone
              decimal_sub_antitone [checking; loan])
    as (_ & _ & Hins).
  apply (Hins [checking] [loan] card); reflexivity.
Defined.

(** C10, as stated, fails: the summary does not always parse
    [current_balance].  For the loan account alone, whose [current_balance]
    is empty and whose cached balance is "5000", parsing [current_balance]
    gives [NaN] and so would the formula of the claim, while [netWorth]
    is [-5000]. *)
Lemma net_worth_reads_the_cached_balance :
  ¬ (∀ (runtime : JSRuntime) (accounts : list Account),
       AccountsPage.netWorth (AccountsPage.getAccountSummary accounts)
       = num_sub
           (AccountsPage.num_sum
              (map (λ acc, parseFloat (acc_current_balance acc))
                 (List.filter AccountsPage.is_asset accounts)))
           (AccountsPage.num_sum
              (map (λ acc, Math_abs (parseFloat (acc_current_balance acc)))
                 (List.filter AccountsPage.is_liability accounts)))).
Proof.
  intros Hall. specialize (Hall Decimal.runtime [loan]).
  vm_compute in Hall. discriminate Hall.
Qed.

Example net_worth_of_three_accounts :
  Qeq_bool
    (default 0%Q
       (AccountsPage.netWorth
          (AccountsPage.getAccountSummary [checking; card; loan])))
    (1200.50 - 300.25 - 5000)%Q
  = true.
Proof. vm_compute. reflexivity. Qed.
End Scenarios.

(** ** Balance refresh *)

Section BalanceRefresh.
Import LedgerService.

(** C9.  For every account of the ledger, [recomputeBalance] succeeds, and
    a second call with no entry written in between reports the balance it
    just stored as both previous and current: [was_updated] is false, the
    difference is zero, and the ledger (entries and stored balances) is left
    as the first call left it.  The client's [refreshAccountBalance] hands
    that response back unchanged. *)
Theorem recomputeBalance_twice_reports_no_change
    (accountId : string) (l : Ledger) :
  is_Some (balances l !! accountId) →
  ∃ first l1,
    recomputeBalance accountId l = Some (first, l1)
    ∧ recomputeBalance accountId l1
      = Some ({| previous_balance := current_balance first;
                 current_balance := current_balance first;
                 difference := 0;
                 was_updated := false |}, l1)
    ∧ refreshAccountBalance (refresh_endpoint l1) accountId
      = resolved {| previous_balance := current_balance first;
                    current_balance := current_balance first;
                    difference := 0;
                    was_updated := false |}.
Proof.
  intros [previous Hprev]. unfold recomputeBalance at 1. rewrite Hprev.
  do 2 eexists. split; [reflexivity|].
  assert (Hsecond :
    recomputeBalance accountId
      {| entries := entries l;
         balances := <[accountId := entry_total accountId (entries l)]> (balances l) |}
    = Some ({| previous_balance := entry_total accountId (entries l);
               current_balance := entry_total accountId (entries l);
               difference := 0;
               was_updated := false |},
            {| entries := entries l;
               balances := <[accountId := entry_total accountId (entries l)]> (balances l) |})).
  { unfold recomputeBalance. simpl. rewrite lookup_insert_eq.
    rewrite insert_insert_eq, Z.sub_diag, Z.eqb_refl. reflexivity. }
  split; [exact Hsecond|].
  unfold refreshAccountBalance, refresh_endpoint. rewrite Hsecond. reflexivity.
Qed.
End BalanceRefresh.

(** ** Bulk reconciliation *)

Section BulkReconcile.
Import LedgerService.

Lemma included_iff (es : gmap string Entry) (entryIds : list string) c :
  c ∈ included es entryIds
  ↔ (c ∉ entryIds) ∧ (∃ id, id ∈ entryIds ∧ counterpart_of es id = Some c).
Proof.
  unfold included. rewrite elem_of_remove_dups, list_elem_of_In, filter_In.
  rewrite <- list_elem_of_In, list_elem_of_omap, negb_true_iff,
    bool_decide_eq_false. tauto.
Qed.

Lemma counterpart_exists (es : gmap string Entry) id c :
  counterpart_of es id = Some c → is_Some (es !! c).
Proof.
  unfold counterpart_of. destruct (es !! id) as [e|]; simpl; [|discriminate].
  destruct (transfer_link e) as [link|]; simpl; [|discriminate].
  case_bool_decide; [|discriminate]. intros [= <-]. assumption.
Qed.

Lemma targets_iff (es : gmap string Entry) (entryIds : list string) id :
  id ∈ targets es entryIds
  ↔ (id ∈ entryIds ∧ is_Some (es !! id)) ∨ id ∈ included es entryIds.
Proof.
  unfold targets. rewrite elem_of_app, list_elem_of_In, filter_In.
  rewrite <- list_elem_of_In, elem_of_remove_dups, bool_decide_eq_true.
  tauto.
Qed.

Lemma targets_exist (es : gmap string Entry) (entryIds : list string) id :
  id ∈ targets es entryIds → is_Some (es !! id).
Proof.
  rewrite targets_iff, included_iff.
  intros [[_ Hsome]|[_ (id' & _ & Hc)]]; [exact Hsome|].
  eapply counterpart_exists, Hc.
Qed.

Lemma reconciled_lookup entryIds action l id :
  entries (snd (bulkReconcile entryIds action l)) !! id
  = (λ e, if bool_decide (id ∈ targets (entries l) entryIds)
             && negb (bool_decide (reconciliation_status e = matched))
          then with_status (status_for action) e else e)
      <$> entries l !! id.
Proof.
  unfold bulkReconcile. simpl. rewrite map_lookup_imap.
  destruct (entries l !! id); reflexivity.
Qed.

Lemma counterpart_of_iff (es : gmap string Entry) id c :
  counterpart_of es id = Some c
  ↔ ∃ e link, es !! id = Some e ∧ transfer_link e = Some link
              ∧ counterpart link = c ∧ is_Some (es !! c).
Proof.
  unfold counterpart_of. split.
  - destruct (es !! id) as [e|]; simpl; [|discriminate].
    destruct (transfer_link e) as [link|] eqn:Hlink; simpl; [|discriminate].
    case_bool_decide; [|discriminate]. intros [= <-].
    exists e, link. auto.
  - intros (e & link & -> & Hlink & <- & Hsome). simpl. rewrite Hlink. simpl.
    rewrite bool_decide_eq_true_2 by exact Hsome. reflexivity.
Qed.

Lemma included_NoDup (es : gmap string Entry) (entryIds : list string) :
  NoDup (included es entryIds).
Proof. unfold included. apply NoDup_remove_dups. Qed.

Lemma filter_NoDup {A} (p : A → bool) (l : list A) :
  NoDup l → NoDup (List.filter p l).
Proof.
  induction 1 as [|x l Hx _ IH]; simpl; [constructor|].
  destruct (p x); [|exact IH]. constructor; [|exact IH].
  rewrite list_elem_of_In, filter_In, <- list_elem_of_In. tauto.
Qed.

Lemma targets_NoDup (es : gmap string Entry) (entryIds : list string) :
  NoDup (targets es entryIds).
Proof.
  unfold targets. apply NoDup_app. split; [|split].
  - apply filter_NoDup, NoDup_remove_dups.
  - intros id Hin Hincl.
    rewrite list_elem_of_In, filter_In, <- list_elem_of_In,
      elem_of_remove_dups in Hin.
    apply included_iff in Hincl as [Hnot _]. tauto.
  - apply included_NoDup.
Qed.

Lemma skip_iff (es : gmap string Entry) id s :
  skip es id = Some s
  ↔ ∃ e, es !! id = Some e ∧ reconciliation_status e = matched
         ∧ s = {| skipped_id := id; reason := "already_matched";
                  skipped_description := description e |}.
Proof.
  unfold skip. split.
  - destruct (es !! id) as [e|]; simpl; [|discriminate].
    case_bool_decide; [|discriminate]. intros [= <-]. eauto.
  - intros (e & -> & Hm & ->). simpl.
    rewrite bool_decide_eq_true_2 by exact Hm. reflexivity.
Qed.

Lemma skipped_ids (es : gmap string Entry) (ids : list string) :
  map skipped_id (omap (skip es) ids) = List.filter (is_matched es) ids.
Proof.
  induction ids as [|id ids IH]; [reflexivity|].
  change (omap (skip es) (id :: ids))
    with (match skip es id with
          | Some s => s :: omap (skip es) ids
          | None => omap (skip es) ids
          end).
  change (List.filter (is_matched es) (id :: ids))
    with (if is_matched es id then id :: List.filter (is_matched es) ids
          else List.filter (is_matched es) ids).
  unfold skip at 1, is_matched at 1.
  destruct (es !! id) as [e|]; simpl; [|exact IH].
  case_bool_decide; simpl; rewrite IH; reflexivity.
Qed.

(** C3.  For every id list, action and ledger, [bulkReconcile] returns a
    response (it cannot fail).  An entry is aimed at when its id was
    requested or is listed in [transfer_entries_included]; that list holds,
    once each, exactly the entries that were not requested and are the
    stored other side of the transfer of a requested entry.  Every entry
    aimed at that is not matched gets the status of the action
    ([manually_cleared] for [mark_cleared], [unmatched] for
    [mark_uncleared]) and keeps its other fields, so both sides of a
    transfer get it when one was requested.  Every matched entry stays as
    it was, and [skipped_entries] holds, once each, exactly the matched
    entries aimed at, with reason "already_matched" and their description.
    The response carries [total_requested], [action_performed],
    [skipped_count] (the length of [skipped_entries]) and [updated_count]
    (the number of entries aimed at that are stored and not matched).
    Entries not aimed at, and all balances, are unchanged, and the client's
    [bulkReconcileTransactions] hands the response back as it is. *)
Theorem bulkReconcile_skips_matched_and_completes_pairs
    (entryIds : list string) (action : Action) (l : Ledger) :
  let response := fst (bulkReconcile entryIds action l) in
  let after := snd (bulkReconcile entryIds action l) in
  let aimed_at id :=
    id ∈ entryIds ∨ id ∈ transfer_entries_included response in
  (∀ c,
     c ∈ transfer_entries_included response
     ↔ (c ∉ entryIds)
       ∧ ∃ id e link,
           id ∈ entryIds ∧ entries l !! id = Some e
           ∧ transfer_link e = Some link ∧ counterpart link = c
           ∧ is_Some (entries l !! c))
  ∧ NoDup (transfer_entries_included response)
  ∧ (∀ id e,
       aimed_at id → entries l !! id = Some e →
       reconciliation_status e ≠ matched →
       entries after !! id
       = Some
           {| account := account e;
              description := description e;
              signed_amount := signed_amount e;
              reconciliation_status :=
                match action with
                | mark_cleared => manually_cleared
                | mark_uncleared => unmatched
                end;
              transfer_link := transfer_link e |})
  ∧ (∀ id e,
       entries l !! id = Some e → reconciliation_status e = matched →
       entries after !! id = Some e)
  ∧ (∀ s,
       s ∈ skipped_entries response
       ↔ ∃ e,
           aimed_at (skipped_id s)
           ∧ entries l !! skipped_id s = Some e
           ∧ reconciliation_status e = matched
           ∧ reason s = "already_matched"
           ∧ skipped_description s = description e)
  ∧ NoDup (map skipped_id (skipped_entries response))
  ∧ (total_requested response = length entryIds
     ∧ action_performed response = action
     ∧ skipped_count response = length (skipped_entries response)
     ∧ ∃ updated,
         NoDup updated
         ∧ (∀ id,
              id ∈ updated
              ↔ aimed_at id
                ∧ ∃ e, entries l !! id = Some e
                       ∧ reconciliation_status e ≠ matched)
         ∧ updated_count response = length updated)
  ∧ (∀ id, ¬ aimed_at id → entries after !! id = entries l !! id)
  ∧ balances after = balances l
  ∧ bulkReconcileTransactions (reconcile_endpoint l) entryIds action
    = resolved response.
Proof.
  intros response after aimed_at. subst response after aimed_at.
  change (transfer_entries_included (fst (bulkReconcile entryIds action l)))
    with (included (entries l) entryIds).
  assert (Haimed : ∀ id,
            id ∈ targets (entries l) entryIds
            ↔ (id ∈ entryIds ∨ id ∈ included (entries l) entryIds)
              ∧ is_Some (entries l !! id)).
  { intros id. rewrite targets_iff. split.
    - intros [[Hin Hsome]|Hincl]; [auto|].
      split; [auto|]. apply targets_exist with (entryIds := entryIds).
      apply targets_iff. auto.
    - intros [[Hin|Hincl] Hsome]; auto. }
  split; [|split; [|split; [|split; [|split; [|split; [|split; [|split;
    [|split]]]]]]]].
  - intros c. rewrite included_iff. split.
    + intros [Hnot (id & Hin & Hc)]. split; [exact Hnot|].
      apply counterpart_of_iff in Hc as (e & link & He & Hlink & Hcp & Hsome).
      exists id, e, link. auto.
    + intros [Hnot (id & e & link & Hin & He & Hlink & Hcp & Hsome)].
      split; [exact Hnot|]. exists id. split; [exact Hin|].
      apply counterpart_of_iff. eauto 6.
  - apply included_NoDup.
  - intros id e Hin He Hne. rewrite reconciled_lookup, He. simpl.
    rewrite bool_decide_eq_true_2.
    + rewrite (bool_decide_eq_false_2 _ Hne). destruct action; reflexivity.
    + apply Haimed. split; [exact Hin|]. rewrite He. eauto.
  - intros id e He Hm. rewrite reconciled_lookup, He. simpl.
    rewrite (bool_decide_eq_true_2 _ Hm), andb_false_r. reflexivity.
  - intros s. unfold bulkReconcile. cbn [fst skipped_entries].
    rewrite list_elem_of_omap. split.
    + intros (id & Hin & Hskip).
      apply skip_iff in Hskip as (e & He & Hm & ->). cbn [skipped_id].
      apply Haimed in Hin as [Hin _]. exists e. auto.
    + intros (e & Hin & He & Hm & Hreason & Hdesc).
      exists (skipped_id s). split.
      * apply Haimed. split; [exact Hin|]. rewrite He. eauto.
      * apply skip_iff. exists e. split; [exact He|]. split; [exact Hm|].
        destruct s as [sid sreason sdesc]. simpl in *. congruence.
  - unfold bulkReconcile. cbn [fst skipped_entries].
    rewrite skipped_ids. apply filter_NoDup, targets_NoDup.
  - unfold bulkReconcile. cbn [fst total_requested action_performed
      skipped_count skipped_entries updated_count].
    split; [reflexivity|]. split; [reflexivity|]. split; [reflexivity|].
    exists (List.filter (λ id, negb (is_matched (entries l) id))
              (targets (entries l) entryIds)).
    split; [apply filter_NoDup, targets_NoDup|]. split; [|reflexivity].
    intros id. rewrite list_elem_of_In, filter_In, <- list_elem_of_In, Haimed.
    unfold is_matched. split.
    + intros [[Hin [e He]] Hm]. split; [exact Hin|]. exists e.
      split; [exact He|]. rewrite He in Hm.
      apply negb_true_iff, bool_decide_eq_false in Hm. exact Hm.
    + intros [Hin (e & He & Hne)]. rewrite He.
      split; [split; [exact Hin|eauto]|].
      apply negb_true_iff, bool_decide_eq_false_2, Hne.
  - intros id Hnot. rewrite reconciled_lookup.
    rewrite bool_decide_eq_false_2.
    + simpl. destruct (entries l !! id); reflexivity.
    + intros Hin. apply Haimed in Hin as [Hin _]. contradiction.
  - reflexivity.
  - reflexivity.
Qed.
End BulkReconcile.

(** ** The ledger scenarios of the specification *)

Section LedgerScenarios.
Import LedgerService.

(** [bulkReconcile(["e1"], "mark_cleared")]: the counterpart [e2] is
    included, and both sides end up manually cleared. *)
Example reconcile_one_side_of_a_transfer :
  let result := bulkReconcile ["e1"] mark_cleared ledger in
  transfer_entries_included (fst result) = ["e2"]
  ∧ updated_count (fst result) = 2%nat
  ∧ reconciliation_status <$> entries (snd result) !! "e1" = Some manually_cleared
  ∧ reconciliation_status <$> entries (snd result) !! "e2" = Some manually_cleared
  ∧ entries (snd result) !! "e3" = Some statement_line.
Proof. vm_compute. repeat split; reflexivity. Qed.

(** [bulkReconcile(["e3"], "mark_uncleared")] on a matched entry: nothing
    is updated and the entry is reported as skipped. *)
Example reconcile_a_matched_entry :
  fst (bulkReconcile ["e3"] mark_uncleared ledger)
  = {| updated_count := 0; skipped_count := 1; total_requested := 1;
       transfer_entries_included := [];
       skipped_entries :=
         [{| skipped_id := "e3"; reason := "already_matched";
             skipped_description := "Salary" |}];
       action_performed := mark_uncleared |}
  ∧ entries (snd (bulkReconcile ["e3"] mark_uncleared ledger)) !! "e3"
    = Some statement_line.
Proof. vm_compute. split; reflexivity. Qed.

(** The stored balance of account A has drifted from its entries: the
    first refresh corrects it, the second finds nothing to change. *)
Example refresh_corrects_drift_once :
  fst <$> recomputeBalance "A" ledger
  = Some {| previous_balance := 0; current_balance := 249000;
            difference := 249000; was_updated := true |}
  ∧ (fst <$> (recomputeBalance "A" ledger ≫= λ r, recomputeBalance "A" (snd r)))
    = Some {| previous_balance := 249000; current_balance := 249000;
              difference := 0; was_updated := false |}.
Proof. vm_compute. split; reflexivity. Qed.

Lemma recomputeBalance_twice_reports_no_change_witness :
  ∃ first l1,
    recomputeBalance "A" ledger = Some (first, l1)
    ∧ recomputeBalance "A" l1
      = Some ({| previous_balance := current_balance first;
                 current_balance := current_balance first;
                 difference := 0;
                 was_updated := false |}, l1)
    ∧ refreshAccountBalance (refresh_endpoint l1) "A"
      = resolved {| previous_balance := current_balance first;
                    current_balance := current_balance first;
                    difference := 0;
                    was_updated := false |}.
Proof.
  apply (recomputeBalance_twice_reports_no_change "A" ledger).
  exists 0. reflexivity.
Defined.
End LedgerScenarios.

(** ** Sorting with a consistent comparator *)

Section Sorting.
Context {A : Type} (compare : A → A → Z).

Lemma js_sort_insert_perm (x : A) (l : list A) :
  js_sort_insert compare x l ≡ₚ x :: l.
Proof.
  induction l as [|y l IH]; simpl; [reflexivity|].
  destruct (compare x y <=? 0)%Z; [reflexivity|].
  rewrite IH. apply Permutation_swap.
Qed.

Lemma js_sort_perm (l : list A) : js_sort compare l ≡ₚ l.
Proof.
  induction l as [|x l IH]; simpl; [reflexivity|].
  rewrite js_sort_insert_perm, IH. reflexivity.
Qed.

Hypothesis compare_total : ∀ a b, (compare a b ≤ 0 ∨ compare b a ≤ 0)%Z.
Hypothesis compare_trans :
  ∀ a b c, (compare a b ≤ 0 → compare b c ≤ 0 → compare a c ≤ 0)%Z.

Lemma js_sort_insert_sorted (x : A) (l : list A) :
  StronglySorted (cmp_le compare) l →
  StronglySorted (cmp_le compare) (js_sort_insert compare x l).
Proof.
  induction l as [|y l IH]; intros Hs; simpl.
  - repeat constructor.
  - apply StronglySorted_cons in Hs as [Hy Hl].
    destruct (Z.leb_spec (compare x y) 0) as [Hle|Hgt].
    + apply StronglySorted_cons. split.
      * constructor; [exact Hle|].
        eapply Forall_impl; [exact Hy|]. intros z Hz.
        unfold cmp_le in *. eauto.
      * apply StronglySorted_cons. auto.
    + apply StronglySorted_cons. split; [|auto].
      rewrite js_sort_insert_perm. constructor; [|exact Hy].
      unfold cmp_le. destruct (compare_total x y); lia.
Qed.

Lemma js_sort_sorted (l : list A) :
  StronglySorted (cmp_le compare) (js_sort compare l).
Proof.
  induction l as [|x l IH]; simpl; [constructor|].
  apply js_sort_insert_sorted, IH.
Qed.
End Sorting.

(** ** Object tables *)

Section Objects.
Context {V : Type}.
Implicit Types (o : Obj V) (k : string) (v : V).

Lemma obj_own_set o k v k' :
  obj_own (obj_set o k v) k' = if String.eqb k k' then Some v else obj_own o k'.
Proof.
  induction o as [|[k0 w] o IH]; simpl.
  - destruct (String.eqb k k'); reflexivity.
  - destruct (String.eqb_spec k0 k) as [->|Hne]; simpl.
    + destruct (String.eqb k k'); reflexivity.
    + rewrite IH. destruct (String.eqb_spec k0 k') as [->|Hne'];
        [|reflexivity].
      destruct (String.eqb_spec k k') as [->|_]; congruence.
Qed.

Lemma obj_own_elem_of o k v : obj_own o k = Some v → (k, v) ∈ o.
Proof.
  induction o as [|[k0 w] o IH]; simpl; [discriminate|].
  destruct (String.eqb_spec k0 k) as [->|Hne].
  - intros [= ->]. left.
  - intros Hown. right. auto.
Qed.

Lemma obj_own_None o k : obj_own o k = None → k ∉ map fst o.
Proof.
  induction o as [|[k0 w] o IH]; simpl; [intros _; apply not_elem_of_nil|].
  destruct (String.eqb_spec k0 k) as [->|Hne]; [discriminate|].
  intros Hown. apply not_elem_of_cons. auto.
Qed.

Lemma elem_of_obj_own o k v :
  NoDup (map fst o) → (k, v) ∈ o → obj_own o k = Some v.
Proof.
  induction o as [|[k0 w] o IH]; simpl; intros Hnd Hin.
  - apply elem_of_nil in Hin as [].
  - apply NoDup_cons in Hnd as [Hk0 Hnd].
    apply elem_of_cons in Hin as [[= -> ->]|Hin].
    + rewrite String.eqb_refl. reflexivity.
    + destruct (String.eqb_spec k0 k) as [->|Hne]; [|auto].
      exfalso. apply Hk0. apply list_elem_of_fmap. exists (k, v). auto.
Qed.

Lemma obj_set_keys o k v :
  map fst (obj_set o k v)
  = if bool_decide (k ∈ map fst o) then map fst o else map fst o ++ [k].
Proof.
  induction o as [|[k0 w] o IH]; simpl; [reflexivity|].
  destruct (String.eqb_spec k0 k) as [->|Hne]; simpl.
  - rewrite bool_decide_eq_true_2 by left. reflexivity.
  - rewrite IH. destruct (decide (k ∈ map fst o)) as [Hin|Hnin].
    + rewrite !bool_decide_eq_true_2; [reflexivity| |exact Hin]. right. exact Hin.
    + rewrite !bool_decide_eq_false_2; [reflexivity| |exact Hnin].
      intros [Heq|Hin]%elem_of_cons; congruence.
Qed.

Lemma obj_set_NoDup o k v : NoDup (map fst o) → NoDup (map fst (obj_set o k v)).
Proof.
  intros Hnd. rewrite obj_set_keys. case_bool_decide; [exact Hnd|].
  apply NoDup_app. split; [exact Hnd|]. split.
  - intros x Hx [->|[]%elem_of_nil]%elem_of_cons. contradiction.
  - apply NoDup_singleton.
Qed.

Lemma filter_partition_perm (p : string * V → bool) o :
  List.filter p o ++ List.filter (λ kv, negb (p kv)) o ≡ₚ o.
Proof.
  induction o as [|kv o IH]; simpl; [reflexivity|].
  destruct (p kv); simpl.
  - rewrite IH. reflexivity.
  - rewrite <- Permutation_middle, IH. reflexivity.
Qed.

Lemma Object_entries_perm o : Object_entries o ≡ₚ o.
Proof.
  unfold Object_entries. rewrite merge_sort_Permutation.
  apply filter_partition_perm.
Qed.
End Objects.

(** ** The table of groups *)

Section GroupingTable.
Context `{JSRuntime}.
Variable groupNameOf : Category → string.

Lemma groups_of_with_groups t ty o ty' :
  groups_of (with_groups t ty o) ty'
  = if decide (ty = ty') then o else groups_of t ty'.
Proof. destruct ty, ty'; reflexivity. Qed.

Lemma table_holds_init : table_holds groupNameOf categoryTypes_init [].
Proof.
  intros ty. destruct ty; simpl; (split; [constructor|]);
    (split; [intros g Hg; apply elem_of_nil in Hg as []|reflexivity]).
Qed.

Lemma members_snoc ty g cs c :
  members groupNameOf ty g (cs ++ [c])
  = members groupNameOf ty g cs ++ (if in_group groupNameOf ty g c then [c] else []).
Proof. unfold members. rewrite List.filter_app. reflexivity. Qed.

Lemma add_category_cases t c :
  let o := groups_of t (type_of c) in
  add_category groupNameOf t c
  = match obj_own o (groupNameOf c) with
    | Some cats =>
        Return (with_groups t (type_of c)
                  (obj_set o (groupNameOf c) (cats ++ [grouped_entry groupNameOf c])))
    | None =>
        if inherited (groupNameOf c) then TypeError
        else Return (with_groups t (type_of c)
                       (obj_set o (groupNameOf c) [grouped_entry groupNameOf c]))
    end.
Proof.
  unfold add_category, obj_get, type_of, grouped_entry. simpl.
  destruct (obj_own _ _); [reflexivity|].
  destruct (inherited _); reflexivity.
Qed.

Lemma add_category_holds t cs c :
  table_holds groupNameOf t cs →
  match add_category groupNameOf t c with
  | Return t' => table_holds groupNameOf t' (cs ++ [c]) ∧ inherited (groupNameOf c) = false
  | TypeError => inherited (groupNameOf c) = true
  end.
Proof.
  intros Hinv. rewrite add_category_cases. cbv zeta.
  destruct (Hinv (type_of c)) as (Hnd & Hkeys & Hown).
  set (o := groups_of t (type_of c)) in *.
  set (g := groupNameOf c) in *.
  assert (Hmem : in_group groupNameOf (type_of c) g c = true).
  { unfold in_group. rewrite bool_decide_eq_true_2 by reflexivity.
    apply String.eqb_refl. }
  assert (Hstep : ∀ v,
    (inherited g = false) →
    v = map (grouped_entry groupNameOf) (members groupNameOf (type_of c) g cs ++ [c]) →
    table_holds groupNameOf (with_groups t (type_of c) (obj_set o g v)) (cs ++ [c])).
  { intros v Hg Hv ty. rewrite groups_of_with_groups.
    destruct (decide (type_of c = ty)) as [<-|Hty].
    - split; [apply obj_set_NoDup, Hnd|]. split.
      + intros g' Hg'. rewrite obj_set_keys in Hg'.
        case_bool_decide; [auto|].
        apply elem_of_app in Hg' as [Hg'|Hg']; [auto|].
        apply list_elem_of_singleton in Hg' as ->. exact Hg.
      + intros g'. rewrite obj_own_set, members_snoc.
        destruct (String.eqb_spec g g') as [<-|Hne].
        * rewrite Hmem, Hv.
          destruct (members groupNameOf (type_of c) g cs); reflexivity.
        * assert (Hout : in_group groupNameOf (type_of c) g' c = false).
          { unfold in_group. apply andb_false_iff. right.
            apply String.eqb_neq. exact Hne. }
          rewrite Hout, app_nil_r. apply Hown.
    - destruct (Hinv ty) as (Hnd' & Hkeys' & Hown').
      split; [exact Hnd'|]. split; [exact Hkeys'|].
      intros g'. rewrite members_snoc.
      assert (Hout : in_group groupNameOf ty g' c = false).
      { unfold in_group. apply andb_false_iff. left.
        apply bool_decide_eq_false_2. exact Hty. }
      rewrite Hout, app_nil_r. apply Hown'. }
  destruct (obj_own o g) as [cats|] eqn:Hlook.
  - assert (Hg : inherited g = false).
    { apply Hkeys. apply obj_own_elem_of in Hlook.
      apply list_elem_of_fmap. exists (g, cats). auto. }
    split; [|exact Hg]. apply Hstep; [exact Hg|].
    rewrite Hown in Hlook. destruct (members groupNameOf (type_of c) g cs) eqn:Hm;
      [discriminate|].
    injection Hlook as <-. rewrite map_app. reflexivity.
  - destruct (inherited g) eqn:Hg; [reflexivity|].
    split; [|reflexivity]. apply Hstep; [reflexivity|].
    rewrite Hown in Hlook. destruct (members groupNameOf (type_of c) g cs) eqn:Hm;
      [reflexivity|discriminate].
Qed.

Lemma forEach_add_category_holds rest t pre :
  table_holds groupNameOf t pre →
  match forEach (add_category groupNameOf) rest t with
  | Return t' =>
      table_holds groupNameOf t' (pre ++ rest)
      ∧ Forall (λ c, inherited (groupNameOf c) = false) rest
  | TypeError => Exists (λ c, inherited (groupNameOf c) = true) rest
  end.
Proof.
  revert t pre. induction rest as [|c rest IH]; intros t pre Hinv; simpl.
  - rewrite app_nil_r. auto.
  - pose proof (add_category_holds t pre c Hinv) as Hstep.
    destruct (add_category groupNameOf t c) as [t'|]; simpl.
    + destruct Hstep as [Hinv' Hc].
      specialize (IH t' (pre ++ [c]) Hinv').
      destruct (forEach (add_category groupNameOf) rest t') as [t''|].
      * rewrite <- app_assoc in IH. simpl in IH.
        destruct IH as [IH1 IH2]. split; [exact IH1|]. constructor; auto.
      * apply Exists_cons_tl. exact IH.
    + apply Exists_cons_hd. exact Hstep.
Qed.
End GroupingTable.

(** ** The ordering of grouped categories *)

Section GroupingOrder.
Context `{JSRuntime}.
Variable groupNameOf : Category → string.

Lemma sections_unfold t :
  fold_left (add_type t) typeOrder []
  = section_for t (INCOME, "Income") ++ section_for t (EXPENSE, "Expense")
    ++ section_for t (TRANSFER, "Transfer").
Proof.
  unfold typeOrder, add_type, section_for. simpl.
  destruct (0 <? length (sortedGroups (of_INCOME t)))%nat,
    (0 <? length (sortedGroups (of_EXPENSE t)))%nat,
    (0 <? length (sortedGroups (of_TRANSFER t)))%nat; reflexivity.
Qed.

Lemma members_nonempty ty g cs :
  members groupNameOf ty g cs ≠ []
  ↔ ∃ c, c ∈ cs ∧ type_of c = ty ∧ groupNameOf c = g.
Proof.
  unfold members. split.
  - destruct (List.filter _ cs) as [|c m] eqn:Hm; [congruence|]. intros _.
    assert (Hin : In c (List.filter (in_group groupNameOf ty g) cs)).
    { rewrite Hm. left. reflexivity. }
    apply filter_In in Hin as [Hin Hc]. exists c.
    unfold in_group in Hc. apply andb_true_iff in Hc as [Hty Hg].
    apply bool_decide_eq_true in Hty. apply String.eqb_eq in Hg.
    rewrite list_elem_of_In. auto.
  - intros (c & Hin & Hty & Hg) Hnil.
    assert (Hc : In c (List.filter (in_group groupNameOf ty g) cs)).
    { apply filter_In. split; [apply list_elem_of_In, Hin|].
      unfold in_group. rewrite bool_decide_eq_true_2 by exact Hty.
      apply String.eqb_eq, Hg. }
    rewrite Hnil in Hc. destruct Hc.
Qed.

Lemma table_keys t cs ty g :
  table_holds groupNameOf t cs →
  g ∈ map fst (groups_of t ty)
  ↔ ∃ c, c ∈ cs ∧ type_of c = ty ∧ groupNameOf c = g.
Proof.
  intros Hinv. destruct (Hinv ty) as (Hnd & _ & Hown).
  rewrite <- members_nonempty. split.
  - intros Hin. apply list_elem_of_fmap in Hin as ([g' v] & -> & Hin).
    apply (elem_of_obj_own _ _ _ Hnd) in Hin. simpl.
    rewrite Hown in Hin. intros Hnil. rewrite Hnil in Hin. discriminate.
  - intros Hne. specialize (Hown g).
    destruct (members groupNameOf ty g cs) as [|c m] eqn:Hm; [congruence|].
    apply obj_own_elem_of in Hown. apply list_elem_of_fmap.
    eexists. split; [|exact Hown]. reflexivity.
Qed.

Lemma sortedGroups_names o :
  map group_name (sortedGroups o)
  = map fst (js_sort compare_group_names (Object_entries o)).
Proof. unfold sortedGroups. rewrite map_map. reflexivity. Qed.

Lemma sortedGroups_names_perm o : map group_name (sortedGroups o) ≡ₚ map fst o.
Proof.
  rewrite sortedGroups_names, js_sort_perm, Object_entries_perm. reflexivity.
Qed.

Lemma sortedGroups_elem o g :
  g ∈ sortedGroups o →
  ∃ cats, (group_name g, cats) ∈ o
          ∧ group_categories g = js_sort compare_category_names cats.
Proof.
  unfold sortedGroups. intros Hin.
  apply list_elem_of_fmap in Hin as ([k cats] & -> & Hin).
  rewrite js_sort_perm, Object_entries_perm in Hin.
  exists cats. auto.
Qed.

Hypothesis localeCompare_total :
  ∀ a b, (localeCompare a b ≤ 0 ∨ localeCompare b a ≤ 0)%Z.
Hypothesis localeCompare_trans :
  ∀ a b c,
    (localeCompare a b ≤ 0 → localeCompare b c ≤ 0 → localeCompare a c ≤ 0)%Z.

Lemma sortedGroups_names_sorted o :
  StronglySorted name_le (map group_name (sortedGroups o)).
Proof.
  rewrite sortedGroups_names.
  apply (StronglySorted_fmap fst (cmp_le compare_group_names)).
  - intros x y Hxy. exact Hxy.
  - apply js_sort_sorted.
    + intros a b. apply localeCompare_total.
    + intros a b c. apply localeCompare_trans.
Qed.

Lemma sorted_categories_sorted cats :
  StronglySorted name_le
    (map (λ e, cat_name (gc_category e)) (js_sort compare_category_names cats)).
Proof.
  apply (StronglySorted_fmap (λ e, cat_name (gc_category e))
           (cmp_le compare_category_names)).
  - intros x y Hxy. exact Hxy.
  - apply js_sort_sorted.
    + intros a b. apply localeCompare_total.
    + intros a b c. apply localeCompare_trans.
Qed.

Lemma sortedGroups_section_ok t cs ty display :
  table_holds groupNameOf t cs →
  section_ok groupNameOf cs
    {| section_type := ty; section_displayName := display;
       section_groups := sortedGroups (groups_of t ty) |}.
Proof.
  intros Hinv. destruct (Hinv ty) as (Hnd & _ & Hown).
  unfold section_ok. simpl. split; [apply sortedGroups_names_sorted|].
  split; [rewrite sortedGroups_names_perm; exact Hnd|].
  split.
  - intros g. rewrite sortedGroups_names_perm. apply table_keys, Hinv.
  - apply Forall_forall. intros g Hg.
    apply sortedGroups_elem in Hg as (cats & Hin & Hcats).
    unfold group_ok. rewrite Hcats. split; [apply sorted_categories_sorted|].
    rewrite js_sort_perm.
    apply (elem_of_obj_own _ _ _ Hnd) in Hin. rewrite Hown in Hin.
    destruct (members groupNameOf ty (group_name g) cs); [discriminate|].
    injection Hin as <-. reflexivity.
Qed.

Lemma section_for_present t cs entry :
  table_holds groupNameOf t cs →
  section_for t entry
  = if existsb (λ c, bool_decide (type_of c = fst entry)) cs
    then [{| section_type := fst entry; section_displayName := snd entry;
             section_groups := sortedGroups (groups_of t (fst entry)) |}]
    else [].
Proof.
  intros Hinv. unfold section_for. cbv zeta.
  assert (Hlen : length (sortedGroups (groups_of t (fst entry)))
                 = length (map fst (groups_of t (fst entry)))).
  { rewrite <- (length_map group_name). apply Permutation_length.
    apply sortedGroups_names_perm. }
  rewrite Hlen.
  destruct (existsb _ cs) eqn:Hex.
  - apply existsb_exists in Hex as (c & Hin & Hty).
    apply bool_decide_eq_true in Hty.
    assert (Hkey : groupNameOf c ∈ map fst (groups_of t (fst entry))).
    { eapply table_keys; [exact Hinv|]. exists c.
      rewrite list_elem_of_In. auto. }
    destruct (map fst (groups_of t (fst entry))); [|reflexivity].
    apply elem_of_nil in Hkey as [].
  - destruct (map fst (groups_of t (fst entry))) as [|g gs] eqn:Hkeys;
      [reflexivity|exfalso].
    assert (Hkey : g ∈ map fst (groups_of t (fst entry))).
    { rewrite Hkeys. left. }
    eapply table_keys in Hkey as (c & Hin & Hty & _); [|exact Hinv].
    assert (Hyes : existsb (λ c, bool_decide (type_of c = fst entry)) cs = true).
    { apply existsb_exists. exists c. split; [apply list_elem_of_In, Hin|].
      apply bool_decide_eq_true_2, Hty. }
    congruence.
Qed.

(** What the grouping code computes on every input, with [localeCompare] a
    consistent comparator (total and transitive).  It throws exactly when
    some category's group name is a member of [Object.prototype]; otherwise
    it returns one section for each type that has a category, in the order
    INCOME, EXPENSE, TRANSFER; the groups of a section are sorted by name,
    have distinct names, and are the group names of the section's
    categories; the categories of a group are sorted by name and are
    exactly the categories of that type and group name. *)
Theorem groupCategories_ordered (categories : list Category) :
  grouping_spec groupNameOf categories (groupCategories groupNameOf categories).
Proof.
  unfold grouping_spec, groupCategories.
  pose proof (forEach_add_category_holds groupNameOf categories
                categoryTypes_init [] (table_holds_init groupNameOf)) as Hrun.
  destruct (forEach (add_category groupNameOf) categories categoryTypes_init)
    as [t|]; cbn [and_then]; [|exact Hrun].
  destruct Hrun as [Hinv Hnames]. simpl in Hinv.
  split; [exact Hnames|].
  rewrite sections_unfold.
  rewrite !(section_for_present t categories _ Hinv).
  split.
  - simpl.
    destruct (existsb _ categories), (existsb _ categories),
      (existsb _ categories); reflexivity.
  - repeat apply Forall_app_2.
    all: destruct (existsb _ categories).
    all: try solve [apply List.Forall_nil].
    all: apply List.Forall_cons; [|apply List.Forall_nil].
    all: apply sortedGroups_section_ok, Hinv.
Qed.
End GroupingOrder.

(** ** The two editors on the same list *)

Section GroupingAgreement.
Context `{JSRuntime}.

Lemma add_category_ext (f g : Category → string) t c :
  f c = g c → add_category f t c = add_category g t c.
Proof. intros Heq. unfold add_category. rewrite Heq. reflexivity. Qed.

Lemma forEach_add_category_ext (f g : Category → string) cs t :
  Forall (λ c, f c = g c) cs →
  forEach (add_category f) cs t = forEach (add_category g) cs t.
Proof.
  intros Hall. revert t. induction Hall as [|c cs Hc _ IH]; intros t; simpl.
  - reflexivity.
  - rewrite (add_category_ext f g t c Hc).
    destruct (add_category g t c); simpl; auto.
Qed.

Lemma groupName_agree c :
  named_without_group_object c →
  BulkCategoryEditor.groupName c = InlineCategoryEditor.groupName c.
Proof.
  unfold named_without_group_object, BulkCategoryEditor.groupName,
    InlineCategoryEditor.groupName, or_opt.
  intros [Hname|Hgroup].
  - rewrite Hname. reflexivity.
  - destruct (truthy (cat_group_name c)) eqn:Hname; [reflexivity|].
    unfold truthy in Hname, Hgroup. unfold or_else.
    destruct (cat_group_name c) as [n|], (grp_name <$> cat_group c) as [m|];
      try reflexivity.
    + apply negb_false_iff in Hname, Hgroup. rewrite Hname, Hgroup. reflexivity.
    + apply negb_false_iff in Hname. rewrite Hname. reflexivity.
    + apply negb_false_iff in Hgroup. rewrite Hgroup. reflexivity.
Qed.

(** On every list whose categories are named without their group object,
    the grouping functions of [BulkCategoryEditor] and
    [InlineCategoryEditor] return the same structure, or both throw. *)
Theorem grouping_functions_agree_without_group_object
    (categories : list Category) :
  Forall named_without_group_object categories →
  BulkCategoryEditor.groupedCategories categories
  = InlineCategoryEditor.groupedCategories categories.
Proof.
  intros Hall.
  unfold BulkCategoryEditor.groupedCategories,
    InlineCategoryEditor.groupedCategories, groupCategories.
  rewrite (forEach_add_category_ext BulkCategoryEditor.groupName
             InlineCategoryEditor.groupName); [reflexivity|].
  eapply Forall_impl; [exact Hall|]. intros c. apply groupName_agree.
Qed.

(** X1.  Both editors order their groups: for every list of categories,
    each grouping function either throws, when a group is named after a
    member of [Object.prototype], or returns the sections in the order
    INCOME, EXPENSE, TRANSFER (named "Income", "Expense", "Transfer"),
    leaving out the types that have no category, with the groups of each
    section sorted by name and the categories of each group sorted by name
    and complete.  The group of a category is named by its [group_name],
    in [BulkCategoryEditor] else by the name of its group object, else
    "Other". *)
Theorem editors_group_in_the_fixed_order (categories : list Category) :
  (∀ a b, (localeCompare a b ≤ 0 ∨ localeCompare b a ≤ 0)%Z) →
  (∀ a b c,
     (localeCompare a b ≤ 0 → localeCompare b c ≤ 0 → localeCompare a c ≤ 0)%Z) →
  grouping_spec BulkCategoryEditor.groupName categories
    (BulkCategoryEditor.groupedCategories categories)
  ∧ grouping_spec InlineCategoryEditor.groupName categories
      (InlineCategoryEditor.groupedCategories categories)
  ∧ (∀ c,
       BulkCategoryEditor.groupName c
       = match cat_group_name c, cat_group c with
         | Some name, Some group =>
             if String.eqb name "" then
               if String.eqb (grp_name group) "" then "Other"
               else grp_name group
             else name
         | Some name, None => if String.eqb name "" then "Other" else name
         | None, Some group =>
             if String.eqb (grp_name group) "" then "Other"
             else grp_name group
         | None, None => "Other"
         end)
  ∧ (∀ c,
       InlineCategoryEditor.groupName c
       = match cat_group_name c with
         | Some name => if String.eqb name "" then "Other" else name
         | None => "Other"
         end).
Proof.
  intros Htotal Htrans. split; [|split; [|split]].
  - apply (groupCategories_ordered BulkCategoryEditor.groupName Htotal Htrans).
  - apply (groupCategories_ordered InlineCategoryEditor.groupName Htotal Htrans).
  - intros c. unfold BulkCategoryEditor.groupName, or_opt, or_else, truthy.
    destruct (cat_group_name c) as [name|], (cat_group c) as [group|]; simpl;
      repeat match goal with
             | |- context [String.eqb ?a ""] =>
                 destruct (String.eqb a "") eqn:?; simpl
             end;
      try discriminate; reflexivity.
  - intros c. reflexivity.
Qed.
End GroupingAgreement.

(** ** Where the grouping code departs from the ordering contract *)

Section GroupingDefects.
Context `{JSRuntime}.

(** C5 fails on the code.  For the one-category list whose category is in
    a group named "constructor", neither grouping function produces a
    grouped structure: [categoryTypes[type]["constructor"]] reads the
    inherited member, the group's array is never created, and the [push]
    throws a [TypeError]. *)
Theorem grouping_throws_on_inherited_group_name :
  BulkCategoryEditor.groupedCategories [rent_in_group_constructor] = TypeError
  ∧ InlineCategoryEditor.groupedCategories [rent_in_group_constructor]
    = TypeError.
Proof. split; reflexivity. Qed.

(** C6 fails on the code.  For the one-category list whose category has a
    group object named "Housing" and no [group_name], [BulkCategoryEditor]
    files the category under "Housing" and [InlineCategoryEditor] under
    "Other": the two grouped structures differ. *)
Theorem grouping_functions_disagree_on_group_object :
  BulkCategoryEditor.groupedCategories [rent_with_group_object]
  = Return
      [{| section_type := EXPENSE; section_displayName := "Expense";
          section_groups :=
            [{| group_name := "Housing";
                group_categories :=
                  [{| gc_category := rent_with_group_object;
                      gc_searchText := toLowerCase "Rent Housing" |}] |}] |}]
  ∧ InlineCategoryEditor.groupedCategories [rent_with_group_object]
    = Return
        [{| section_type := EXPENSE; section_displayName := "Expense";
            section_groups :=
              [{| group_name := "Other";
                  group_categories :=
                    [{| gc_category := rent_with_group_object;
                        gc_searchText := toLowerCase "Rent Other" |}] |}] |}]
  ∧ BulkCategoryEditor.groupedCategories [rent_with_group_object]
    ≠ InlineCategoryEditor.groupedCategories [rent_with_group_object].
Proof.
  split; [reflexivity|]. split; [reflexivity|].
  intros Heq. vm_compute in Heq. discriminate Heq.
Qed.
End GroupingDefects.

(** ** Grouping on the decimal runtime *)

Section GroupingScenarios.
Lemma decimal_localeCompare_le a b :
  (Decimal.localeCompare a b ≤ 0)%Z ↔ String_as_OT.compare a b ≠ Gt.
Proof.
  unfold Decimal.localeCompare.
  destruct (String_as_OT.compare a b); split; intros Hle; try lia; congruence.
Qed.

Lemma decimal_localeCompare_total a b :
  (Decimal.localeCompare a b ≤ 0 ∨ Decimal.localeCompare b a ≤ 0)%Z.
Proof.
  rewrite !decimal_localeCompare_le.
  destruct (String_as_OT.compare_spec a b) as [Heq|Hlt|Hgt].
  - left. discriminate.
  - left. discriminate.
  - right. unfold String_as_OT.lt in Hgt. rewrite Hgt. discriminate.
Qed.

Lemma decimal_localeCompare_trans a b c :
  (Decimal.localeCompare a b ≤ 0 → Decimal.localeCompare b c ≤ 0 →
   Decimal.localeCompare a c ≤ 0)%Z.
Proof.
  rewrite !decimal_localeCompare_le. intros Hab Hbc Hac.
  destruct (String_as_OT.compare_spec a b) as [->|Hlt|_]; [auto| |congruence].
  destruct (String_as_OT.compare_spec b c) as [<-|Hlt'|_]; [| |congruence].
  - unfold String_as_OT.lt in Hlt. congruence.
  - pose proof (StrictOrder_Transitive a b c Hlt Hlt') as Hlt''.
    unfold String_as_OT.lt in Hlt''. congruence.
Qed.

Example catalog_grouped :
  match BulkCategoryEditor.groupedCategories catalog with
  | Return result =>
      map (λ s, (section_displayName s,
                 map (λ g, (group_name g,
                            map (λ e, cat_name (gc_category e))
                              (group_categories g)))
                   (section_groups s)))
        result
  | TypeError => []
  end
  = [("Income", [("Work", ["Salary"])]);
     ("Expense", [("Food", ["Dining"; "Groceries"]);
                  ("Housing", ["Rent"]);
                  ("Other", ["Gifts"])])].
Proof. vm_compute. reflexivity. Qed.

Lemma editors_group_in_the_fixed_order_witness :
  grouping_spec BulkCategoryEditor.groupName catalog
    (BulkCategoryEditor.groupedCategories catalog)
  ∧ grouping_spec InlineCategoryEditor.groupName catalog
      (InlineCategoryEditor.groupedCategories catalog).
Proof.
  destruct (@editors_group_in_the_fixed_order Decimal.runtime catalog
              decimal_localeCompare_total decimal_localeCompare_trans)
    as (Hbulk & Hinline & _).
  split; [exact Hbulk|exact Hinline].
Defined.

Lemma grouping_functions_agree_without_group_object_witness :
  BulkCategoryEditor.groupedCategories catalog
  = InlineCategoryEditor.groupedCategories catalog.
Proof.
  apply (@grouping_functions_agree_without_group_object Decimal.runtime catalog).
  repeat (apply List.Forall_cons; [vm_compute; auto|]). apply List.Forall_nil.
Defined.
End GroupingScenarios.

(** ** Substrings *)

Section Includes.
Lemma append_nil_r s : s +:+ "" = s.
Proof.
  induction s as [|c s IH]; [reflexivity|].
  change (String c (s +:+ "") = String c s). rewrite IH. reflexivity.
Qed.

Lemma append_assoc s t u : (s +:+ t) +:+ u = s +:+ (t +:+ u).
Proof.
  induction s as [|c s IH]; [reflexivity|].
  change (String c ((s +:+ t) +:+ u) = String c (s +:+ (t +:+ u))).
  rewrite IH. reflexivity.
Qed.

Lemma prefix_app s t : String.prefix s (s +:+ t) = true.
Proof.
  induction s as [|c s IH].
  - destruct t; reflexivity.
  - change (String.prefix (String c s) (String c (s +:+ t)) = true). simpl.
    destruct (Ascii.ascii_dec c c); [exact IH|congruence].
Qed.

Lemma includes_unfold s sub :
  includes s sub
  = String.prefix sub s
    || match s with
       | EmptyString => false
       | String _ rest => includes rest sub
       end.
Proof. destruct s; reflexivity. Qed.

Lemma includes_app_l s t sub :
  includes t sub = true → includes (s +:+ t) sub = true.
Proof.
  intros Ht. induction s as [|c s IH]; [exact Ht|].
  change (includes (String c (s +:+ t)) sub = true).
  cbn [includes]. rewrite IH. apply orb_true_r.
Qed.

Lemma includes_prefix s t : includes (s +:+ t) s = true.
Proof. rewrite includes_unfold, prefix_app. reflexivity. Qed.

Lemma includes_suffix s t : includes (s +:+ t) t = true.
Proof.
  apply includes_app_l. rewrite <- (append_nil_r t) at 1.
  apply includes_prefix.
Qed.
End Includes.

(** ** Lists under [filter] and [flat_map] *)

Section ListFacts.
Context {A B : Type}.

Lemma filter_map_comm (f : A → B) (p : B → bool) (l : list A) :
  List.filter p (map f l) = map f (List.filter (λ x, p (f x)) l).
Proof.
  induction l as [|x l IH]; simpl; [reflexivity|].
  rewrite IH. destruct (p (f x)); reflexivity.
Qed.

Lemma filter_flat_map (f : A → list B) (p : B → bool) (l : list A) :
  List.filter p (flat_map f l) = flat_map (λ x, List.filter p (f x)) l.
Proof.
  induction l as [|x l IH]; simpl; [reflexivity|].
  rewrite List.filter_app, IH. reflexivity.
Qed.

Lemma flat_map_filter_nonempty (f : A → list B) (q : A → bool) (l : list A) :
  (∀ x, q x = false → f x = []) →
  flat_map f (List.filter q l) = flat_map f l.
Proof.
  intros Hq. induction l as [|x l IH]; simpl; [reflexivity|].
  destruct (q x) eqn:Hx; simpl; rewrite IH; [reflexivity|].
  rewrite (Hq x Hx). reflexivity.
Qed.

Lemma flat_map_perm_ext (f g : A → list B) (l : list A) :
  (∀ x, f x ≡ₚ g x) → flat_map f l ≡ₚ flat_map g l.
Proof.
  intros Hfg. induction l as [|x l IH]; simpl; [reflexivity|].
  rewrite (Hfg x), IH. reflexivity.
Qed.

Lemma length_zero_nil (l : list A) : (0 <? length l)%nat = false → l = [].
Proof. destruct l; [reflexivity|discriminate]. Qed.

Lemma filter_perm (p : A → bool) (l l' : list A) :
  l ≡ₚ l' → List.filter p l ≡ₚ List.filter p l'.
Proof.
  induction 1 as [|x l l' _ IH|x y l|l l' l'' _ IH1 _ IH2]; simpl.
  - reflexivity.
  - destruct (p x); [constructor|]; exact IH.
  - destruct (p x), (p y); try reflexivity. apply Permutation_swap.
  - etransitivity; eassumption.
Qed.

Lemma filter_none (p : A → bool) (l : list A) :
  Forall (λ x, p x = false) l → List.filter p l = [].
Proof.
  induction 1 as [|x l Hx _ IH]; simpl; [reflexivity|]. rewrite Hx. exact IH.
Qed.

Lemma filter_every (p : A → bool) (l : list A) :
  Forall (λ x, p x = true) l → List.filter p l = l.
Proof.
  induction 1 as [|x l Hx _ IH]; simpl; [reflexivity|]. rewrite Hx, IH.
  reflexivity.
Qed.
End ListFacts.

(** ** Searching the grouped categories *)

Section SearchFilter.
Context `{JSRuntime}.

Lemma listed_app a b : listed (a ++ b) = listed a ++ listed b.
Proof. unfold listed. apply flat_map_app. Qed.

Lemma listed_filterCategories (sections : list TypeSection)
    (searchValue : string) :
  searchValue ≠ "" →
  listed (filterCategories sections searchValue)
  = List.filter (found searchValue) (listed sections).
Proof.
  intros Hs. unfold filterCategories.
  apply String.eqb_neq in Hs. rewrite Hs. cbv zeta.
  unfold listed.
  rewrite flat_map_filter_nonempty.
  2:{ intros s Hlen. apply length_zero_nil in Hlen. rewrite Hlen. reflexivity. }
  rewrite filter_flat_map, flat_map_concat_map, map_map, <- flat_map_concat_map.
  apply flat_map_ext. intros s. simpl.
  rewrite flat_map_filter_nonempty.
  2:{ intros g Hlen. apply length_zero_nil in Hlen. rewrite Hlen. reflexivity. }
  rewrite filter_flat_map, flat_map_concat_map, map_map, <- flat_map_concat_map.
  apply flat_map_ext. intros g. simpl.
  rewrite filter_map_comm. reflexivity.
Qed.

Lemma filterCategories_nonempty (sections : list TypeSection)
    (searchValue : string) :
  searchValue ≠ "" →
  Forall (λ s, section_groups s ≠ []
               ∧ Forall (λ g, group_categories g ≠ []) (section_groups s))
    (filterCategories sections searchValue).
Proof.
  intros Hs. unfold filterCategories.
  apply String.eqb_neq in Hs. rewrite Hs. cbv zeta.
  apply Forall_forall. intros s Hin.
  apply list_elem_of_In, filter_In in Hin as [Hin Hlen].
  split.
  - intros Hnil. rewrite Hnil in Hlen. discriminate.
  - apply in_map_iff in Hin as (s0 & <- & _). simpl.
    apply Forall_forall. intros g Hg.
    apply list_elem_of_In, filter_In in Hg as [_ Hg].
    intros Hnil. rewrite Hnil in Hg. discriminate.
Qed.

(** X3.  A search narrows the list and keeps its order: for every grouped
    structure and every search value, the items listed after the search are
    the listed items whose search text contains the search value in lower
    case, in the order they had; an empty search value leaves the structure
    as it is; and after a search with a value that is not empty, no section
    without a group and no group without a category is left. *)
Theorem search_keeps_the_matching_items_in_order
    (sections : list TypeSection) (searchValue : string) :
  (if String.eqb searchValue ""
   then filterCategories sections searchValue = sections
   else
     listed (filterCategories sections searchValue)
     = List.filter
         (λ it, includes (gc_searchText (snd it)) (toLowerCase searchValue))
         (listed sections)
     ∧ Forall
         (λ s, section_groups s ≠ []
               ∧ Forall (λ g, group_categories g ≠ []) (section_groups s))
         (filterCategories sections searchValue)).
Proof.
  destruct (String.eqb_spec searchValue "") as [->|Hne].
  - reflexivity.
  - split.
    + apply listed_filterCategories, Hne.
    + apply filterCategories_nonempty, Hne.
Qed.
End SearchFilter.

(** ** Every category is listed once *)

Section ListedOnce.
Context `{JSRuntime}.
Variable groupNameOf : Category → string.

Lemma group_items_set_new ty o k v :
  obj_own o k = None →
  group_items ty (obj_set o k v) = group_items ty o ++ map (λ e, (ty, k, e)) v.
Proof.
  unfold group_items. induction o as [|[k0 w] o IH]; simpl; intros Hown.
  - rewrite app_nil_r. reflexivity.
  - destruct (String.eqb k0 k); [discriminate|]. simpl.
    rewrite IH by exact Hown. rewrite app_assoc. reflexivity.
Qed.

Lemma group_items_set_own ty o k cats e :
  obj_own o k = Some cats →
  group_items ty (obj_set o k (cats ++ [e])) ≡ₚ group_items ty o ++ [(ty, k, e)].
Proof.
  unfold group_items. induction o as [|[k0 w] o IH]; simpl; intros Hown.
  - discriminate.
  - destruct (String.eqb_spec k0 k) as [->|Hne]; simpl.
    + injection Hown as ->. rewrite map_app. simpl.
      rewrite <- !app_assoc. apply Permutation_app_head.
      apply Permutation_app_comm.
    + rewrite IH by exact Hown. rewrite app_assoc. reflexivity.
Qed.

Lemma table_items_with_groups t ty o extra :
  group_items ty o ≡ₚ group_items ty (groups_of t ty) ++ extra →
  table_items (with_groups t ty o) ≡ₚ table_items t ++ extra.
Proof.
  unfold table_items. intros Ho. destruct ty; simpl in *; rewrite Ho.
  - rewrite <- !app_assoc. apply Permutation_app_head.
    rewrite (Permutation_app_comm extra). rewrite <- !app_assoc. reflexivity.
  - rewrite <- !app_assoc. do 2 apply Permutation_app_head.
    apply Permutation_app_comm.
  - rewrite <- !app_assoc. reflexivity.
Qed.

Lemma add_category_items t c t' :
  add_category groupNameOf t c = Return t' →
  table_items t' ≡ₚ table_items t ++ [item groupNameOf c].
Proof.
  rewrite add_category_cases. cbv zeta.
  destruct (obj_own _ _) as [cats|] eqn:Hown.
  - intros [= <-]. apply table_items_with_groups.
    apply group_items_set_own, Hown.
  - destruct (inherited _); [discriminate|]. intros [= <-].
    apply table_items_with_groups.
    rewrite group_items_set_new by exact Hown. reflexivity.
Qed.

Lemma forEach_add_category_items cs t t' :
  forEach (add_category groupNameOf) cs t = Return t' →
  table_items t' ≡ₚ table_items t ++ map (item groupNameOf) cs.
Proof.
  revert t. induction cs as [|c cs IH]; simpl; intros t.
  - intros [= <-]. rewrite app_nil_r. reflexivity.
  - destruct (add_category groupNameOf t c) as [t1|] eqn:Hadd; simpl;
      [|discriminate].
    intros Hrest. rewrite (IH _ Hrest), (add_category_items _ _ _ Hadd).
    rewrite <- app_assoc. reflexivity.
Qed.

Lemma listed_section_for t entry :
  listed (section_for t entry)
  ≡ₚ group_items (fst entry) (groups_of t (fst entry)).
Proof.
  unfold section_for. cbv zeta.
  assert (Hall : listed [{| section_type := fst entry;
                            section_displayName := snd entry;
                            section_groups :=
                              sortedGroups (groups_of t (fst entry)) |}]
                 ≡ₚ group_items (fst entry) (groups_of t (fst entry))).
  { unfold listed, group_items, sortedGroups. simpl. rewrite app_nil_r.
    rewrite flat_map_concat_map, map_map, <- flat_map_concat_map. simpl.
    rewrite (flat_map_perm_ext _
               (λ kv, map (λ e, (fst entry, fst kv, e)) (snd kv))).
    2:{ intros kv. rewrite js_sort_perm. reflexivity. }
    apply Permutation_flat_map.
    rewrite js_sort_perm. apply Object_entries_perm. }
  destruct (0 <? length (sortedGroups (groups_of t (fst entry))))%nat eqn:Hlen;
    [exact Hall|].
  rewrite <- Hall. apply length_zero_nil in Hlen. rewrite Hlen. reflexivity.
Qed.

Lemma groupCategories_listed_once cs result :
  groupCategories groupNameOf cs = Return result →
  listed result ≡ₚ map (item groupNameOf) cs.
Proof.
  unfold groupCategories.
  destruct (forEach _ cs categoryTypes_init) as [t|] eqn:Hrun; cbn [and_then];
    [|discriminate].
  intros Hres.
  assert (Hr : result = fold_left (add_type t) typeOrder []) by congruence.
  rewrite Hr, sections_unfold, !listed_app, !listed_section_for.
  cbn [fst]. apply forEach_add_category_items in Hrun. rewrite Hrun.
  reflexivity.
Qed.

Lemma section_for_nonempty t cs entry :
  table_holds groupNameOf t cs →
  Forall (λ s, section_groups s ≠ []
               ∧ Forall (λ g, group_categories g ≠ []) (section_groups s))
    (section_for t entry).
Proof.
  intros Hinv. unfold section_for. cbv zeta.
  destruct (0 <? length (sortedGroups (groups_of t (fst entry))))%nat eqn:Hlen;
    [|constructor].
  constructor; [|constructor]. simpl. split.
  - intros Hnil. rewrite Hnil in Hlen. discriminate.
  - apply Forall_forall. intros g Hg.
    apply sortedGroups_elem in Hg as (cats & Hin & Hcats).
    destruct (Hinv (fst entry)) as (Hnd & _ & Hown).
    apply (elem_of_obj_own _ _ _ Hnd) in Hin. rewrite Hown in Hin.
    destruct (members groupNameOf (fst entry) (group_name g) cs) as [|c m];
      [discriminate|].
    injection Hin as Hmem. rewrite Hcats. intros Hnil.
    pose proof (Permutation_length (js_sort_perm compare_category_names cats))
      as Hsame.
    rewrite Hnil, <- Hmem in Hsame. discriminate Hsame.
Qed.

Lemma groupCategories_outcome cs :
  match groupCategories groupNameOf cs with
  | Return result =>
      Forall (λ c, inherited (groupNameOf c) = false) cs
      ∧ Forall (λ s, section_groups s ≠ []
                     ∧ Forall (λ g, group_categories g ≠ [])
                         (section_groups s))
          result
  | TypeError => Exists (λ c, inherited (groupNameOf c) = true) cs
  end.
Proof.
  unfold groupCategories.
  pose proof (forEach_add_category_holds groupNameOf cs categoryTypes_init []
                (table_holds_init groupNameOf)) as Hrun.
  destruct (forEach _ cs categoryTypes_init) as [t|]; cbn [and_then];
    [|exact Hrun].
  destruct Hrun as [Hinv Hnames]. simpl in Hinv.
  split; [exact Hnames|].
  rewrite sections_unfold.
  repeat apply Forall_app_2; eapply section_for_nonempty; exact Hinv.
Qed.

Lemma filterCategories_listing cs searchValue :
  listing_spec groupNameOf cs searchValue
    (and_then (groupCategories groupNameOf cs)
       (λ grouped, Return (filterCategories grouped searchValue))).
Proof.
  unfold listing_spec.
  pose proof (groupCategories_outcome cs) as Hout.
  destruct (groupCategories groupNameOf cs) as [grouped|] eqn:Hg;
    cbn [and_then]; [|exact Hout].
  destruct Hout as [_ Hne].
  pose proof (groupCategories_listed_once cs grouped Hg) as Hperm.
  destruct (String.eqb_spec searchValue "") as [->|Hs].
  - split; [exact Hperm|exact Hne].
  - split.
    + rewrite listed_filterCategories by exact Hs.
      apply filter_perm, Hperm.
    + apply filterCategories_nonempty, Hs.
Qed.

Lemma found_by_name_or_group c searchValue :
  (∀ a b, toLowerCase (a +:+ " " +:+ b)
          = toLowerCase a +:+ " " +:+ toLowerCase b) →
  toLowerCase searchValue = toLowerCase (cat_name c)
  ∨ toLowerCase searchValue = toLowerCase (groupNameOf c) →
  found searchValue (item groupNameOf c) = true.
Proof.
  intros Hlower Hs. unfold found, item, grouped_entry. simpl.
  rewrite Hlower. destruct Hs as [-> | ->].
  - apply includes_prefix.
  - rewrite <- append_assoc. apply includes_suffix.
Qed.

Lemma search_finds cs c searchValue :
  (∀ a b, toLowerCase (a +:+ " " +:+ b)
          = toLowerCase a +:+ " " +:+ toLowerCase b) →
  Forall (λ c, inherited (groupNameOf c) = false) cs →
  c ∈ cs →
  toLowerCase searchValue = toLowerCase (cat_name c)
  ∨ toLowerCase searchValue = toLowerCase (groupNameOf c) →
  ∃ shown,
    and_then (groupCategories groupNameOf cs)
      (λ grouped, Return (filterCategories grouped searchValue))
    = Return shown
    ∧ item groupNameOf c ∈ listed shown.
Proof.
  intros Hlower Hall Hin Hs.
  pose proof (filterCategories_listing cs searchValue) as Hspec.
  pose proof (groupCategories_outcome cs) as Hout.
  destruct (groupCategories groupNameOf cs) as [grouped|]; cbn [and_then] in *.
  - eexists. split; [reflexivity|].
    destruct Hspec as [Hperm _]. rewrite Hperm.
    assert (Hitem : item groupNameOf c ∈ map (item groupNameOf) cs).
    { apply list_elem_of_fmap. eauto. }
    destruct (String.eqb searchValue ""); [exact Hitem|].
    apply list_elem_of_In, filter_In. split; [apply list_elem_of_In, Hitem|].
    apply found_by_name_or_group; assumption.
  - exfalso. apply Exists_exists in Hout as (c' & Hin' & Hc').
    rewrite Forall_forall in Hall. specialize (Hall c' Hin'). congruence.
Qed.
End ListedOnce.

Section EditorsListing.
Context `{JSRuntime}.

(** X4.  What the editors list: for every list of categories and every
    search value, [filteredTypes] of either editor throws only when a
    group is named after a member of [Object.prototype]; otherwise each
    category whose search text (its name, a blank and its group name, in
    lower case) contains the search value in lower case is listed exactly
    once, under its type and its group, nothing else is listed, and no
    section or group is left without an item.  With an empty search value
    every category is listed. *)
Theorem editors_list_each_matching_category_once
    (categories : list Category) (searchValue : string) :
  listing_spec BulkCategoryEditor.groupName categories searchValue
    (BulkCategoryEditor.filteredTypes categories searchValue)
  ∧ listing_spec InlineCategoryEditor.groupName categories searchValue
      (InlineCategoryEditor.filteredTypes categories searchValue).
Proof.
  split.
  - apply (filterCategories_listing BulkCategoryEditor.groupName).
  - apply (filterCategories_listing InlineCategoryEditor.groupName).
Qed.

(** X5.  A category is found by its name and by the name of its group,
    in any letter case.  With a [toLowerCase] that works word by word
    across a blank, for every category of a list none of whose groups is
    named after a member of [Object.prototype], and every search value
    that equals the category's name, or its group's name, up to letter
    case, [filteredTypes] of either editor returns a list that contains
    the category under its type and group. *)
Theorem search_by_name_or_group_finds_the_category
    (categories : list Category) (c : Category) (searchValue : string) :
  (∀ a b, toLowerCase (a +:+ " " +:+ b)
          = toLowerCase a +:+ " " +:+ toLowerCase b) →
  c ∈ categories →
  (Forall (λ c, inherited (BulkCategoryEditor.groupName c) = false)
     categories →
   toLowerCase searchValue = toLowerCase (cat_name c)
   ∨ toLowerCase searchValue
     = toLowerCase (BulkCategoryEditor.groupName c) →
   ∃ shown,
     BulkCategoryEditor.filteredTypes categories searchValue = Return shown
     ∧ item BulkCategoryEditor.groupName c ∈ listed shown)
  ∧ (Forall (λ c, inherited (InlineCategoryEditor.groupName c) = false)
       categories →
     toLowerCase searchValue = toLowerCase (cat_name c)
     ∨ toLowerCase searchValue
       = toLowerCase (InlineCategoryEditor.groupName c) →
     ∃ shown,
       InlineCategoryEditor.filteredTypes categories searchValue
       = Return shown
       ∧ item InlineCategoryEditor.groupName c ∈ listed shown).
Proof.
  intros Hlower Hin. split; intros Hall Hs.
  - apply (search_finds BulkCategoryEditor.groupName); assumption.
  - apply (search_finds InlineCategoryEditor.groupName); assumption.
Qed.
End EditorsListing.

(** ** The counter and the badges of the account filters *)

Section FilterCount.
Import AccountFilters.

Lemma length_pos_iff s : (0 <? String.length s)%nat = negb (String.eqb s "").
Proof. destruct s; reflexivity. Qed.

Lemma activeFiltersCount_sum filters :
  activeFiltersCount filters
  = ((if String.eqb (search filters) "" then 0 else 1)
     + (if String.eqb (type filters) "all" then 0 else 1)
     + (if String.eqb (subtype filters) "all" then 0 else 1))%nat.
Proof.
  unfold activeFiltersCount, entries. simpl. rewrite length_pos_iff.
  destruct (String.eqb (search filters) ""), (String.eqb (type filters) "all"),
    (String.eqb (subtype filters) "all"); reflexivity.
Qed.

Lemma badges_cases filters :
  badges filters
  = (if String.eqb (search filters) "" then []
     else [("Search: " +:+ search filters, (key_search, ""))])
    ++ (if String.eqb (type filters) "all" then []
        else [("Type: " +:+ getTypeLabel (type filters), (key_type, "all"))])
    ++ (if String.eqb (subtype filters) "all" then []
        else [("Subtype: " +:+ getSubtypeLabel (subtype filters),
               (key_subtype, "all"))]).
Proof.
  unfold badges. rewrite activeFiltersCount_sum.
  destruct (String.eqb (search filters) ""), (String.eqb (type filters) "all"),
    (String.eqb (subtype filters) "all"); reflexivity.
Qed.

Lemma activeFiltersCount_badges filters :
  activeFiltersCount filters = length (badges filters).
Proof.
  rewrite badges_cases, activeFiltersCount_sum.
  destruct (String.eqb (search filters) ""), (String.eqb (type filters) "all"),
    (String.eqb (subtype filters) "all"); reflexivity.
Qed.

Lemma activeFiltersCount_zero filters :
  activeFiltersCount filters = 0%nat ↔ filters = initial.
Proof.
  rewrite activeFiltersCount_sum. destruct filters as [s t st].
  simpl. split.
  - destruct (String.eqb_spec s ""), (String.eqb_spec t "all"),
      (String.eqb_spec st "all"); simpl; try discriminate.
    intros _. subst. reflexivity.
  - intros [= -> -> ->]. reflexivity.
Qed.

Lemma badge_cases filters label key value :
  (label, (key, value)) ∈ badges filters →
  (key = key_search ∧ value = "" ∧ search filters ≠ "")
  ∨ (key = key_type ∧ value = "all" ∧ type filters ≠ "all")
  ∨ (key = key_subtype ∧ value = "all" ∧ subtype filters ≠ "all").
Proof.
  rewrite badges_cases, !elem_of_app. intros [Hin|[Hin|Hin]].
  - destruct (String.eqb (search filters) "") eqn:Hne;
      [apply elem_of_nil in Hin as []|]. apply String.eqb_neq in Hne.
    apply list_elem_of_singleton in Hin. injection Hin as _ -> ->. auto.
  - destruct (String.eqb (type filters) "all") eqn:Hne;
      [apply elem_of_nil in Hin as []|]. apply String.eqb_neq in Hne.
    apply list_elem_of_singleton in Hin. injection Hin as _ -> ->. auto.
  - destruct (String.eqb (subtype filters) "all") eqn:Hne;
      [apply elem_of_nil in Hin as []|]. apply String.eqb_neq in Hne.
    apply list_elem_of_singleton in Hin. injection Hin as _ -> ->. auto 6.
Qed.

Lemma offered_subtype_listed filters :
  offered filters →
  subtype filters = "all"
  ∨ existsb (λ st, String.eqb (fst st) (subtype filters))
      (getAvailableSubtypesForType "all") = true.
Proof.
  unfold offered, subtype_items, getAvailableSubtypes, type_items.
  intros [Hty Hsub].
  destruct Hty as [Hty|[Hty|[Hty|[]]]]; rewrite <- Hty in Hsub;
    simpl in Hsub;
    repeat (destruct Hsub as [Hsub|Hsub]; [rewrite <- Hsub; auto|]);
    destruct Hsub.
Qed.

(** X6.  The number on the filter button is the number of badges shown
    under the controls, and it is zero exactly in the cleared state
    (empty search, type and subtype ["all"]), which is the state
    [clearFilters] sets: the [Clear all] button and the badges are shown
    exactly when some filter differs from the cleared state. *)
Theorem active_filter_count_is_the_number_of_badges
    (filters : AccountFilters) :
  activeFiltersCount filters = length (badges filters)
  ∧ (activeFiltersCount filters = 0%nat ↔ filters = initial)
  ∧ activeFiltersCount (clearFilters filters) = 0%nat.
Proof.
  split; [apply activeFiltersCount_badges|].
  split; [apply activeFiltersCount_zero|].
  reflexivity.
Qed.

(** X7.  The remove button of a badge deactivates its filter: for every
    filter state and every badge it shows, the [updateFilter] call of the
    badge's button lowers the number of active filters; in a state that
    the controls can produce it lowers it by exactly one.  (In other
    states, removing the type can also reset a subtype that no type
    has.) *)
Theorem removing_a_badge_deactivates_its_filter
    (filters : AccountFilters) (label : string) (key : Key) (value : string) :
  (label, (key, value)) ∈ badges filters →
  (activeFiltersCount (updateFilter filters key value)
   < activeFiltersCount filters)%nat
  ∧ (offered filters →
     S (activeFiltersCount (updateFilter filters key value))
     = activeFiltersCount filters).
Proof.
  intros Hin. apply badge_cases in Hin.
  rewrite !activeFiltersCount_sum.
  destruct Hin as [(-> & -> & Hne)|[(-> & -> & Hne)|(-> & -> & Hne)]].
  - unfold updateFilter. simpl. apply String.eqb_neq in Hne. rewrite Hne.
    split; [lia|intros _; lia].
  - unfold updateFilter. cbv zeta. cbn [assign].
    apply String.eqb_neq in Hne. rewrite Hne.
    destruct (String.eqb (subtype filters) "all") eqn:Hst; cbn [negb andb].
    + cbn [subtype type search]. rewrite Hst. simpl. split; [lia|intros _; lia].
    + destruct (existsb _ (getAvailableSubtypesForType "all")) eqn:Hex;
        cbn [negb subtype type search assign].
      * rewrite Hst. simpl. split; [lia|intros _; lia].
      * simpl. split; [lia|]. intros Hoff.
        apply offered_subtype_listed in Hoff as [Hall|Hl].
        -- apply String.eqb_neq in Hst. contradiction.
        -- congruence.
  - unfold updateFilter. simpl. apply String.eqb_neq in Hne. rewrite Hne.
    split; [lia|intros _; lia].
Qed.
End FilterCount.

(** ** The accounts page: filtered list, groups and refresh *)

Section AccountGroups.
Context `{JSRuntime}.
Import AccountFilters AccountsPage AccountsList RefreshBalanceButton.

(** X8.  Filters that are not shown as active hide nothing: for every
    list of accounts and every filter state whose count of active filters
    is zero, the filtered list is the whole list. *)
Theorem inactive_filters_hide_no_account
    (accounts : list Account) (filters : AccountFilters) :
  activeFiltersCount filters = 0%nat →
  filteredAccounts accounts filters = accounts.
Proof.
  intros Hz. apply activeFiltersCount_zero in Hz as ->.
  apply filter_every, Forall_forall. intros a _. reflexivity.
Qed.

Lemma key_of_eqb t st t' st' :
  String.eqb (key_of t st) (key_of t' st')
  = bool_decide (t = t') && bool_decide (st = st').
Proof. destruct t, st, t', st'; reflexivity. Qed.

Lemma key_of_not_inherited t st : inherited (key_of t st) = false.
Proof. destruct t, st; reflexivity. Qed.

Lemma total_shown_snoc m a :
  total_shown (m ++ [a]) = num_add (total_shown m) (amount_shown a).
Proof.
  unfold total_shown. rewrite fold_left_app. cbn [fold_left].
  unfold amount_shown, balance, str_or.
  destruct (acc_type a); simpl;
    destruct (String.eqb (acc_current_balance a) "") eqn:Hcur;
    rewrite ?Hcur; reflexivity.
Qed.

Lemma accounts_of_snoc t st accounts a :
  accounts_of t st (accounts ++ [a])
  = accounts_of t st accounts ++ (if in_account_group t st a then [a] else []).
Proof. unfold accounts_of. rewrite List.filter_app. reflexivity. Qed.

Lemma groups_hold_nil : groups_hold [] [].
Proof.
  split; [constructor|]. split.
  - intros k Hk. apply elem_of_nil in Hk as [].
  - intros t st. reflexivity.
Qed.

Lemma add_account_holds groups accounts a :
  groups_hold groups accounts →
  ∃ groups', add_account groups a = Return groups'
             ∧ groups_hold groups' (accounts ++ [a]).
Proof.
  intros (Hnd & Hkeys & Hown). unfold add_account. cbv zeta.
  set (key := key_of (acc_type a) (acc_subtype a)).
  assert (Hstep : ∀ g,
    g = {| ag_type := acc_type a; ag_subtype := acc_subtype a;
           ag_accounts :=
             accounts_of (acc_type a) (acc_subtype a) accounts ++ [a];
           ag_total :=
             total_shown
               (accounts_of (acc_type a) (acc_subtype a) accounts ++ [a]) |} →
    groups_hold (obj_set groups key g) (accounts ++ [a])).
  { intros g Hg. split; [apply obj_set_NoDup, Hnd|]. split.
    - intros k Hk. rewrite obj_set_keys in Hk. case_bool_decide; [auto|].
      apply elem_of_app in Hk as [Hk|Hk]; [auto|].
      apply list_elem_of_singleton in Hk as ->. eauto.
    - intros t st. rewrite obj_own_set, accounts_of_snoc. unfold key.
      rewrite key_of_eqb. unfold in_account_group.
      destruct (decide (acc_type a = t)) as [<-|Ht];
        [destruct (decide (acc_subtype a = st)) as [<-|Hst]|].
      + rewrite !bool_decide_eq_true_2 by reflexivity. simpl. rewrite Hg.
        destruct (accounts_of (acc_type a) (acc_subtype a) accounts);
          reflexivity.
      + rewrite (bool_decide_eq_false_2 _ Hst), andb_false_r, app_nil_r.
        apply Hown.
      + rewrite (bool_decide_eq_false_2 _ Ht). simpl. rewrite app_nil_r.
        apply Hown. }
  unfold obj_get. subst key. rewrite Hown, key_of_not_inherited.
  destruct (accounts_of (acc_type a) (acc_subtype a) accounts) as [|b m] eqn:Hm.
  - eexists. split; [reflexivity|]. apply Hstep.
    unfold push_account. cbn [ag_type ag_subtype ag_accounts ag_total].
    rewrite (total_shown_snoc [] a). reflexivity.
  - eexists. split; [reflexivity|]. apply Hstep.
    unfold push_account. cbn [ag_type ag_subtype ag_accounts ag_total].
    rewrite total_shown_snoc. reflexivity.
Qed.

Lemma forEach_add_account_holds rest groups pre :
  groups_hold groups pre →
  ∃ groups', forEach add_account rest groups = Return groups'
             ∧ groups_hold groups' (pre ++ rest).
Proof.
  revert groups pre. induction rest as [|a rest IH]; intros groups pre Hinv.
  - exists groups. rewrite app_nil_r. auto.
  - destruct (add_account_holds groups pre a Hinv) as (g1 & Hadd & Hinv1).
    destruct (IH g1 (pre ++ [a]) Hinv1) as (g2 & Hrun & Hinv2).
    exists g2. simpl. rewrite Hadd. simpl. split; [exact Hrun|].
    rewrite <- app_assoc in Hinv2. exact Hinv2.
Qed.

Lemma groupAccountsBySubtype_holds accounts :
  ∃ groups, groupAccountsBySubtype accounts = Return groups
            ∧ groups_hold groups accounts.
Proof. apply (forEach_add_account_holds accounts [] [] groups_hold_nil). Qed.

Lemma Object_values_elem {V} (o : Obj V) v :
  v ∈ Object_values o ↔ ∃ k, (k, v) ∈ o.
Proof.
  unfold Object_values. rewrite list_elem_of_fmap. split.
  - intros ([k v'] & -> & Hin). rewrite Object_entries_perm in Hin. eauto.
  - intros (k & Hin). exists (k, v). rewrite Object_entries_perm. auto.
Qed.

Lemma Object_values_perm {V} (o : Obj V) : Object_values o ≡ₚ map snd o.
Proof. unfold Object_values. rewrite Object_entries_perm. reflexivity. Qed.

Lemma accounts_of_nonempty t st accounts a :
  a ∈ accounts → acc_type a = t → acc_subtype a = st →
  accounts_of t st accounts ≠ [].
Proof.
  intros Hin Ht Hst Hnil.
  assert (Ha : In a (accounts_of t st accounts)).
  { apply filter_In. split; [apply list_elem_of_In, Hin|].
    unfold in_account_group. rewrite !bool_decide_eq_true_2 by assumption.
    reflexivity. }
  rewrite Hnil in Ha. destruct Ha.
Qed.

Lemma groups_hold_entry groups accounts k g :
  groups_hold groups accounts → (k, g) ∈ groups →
  k = key_of (ag_type g) (ag_subtype g) ∧ account_group_ok accounts g.
Proof.
  intros (Hnd & Hkeys & Hown) Hin.
  assert (Hk : k ∈ map fst groups).
  { apply list_elem_of_fmap. exists (k, g). auto. }
  destruct (Hkeys k Hk) as (t & st & ->).
  apply (elem_of_obj_own _ _ _ Hnd) in Hin. rewrite Hown in Hin.
  destruct (accounts_of t st accounts) as [|b m] eqn:Hm; [discriminate|].
  injection Hin as <-. simpl. split; [reflexivity|].
  unfold account_group_ok. simpl. rewrite Hm. auto.
Qed.

(** X9.  Accounts are grouped by type and subtype: for every list of
    accounts [groupAccountsBySubtype] returns a table (its keys never name
    a member of [Object.prototype], so it cannot throw) whose keys are
    distinct; the group under a key carries the type and subtype the key
    is made of (the two names joined by an underscore), holds exactly the
    accounts of that type and subtype in list order, is not empty, and has
    as total their balances added from the left, starting at zero, where
    a balance is parsed from [current_balance], else from
    [cached_actual_balance], else from "0", and a liability counts with
    the absolute value of its balance; and every account has its group. *)
Theorem accounts_are_grouped_by_type_and_subtype (accounts : list Account) :
  ∃ groups,
    groupAccountsBySubtype accounts = Return groups
    ∧ NoDup (map fst groups)
    ∧ (∀ k g, (k, g) ∈ groups →
              k = match ag_type g with
                  | ASSET => "ASSET"
                  | LIABILITY => "LIABILITY"
                  end
                  +:+ "_"
                  +:+ match ag_subtype g with
                      | CHECKING => "CHECKING"
                      | SAVINGS => "SAVINGS"
                      | CREDIT => "CREDIT"
                      | LOAN => "LOAN"
                      | INVESTMENT => "INVESTMENT"
                      end
              ∧ account_group_ok accounts g)
    ∧ (∀ a, a ∈ accounts →
            ∃ g, g ∈ Object_values groups
                 ∧ ag_type g = acc_type a ∧ ag_subtype g = acc_subtype a).
Proof.
  destruct (groupAccountsBySubtype_holds accounts) as (groups & Hrun & Hinv).
  exists groups. split; [exact Hrun|].
  split; [apply Hinv|]. split.
  - intros k g Hin.
    exact (groups_hold_entry groups accounts k g Hinv Hin).
  - intros a Hin. destruct Hinv as (Hnd & Hkeys & Hown).
    specialize (Hown (acc_type a) (acc_subtype a)).
    pose proof (accounts_of_nonempty _ _ _ _ Hin eq_refl eq_refl) as Hne.
    destruct (accounts_of (acc_type a) (acc_subtype a) accounts) as [|b m];
      [congruence|].
    apply obj_own_elem_of in Hown.
    eexists. split; [apply Object_values_elem; eauto|]. auto.
Qed.

Lemma grouped_accounts_set_new groups k g :
  obj_own groups k = None →
  grouped_accounts (obj_set groups k g)
  = grouped_accounts groups ++ ag_accounts g.
Proof.
  unfold grouped_accounts.
  induction groups as [|[k0 w] o IH]; simpl; intros Hown.
  - rewrite app_nil_r. reflexivity.
  - destruct (String.eqb k0 k); [discriminate|]. simpl.
    rewrite IH by exact Hown. rewrite app_assoc. reflexivity.
Qed.

Lemma grouped_accounts_set_own groups k g a :
  obj_own groups k = Some g →
  grouped_accounts (obj_set groups k (push_account g a))
  ≡ₚ grouped_accounts groups ++ [a].
Proof.
  unfold grouped_accounts.
  induction groups as [|[k0 w] o IH]; simpl; intros Hown.
  - discriminate.
  - destruct (String.eqb_spec k0 k) as [->|Hne]; simpl.
    + injection Hown as ->.
      rewrite <- !app_assoc. apply Permutation_app_head.
      apply Permutation_app_comm.
    + rewrite IH by exact Hown. rewrite app_assoc. reflexivity.
Qed.

Lemma add_account_accounts groups a groups' :
  add_account groups a = Return groups' →
  grouped_accounts groups' ≡ₚ grouped_accounts groups ++ [a].
Proof.
  unfold add_account, obj_get. cbv zeta.
  destruct (obj_own _ _) as [g|] eqn:Hown.
  - intros [= <-]. apply grouped_accounts_set_own, Hown.
  - destruct (inherited _); [discriminate|]. intros [= <-].
    rewrite grouped_accounts_set_new by exact Hown. reflexivity.
Qed.

Lemma forEach_add_account_accounts accounts groups groups' :
  forEach add_account accounts groups = Return groups' →
  grouped_accounts groups' ≡ₚ grouped_accounts groups ++ accounts.
Proof.
  revert groups. induction accounts as [|a accounts IH]; simpl; intros groups.
  - intros [= <-]. rewrite app_nil_r. reflexivity.
  - destruct (add_account groups a) as [g1|] eqn:Hadd; simpl; [|discriminate].
    intros Hrest. rewrite (IH _ Hrest), (add_account_accounts _ _ _ Hadd).
    rewrite <- app_assoc. reflexivity.
Qed.

Lemma lengths_of_type (ty : AccountType) (G : list AccountGroup) :
  Forall (λ g, Forall (λ a, acc_type a = ag_type g) (ag_accounts g)) G →
  sum_list (map (λ g, length (ag_accounts g))
              (List.filter (λ g, bool_decide (ag_type g = ty)) G))
  = length (List.filter (λ a, bool_decide (acc_type a = ty))
              (flat_map ag_accounts G)).
Proof.
  induction 1 as [|g G Hg _ IH]; simpl; [reflexivity|].
  rewrite List.filter_app, length_app, <- IH.
  destruct (decide (ag_type g = ty)) as [Hty|Hty].
  - rewrite (bool_decide_eq_true_2 _ Hty). simpl.
    rewrite (filter_every (λ a, bool_decide (acc_type a = ty))
               (ag_accounts g)); [reflexivity|].
    eapply Forall_impl; [exact Hg|]. intros a Ha. simpl in Ha.
    apply bool_decide_eq_true_2. congruence.
  - rewrite (bool_decide_eq_false_2 _ Hty).
    rewrite (filter_none (λ a, bool_decide (acc_type a = ty))
               (ag_accounts g)); [reflexivity|].
    eapply Forall_impl; [exact Hg|]. intros a Ha. simpl in Ha.
    apply bool_decide_eq_false_2. congruence.
Qed.

Lemma account_group_ok_types accounts g :
  account_group_ok accounts g →
  Forall (λ a, acc_type a = ag_type g) (ag_accounts g).
Proof.
  intros (Hacc & _ & _). rewrite Hacc. apply Forall_forall. intros a Ha.
  apply list_elem_of_In, filter_In in Ha as [_ Ha].
  unfold in_account_group in Ha. apply andb_true_iff in Ha as [Ha _].
  apply bool_decide_eq_true in Ha. exact Ha.
Qed.

Lemma asset_or_liability accounts :
  (length (List.filter is_asset accounts)
   + length (List.filter is_liability accounts))%nat = length accounts.
Proof.
  induction accounts as [|a accounts IH]; simpl; [reflexivity|].
  unfold is_asset at 1, is_liability at 1.
  destruct (acc_type a); simpl; lia.
Qed.

(** X10.  The counts on the accounts page add up: for every list of
    accounts [accountGroups] returns a view in which the count of the
    assets section is the sum of the sizes of its subtype groups, the same
    holds for the liabilities section, the two counts together are the
    number of accounts, and no subtype group is empty.  (So the empty
    state, shown when both counts are zero, appears exactly when no account
    is left after filtering.) *)
Theorem section_counts_are_the_sums_of_their_groups
    (accounts : list Account) :
  ∃ view,
    accountGroups accounts = Return view
    ∧ sv_count (view_assets view)
      = sum_list (map (λ g, length (ag_accounts g))
                    (sv_subtypes (view_assets view)))
    ∧ sv_count (view_liabilities view)
      = sum_list (map (λ g, length (ag_accounts g))
                    (sv_subtypes (view_liabilities view)))
    ∧ (sv_count (view_assets view) + sv_count (view_liabilities view))%nat
      = length accounts
    ∧ Forall (λ g, ag_accounts g ≠ [])
        (sv_subtypes (view_assets view)
         ++ sv_subtypes (view_liabilities view)).
Proof.
  destruct (groupAccountsBySubtype_holds accounts) as (groups & Hrun & Hinv).
  unfold accountGroups. cbv zeta. rewrite Hrun. cbn [and_then].
  eexists. split; [reflexivity|].
  cbn [view_assets view_liabilities sv_count sv_subtypes].
  assert (HG : Forall (account_group_ok accounts) (Object_values groups)).
  { apply Forall_forall. intros g Hg. apply Object_values_elem in Hg as [k Hg].
    apply (groups_hold_entry _ _ _ _ Hinv Hg). }
  assert (Hty : Forall (λ g, Forall (λ a, acc_type a = ag_type g)
                               (ag_accounts g))
                  (Object_values groups)).
  { eapply Forall_impl; [exact HG|]. intros g. apply account_group_ok_types. }
  assert (Hperm : flat_map ag_accounts (Object_values groups) ≡ₚ accounts).
  { rewrite Object_values_perm. rewrite flat_map_concat_map, map_map,
      <- flat_map_concat_map.
    apply (forEach_add_account_accounts accounts [] groups Hrun). }
  split; [|split; [|split]].
  - rewrite (lengths_of_type ASSET _ Hty). unfold getAccountSummary. simpl.
    apply Permutation_length, filter_perm. symmetry. exact Hperm.
  - rewrite (lengths_of_type LIABILITY _ Hty). unfold getAccountSummary. simpl.
    apply Permutation_length, filter_perm. symmetry. exact Hperm.
  - unfold getAccountSummary. simpl. apply asset_or_liability.
  - apply Forall_app_2; apply Forall_forall; intros g Hg;
      apply list_elem_of_In, filter_In in Hg as [Hg _];
      apply list_elem_of_In in Hg;
      rewrite Forall_forall in HG; apply (HG g Hg).
Qed.

(** X11.  A balance refresh changes one account's balance and nothing
    else: after [handleRefreshBalance] and the page's
    [handleAccountRefresh], the list has the same accounts in the same
    order.  When the refresh succeeded, every account with the id of the
    refreshed account carries that account's name, type and subtype and the
    reported balance, which is the balance the summary then reads (0 if the
    reported balance is empty), and every other account is as it was.  When
    it failed, the list is as it was and the message is the error's message
    after "Failed to refresh balance: ". *)
Theorem refresh_replaces_the_balance_of_one_account
    (accounts : list Account) (account : Account)
    (outcome : ApiResult RefreshBalanceResponse) :
  map acc_id (after_refresh accounts account outcome) = map acc_id accounts
  ∧ match outcome with
    | resolved result =>
        Forall2
          (λ before after,
             if String.eqb (acc_id before) (acc_id account)
             then acc_name after = acc_name account
                  ∧ acc_type after = acc_type account
                  ∧ acc_subtype after = acc_subtype account
                  ∧ acc_current_balance after = current_balance result
                  ∧ balance after
                    = parseFloat (str_or (current_balance result) "0")
             else after = before)
          accounts (after_refresh accounts account outcome)
    | rejected _ message =>
        after_refresh accounts account outcome = accounts
        ∧ refreshMessage (handleRefreshBalance account outcome)
          = "Failed to refresh balance: " +:+ message
    end.
Proof.
  unfold after_refresh. destruct outcome as [result|status message]; simpl.
  - split.
    + rewrite map_map. apply map_ext_in. intros a _.
      destruct (String.eqb_spec (acc_id a) (acc_id account)); simpl; auto.
    + induction accounts as [|a accounts IH]; simpl; constructor; [|exact IH].
      destruct (String.eqb (acc_id a) (acc_id account)); [|reflexivity].
      simpl. repeat split.
      unfold balance, str_or. simpl.
      destruct (String.eqb (current_balance result) "") eqn:Hb;
        rewrite ?Hb; reflexivity.
  - auto.
Qed.
End AccountGroups.

(** ** Changing the category of an entry *)

Section CategoryRoundTrip.
Context `{JSRuntime}.
Import InlineCategoryEditor TransactionsTable.

Lemma with_category_shown t newCategory :
  getCurrentCategoryInfo (row_entry (with_category t newCategory))
  = shown_for newCategory.
Proof. destruct newCategory; reflexivity. Qed.

Lemma handleCategoryUpdated_shown prev entryId newCategory :
  Forall2
    (λ before after,
       le_id (row_entry after) = le_id (row_entry before)
       ∧ row_effective_date after = row_effective_date before
       ∧ row_raw_amount after = row_raw_amount before
       ∧ if String.eqb (le_id (row_entry before)) entryId
         then getCurrentCategoryInfo (row_entry after) = shown_for newCategory
         else after = before)
    prev (handleCategoryUpdated prev entryId newCategory).
Proof.
  unfold handleCategoryUpdated.
  induction prev as [|t prev IH]; simpl; constructor; [|exact IH].
  destruct (String.eqb (le_id (row_entry t)) entryId); simpl.
  - repeat split. apply with_category_shown.
  - auto.
Qed.

(** X12.  The table shows what was put: for every list of rows, entry id
    and category (or none), [handleCategoryUpdated] keeps the rows, their
    order, ids, dates and amounts; the editor of every row with that id
    then shows the category (its name, or "Unknown" for an empty name, its
    type and its id, not marked as uncategorized), or "Uncategorized" when
    none was given; and every other row is as it was. *)
Theorem updated_category_is_what_the_editor_shows
    (prev : list Row) (entryId : string) (newCategory : option Category) :
  Forall2
    (λ before after,
       le_id (row_entry after) = le_id (row_entry before)
       ∧ row_effective_date after = row_effective_date before
       ∧ row_raw_amount after = row_raw_amount before
       ∧ if String.eqb (le_id (row_entry before)) entryId
         then getCurrentCategoryInfo (row_entry after)
              = match newCategory with
                | Some c =>
                    {| name := or_else (Some (cat_name c)) "Unknown";
                       type := CategoryType_name <$> cat_type c;
                       isUncategorized := false;
                       categoryId := Some (cat_id c) |}
                | None => uncategorized_info
                end
         else after = before)
    prev (handleCategoryUpdated prev entryId newCategory).
Proof. apply handleCategoryUpdated_shown. Qed.

Lemma after_selection_shown rows selection entryId newCategory :
  reported selection = Some (entryId, newCategory) →
  Forall2
    (λ before after,
       if String.eqb (le_id (row_entry before)) entryId
       then getCurrentCategoryInfo (row_entry after) = shown_for newCategory
       else after = before)
    rows (after_selection rows selection).
Proof.
  intros Hrep. unfold after_selection. rewrite Hrep.
  eapply Forall2_impl; [apply handleCategoryUpdated_shown|].
  intros before after (_ & _ & _ & Hshown). exact Hshown.
Qed.

(** X13.  A selection is sent and shown: when the editor of an entry is
    idle and the update resolves, selecting the id of a category of the
    list sends one update of the entry with that id, and every row of the
    entry then shows the first category of the list with that id, under
    that id; selecting "Uncategorized" sends one update without a category
    and the rows show "Uncategorized"; all other rows stay as they were.
    While an update is running a selection sends nothing and changes
    nothing, and an update that fails changes nothing. *)
Theorem selected_category_is_sent_and_shown
    (rows : list Row) (entry : LedgerEntry) (categories : list Category)
    (id : string) (c : Category) :
  id ≠ "" →
  List.find (λ cat, String.eqb (cat_id cat) id) categories = Some c →
  (sent (handleCategorySelect entry categories false true (Some id))
   = [{| ut_id := le_id entry; ut_category := Some id |}]
   ∧ Forall2
       (λ before after,
          if String.eqb (le_id (row_entry before)) (le_id entry)
          then getCurrentCategoryInfo (row_entry after) = shown_for (Some c)
               ∧ categoryId (getCurrentCategoryInfo (row_entry after))
                 = Some id
          else after = before)
       rows
       (after_selection rows
          (handleCategorySelect entry categories false true (Some id))))
  ∧ (sent (handleCategorySelect entry categories false true None)
     = [{| ut_id := le_id entry; ut_category := None |}]
     ∧ Forall2
         (λ before after,
            if String.eqb (le_id (row_entry before)) (le_id entry)
            then getCurrentCategoryInfo (row_entry after) = uncategorized_info
            else after = before)
         rows
         (after_selection rows
            (handleCategorySelect entry categories false true None)))
  ∧ (∀ resolves categoryId,
       sent (handleCategorySelect entry categories true resolves categoryId)
       = []
       ∧ after_selection rows
           (handleCategorySelect entry categories true resolves categoryId)
         = rows)
  ∧ (∀ categoryId,
       after_selection rows
         (handleCategorySelect entry categories false false categoryId)
       = rows).
Proof.
  intros Hid Hfind. apply String.eqb_neq in Hid.
  assert (Hc : cat_id c = id).
  { apply find_some in Hfind as [_ Hc]. apply String.eqb_eq in Hc. exact Hc. }
  split; [|split; [|split]].
  - split.
    + unfold handleCategorySelect. simpl. rewrite Hid. reflexivity.
    + eapply Forall2_impl.
      * apply (after_selection_shown rows _ (le_id entry) (Some c)).
        unfold handleCategorySelect. simpl. rewrite Hid, Hfind. reflexivity.
      * intros before after. cbv beta.
        destruct (String.eqb (le_id (row_entry before)) (le_id entry));
          intros Hrow; [|exact Hrow].
        split; [exact Hrow|]. rewrite Hrow. simpl. rewrite Hc. reflexivity.
  - split; [reflexivity|].
    apply (after_selection_shown rows _ (le_id entry) None). reflexivity.
  - intros resolves categoryId. split; reflexivity.
  - intros categoryId. reflexivity.
Qed.

(** X14.  A category created from the editor is sent but not shown: when
    [handleCategoryCreated] runs with a list of categories that does not
    yet hold the new category's id (the list the editor was rendered
    with), the update that is sent carries the new id, while the toast
    names "Uncategorized" and every row of the entry shows "Uncategorized"
    until the entries are loaded again; all other rows stay as they
    were. *)
Theorem created_category_is_sent_but_shown_uncategorized
    (rows : list Row) (entry : LedgerEntry) (categories : list Category)
    (newCategory : Category) :
  cat_id newCategory ≠ "" →
  Forall (λ cat, cat_id cat ≠ cat_id newCategory) categories →
  sent (handleCategoryCreated entry categories false true newCategory)
  = [{| ut_id := le_id entry; ut_category := Some (cat_id newCategory) |}]
  ∧ toast (handleCategoryCreated entry categories false true newCategory)
    = Some ("Category updated",
            "Transaction category changed to Uncategorized")
  ∧ Forall2
      (λ before after,
         if String.eqb (le_id (row_entry before)) (le_id entry)
         then getCurrentCategoryInfo (row_entry after) = uncategorized_info
         else after = before)
      rows
      (after_selection rows
         (handleCategoryCreated entry categories false true newCategory)).
Proof.
  intros Hid Hnew.
  assert (Hfind : List.find (λ cat, String.eqb (cat_id cat) (cat_id newCategory))
                    categories = None).
  { apply find_absent. intros c' Hin. rewrite Forall_forall in Hnew.
    apply Hnew, list_elem_of_In, Hin. }
  apply String.eqb_neq in Hid.
  unfold handleCategoryCreated.
  split; [|split].
  - unfold handleCategorySelect. simpl. rewrite Hid. reflexivity.
  - unfold handleCategorySelect. simpl. rewrite Hid, Hfind. reflexivity.
  - apply (after_selection_shown rows _ (le_id entry) None).
    unfold handleCategorySelect. simpl. rewrite Hid, Hfind. reflexivity.
Qed.
End CategoryRoundTrip.

(** ** A selection that is in the catalog *)

Section SelectedCategory.
Lemma find_by_id (categories : list Category) (c : Category) :
  NoDup (map cat_id categories) → c ∈ categories →
  List.find (λ x, String.eqb (cat_id x) (cat_id c)) categories = Some c.
Proof.
  induction categories as [|x rest IH]; simpl; intros Hnd Hin.
  - apply elem_of_nil in Hin as [].
  - apply NoDup_cons in Hnd as [Hx Hnd].
    apply elem_of_cons in Hin as [->|Hin].
    + rewrite String.eqb_refl. reflexivity.
    + destruct (String.eqb_spec (cat_id x) (cat_id c)) as [Heq|_]; [|auto].
      exfalso. apply Hx. rewrite Heq. apply list_elem_of_fmap. eauto.
Qed.

(** X18.  A selected category that is in the catalog is shown by its
    name: for every catalog whose ids are distinct and every category of
    it, [getCurrentCategory] with that category's id selected returns the
    category's name (or "Unknown Category" when the name is empty), not
    marked as uncategorized, whatever the placeholder. *)
Theorem selected_category_is_shown_by_its_name
    (categories : list Category) (c : Category) (placeholder : string) :
  NoDup (map cat_id categories) → c ∈ categories →
  BulkCategoryEditor.getCurrentCategory categories (selected_id (cat_id c))
    placeholder
  = {| BulkCategoryEditor.name := or_else (Some (cat_name c)) "Unknown Category";
       BulkCategoryEditor.isUncategorized := false |}.
Proof.
  intros Hnd Hin. unfold BulkCategoryEditor.getCurrentCategory.
  rewrite (find_by_id categories c Hnd Hin). reflexivity.
Qed.
End SelectedCategory.

(** ** When the forms send a request *)

Section FormsComplete.
Context `{JSRuntime}.

Lemma check_app_nil ok path msg rest :
  check ok path msg ++ rest = [] ↔ ok = true ∧ rest = [].
Proof.
  unfold check. destruct ok; simpl; split.
  - auto.
  - intros [_ ->]. reflexivity.
  - discriminate.
  - intros [? _]. discriminate.
Qed.

Lemma transactionSchema_complete
    (data : AddTransactionDialog.TransactionFormData) :
  AddTransactionDialog.transactionSchema data = []
  ↔ min1 (AddTransactionDialog.account data)
    && bool_decide (is_Some (AddTransactionDialog.effective_date data))
    && AddTransactionDialog.raw_amount_ok (AddTransactionDialog.raw_amount data)
    && min1 (AddTransactionDialog.description data)
    && truthy (AddTransactionDialog.category data) = true.
Proof.
  unfold AddTransactionDialog.transactionSchema.
  rewrite !check_app_nil, !andb_true_iff.
  destruct (AddTransactionDialog.effective_date data) as [d|].
  - rewrite check_nil, bool_decide_eq_true. intuition eauto.
  - rewrite bool_decide_eq_true. split.
    + intros (_ & Hd & _). destruct Hd as [? Hd]. discriminate.
    + intros ((((_ & Hd) & _) & _) & _). destruct Hd as [? Hd]. discriminate.
Qed.

(** X15.  The transaction form sends a request exactly when it is
    complete: a submit sends one [createTransaction] request, with the
    payload [onSubmit] builds, when the account and the description are
    not empty, a date is set, [Number(raw_amount)] is a number other than
    zero and a category is chosen, and sends nothing otherwise.  (The
    category field is optional in the schema, but a transaction without a
    category is never sent.) *)
Theorem transaction_is_sent_iff_the_form_is_complete
    (accounts : list Account)
    (data : AddTransactionDialog.TransactionFormData) :
  AddTransactionDialog.submit accounts data
  = if min1 (AddTransactionDialog.account data)
       && bool_decide (is_Some (AddTransactionDialog.effective_date data))
       && AddTransactionDialog.raw_amount_ok
            (AddTransactionDialog.raw_amount data)
       && min1 (AddTransactionDialog.description data)
       && truthy (AddTransactionDialog.category data)
    then [CreateTransaction (AddTransactionDialog.payload accounts data)]
    else [].
Proof.
  unfold AddTransactionDialog.submit, handleSubmit.
  pose proof (transactionSchema_complete data) as Hc.
  destruct (AddTransactionDialog.transactionSchema data) as [|i rest].
  - rewrite (proj1 Hc eq_refl). reflexivity.
  - destruct (_ && _ && _ && _ && _); [|reflexivity].
    destruct Hc as [_ Hc]. discriminate (Hc eq_refl).
Qed.

Lemma transferSchema_complete (data : AddTransferDialog.TransferFormData) :
  AddTransferDialog.transferSchema data = []
  ↔ min1 (AddTransferDialog.from_account data)
    && min1 (AddTransferDialog.to_account data)
    && bool_decide (is_Some (AddTransferDialog.effective_date data))
    && AddTransferDialog.amount_ok (AddTransferDialog.amount data)
    && min1 (AddTransferDialog.purpose_category data)
    && AddTransferDialog.accounts_differ data = true.
Proof.
  unfold AddTransferDialog.transferSchema.
  rewrite !check_app_nil, !andb_true_iff.
  destruct (AddTransferDialog.effective_date data) as [d|].
  - rewrite check_nil, bool_decide_eq_true. intuition eauto.
  - rewrite bool_decide_eq_true. split.
    + intros (_ & _ & Hd & _). destruct Hd as [? Hd]. discriminate.
    + intros (((((_ & _) & Hd) & _) & _) & _). destruct Hd as [? Hd].
      discriminate.
Qed.

(** X16.  The transfer form sends a request exactly when it is complete:
    a submit sends one [createTransfer] request, with the payload
    [onSubmit] builds, when both accounts and the purpose category are not
    empty, a date is set, [Number(amount)] is a number greater than zero
    and the two accounts differ, and sends nothing otherwise. *)
Theorem transfer_is_sent_iff_the_form_is_complete
    (data : AddTransferDialog.TransferFormData) :
  AddTransferDialog.submit data
  = if min1 (AddTransferDialog.from_account data)
       && min1 (AddTransferDialog.to_account data)
       && bool_decide (is_Some (AddTransferDialog.effective_date data))
       && AddTransferDialog.amount_ok (AddTransferDialog.amount data)
       && min1 (AddTransferDialog.purpose_category data)
       && AddTransferDialog.accounts_differ data
    then [CreateTransfer (AddTransferDialog.payload data)]
    else [].
Proof.
  unfold AddTransferDialog.submit, handleSubmit.
  pose proof (transferSchema_complete data) as Hc.
  destruct (AddTransferDialog.transferSchema data) as [|i rest].
  - rewrite (proj1 Hc eq_refl). reflexivity.
  - destruct (_ && _ && _ && _ && _ && _); [|reflexivity].
    destruct Hc as [_ Hc]. discriminate (Hc eq_refl).
Qed.
End FormsComplete.

(** ** The transactions table, day by day *)

Section Days.
Context `{JSRuntime}.
Import TransactionsTable.

Lemma days_hold_nil : days_hold [] [].
Proof.
  split; [constructor|]. split.
  - intros d Hd. apply elem_of_nil in Hd as [].
  - reflexivity.
Qed.

Lemma day_of_snoc d rows t :
  day_of d (rows ++ [t])
  = day_of d rows ++ (if String.eqb (row_effective_date t) d then [t] else []).
Proof. unfold day_of. rewrite List.filter_app. reflexivity. Qed.

Lemma add_transaction_holds groups rows t :
  days_hold groups rows →
  match add_transaction groups t with
  | Return groups' =>
      days_hold groups' (rows ++ [t]) ∧ inherited (row_effective_date t) = false
  | TypeError => inherited (row_effective_date t) = true
  end.
Proof.
  intros (Hnd & Hkeys & Hown). unfold add_transaction, obj_get. cbv zeta.
  set (date := row_effective_date t).
  assert (Hstep : ∀ v,
    inherited date = false → v = day_of date rows ++ [t] →
    days_hold (obj_set groups date v) (rows ++ [t])).
  { intros v Hd Hv. split; [apply obj_set_NoDup, Hnd|]. split.
    - intros d Hin. rewrite obj_set_keys in Hin. case_bool_decide; [auto|].
      apply elem_of_app in Hin as [Hin|Hin]; [auto|].
      apply list_elem_of_singleton in Hin as ->. exact Hd.
    - intros d. rewrite obj_own_set, day_of_snoc. fold date.
      destruct (String.eqb_spec date d) as [<-|Hne].
      + rewrite Hv. destruct (day_of date rows); reflexivity.
      + rewrite app_nil_r. apply Hown. }
  destruct (obj_own groups date) as [day|] eqn:Hlook.
  - assert (Hd : inherited date = false).
    { apply Hkeys. apply obj_own_elem_of in Hlook.
      apply list_elem_of_fmap. exists (date, day). auto. }
    split; [|exact Hd]. apply Hstep; [exact Hd|].
    rewrite Hown in Hlook. destruct (day_of date rows); [discriminate|].
    congruence.
  - destruct (inherited date) eqn:Hd; [reflexivity|].
    split; [|reflexivity]. apply Hstep; [reflexivity|].
    rewrite Hown in Hlook.
    destruct (day_of date rows); [reflexivity|discriminate].
Qed.

Lemma forEach_add_transaction_holds rest groups pre :
  days_hold groups pre →
  match forEach add_transaction rest groups with
  | Return groups' =>
      days_hold groups' (pre ++ rest)
      ∧ Forall (λ t, inherited (row_effective_date t) = false) rest
  | TypeError => Exists (λ t, inherited (row_effective_date t) = true) rest
  end.
Proof.
  revert groups pre.
  induction rest as [|t rest IH]; intros groups pre Hinv; simpl.
  - rewrite app_nil_r. auto.
  - pose proof (add_transaction_holds groups pre t Hinv) as Hstep.
    destruct (add_transaction groups t) as [g1|]; simpl.
    + destruct Hstep as [Hinv1 Ht].
      specialize (IH g1 (pre ++ [t]) Hinv1).
      destruct (forEach add_transaction rest g1) as [g2|].
      * rewrite <- app_assoc in IH. simpl in IH.
        destruct IH as [IH1 IH2]. split; [exact IH1|]. constructor; auto.
      * apply Exists_cons_tl. exact IH.
    + apply Exists_cons_hd. exact Hstep.
Qed.

Lemma forEach_add_day groups dates flattened :
  Forall (λ d, is_Some (obj_own groups d)) dates →
  forEach (add_day groups) dates flattened
  = Return (flattened ++ flat_map day_block (map (sorted_day groups) dates)).
Proof.
  intros Hall. revert flattened.
  induction Hall as [|d dates [day Hd] _ IH]; intros flattened;
    cbn [forEach map flat_map].
  - rewrite app_nil_r. reflexivity.
  - unfold add_day at 1, obj_get. rewrite Hd. cbn [and_then].
    rewrite IH. unfold sorted_day at 2, day_block at 2. rewrite Hd.
    cbn [fst snd default]. rewrite <- app_assoc. reflexivity.
Qed.

Lemma Object_keys_perm {V} (o : Obj V) : Object_keys o ≡ₚ map fst o.
Proof. unfold Object_keys. rewrite Object_entries_perm. reflexivity. Qed.

Lemma day_of_nonempty d rows :
  day_of d rows ≠ [] ↔ ∃ t, t ∈ rows ∧ row_effective_date t = d.
Proof.
  unfold day_of. split.
  - destruct (List.filter _ rows) as [|t m] eqn:Hm; [congruence|]. intros _.
    assert (Hin : In t (List.filter
                          (λ t, String.eqb (row_effective_date t) d) rows)).
    { rewrite Hm. left. reflexivity. }
    apply filter_In in Hin as [Hin Ht]. apply String.eqb_eq in Ht.
    exists t. rewrite list_elem_of_In. auto.
  - intros (t & Hin & Ht) Hnil.
    assert (Hc : In t (List.filter
                         (λ t, String.eqb (row_effective_date t) d) rows)).
    { apply filter_In. split; [apply list_elem_of_In, Hin|].
      apply String.eqb_eq, Ht. }
    rewrite Hnil in Hc. destruct Hc.
Qed.

Lemma days_keys groups rows d :
  days_hold groups rows →
  d ∈ map fst groups ↔ ∃ t, t ∈ rows ∧ row_effective_date t = d.
Proof.
  intros (Hnd & _ & Hown). rewrite <- day_of_nonempty. split.
  - intros Hin. apply list_elem_of_fmap in Hin as ([d' v] & -> & Hin).
    apply (elem_of_obj_own _ _ _ Hnd) in Hin. simpl.
    rewrite Hown in Hin. intros Hnil. rewrite Hnil in Hin. discriminate.
  - intros Hne. specialize (Hown d).
    destruct (day_of d rows) as [|t m] eqn:Hm; [congruence|].
    apply obj_own_elem_of in Hown. apply list_elem_of_fmap.
    eexists. split; [|exact Hown]. reflexivity.
Qed.

Hypothesis localeCompare_total :
  ∀ a b, (localeCompare a b ≤ 0 ∨ localeCompare b a ≤ 0)%Z.
Hypothesis localeCompare_trans :
  ∀ a b c,
    (localeCompare a b ≤ 0 → localeCompare b c ≤ 0 → localeCompare a c ≤ 0)%Z.

Lemma sorted_dates_later_first dates :
  StronglySorted later_first (js_sort compare_dates dates).
Proof.
  apply (js_sort_sorted compare_dates).
  - intros a b. unfold compare_dates. destruct (localeCompare_total a b); auto.
  - intros a b c. unfold compare_dates. eauto.
Qed.

Lemma sorted_ids_later_first day :
  StronglySorted later_first
    (map (λ t, le_id (row_entry t)) (js_sort compare_ids day)).
Proof.
  apply (StronglySorted_fmap (λ t, le_id (row_entry t)) (cmp_le compare_ids)).
  - intros x y Hxy. exact Hxy.
  - apply js_sort_sorted.
    + intros a b. unfold compare_ids.
      destruct (localeCompare_total (le_id (row_entry a))
                  (le_id (row_entry b))); auto.
    + intros a b c. unfold compare_ids. eauto.
Qed.

Lemma groupedTransactions_grouped (rows : list Row) :
  grouped_by_day rows (groupedTransactions rows).
Proof.
  unfold grouped_by_day, groupedTransactions.
  pose proof (forEach_add_transaction_holds rows [] [] days_hold_nil) as Hrun.
  destruct (forEach add_transaction rows []) as [groups|]; cbn [and_then];
    [|exact Hrun].
  destruct Hrun as [Hinv Hnames]. simpl in Hinv. cbv zeta.
  set (dates := js_sort compare_dates (Object_keys groups)).
  assert (Hperm : dates ≡ₚ map fst groups).
  { unfold dates. rewrite js_sort_perm. apply Object_keys_perm. }
  assert (Hown : Forall (λ d, is_Some (obj_own groups d)) dates).
  { apply Forall_forall. intros d Hd. rewrite Hperm in Hd.
    apply (days_keys _ _ _ Hinv), day_of_nonempty in Hd.
    pose proof Hinv as (_ & _ & Hlook). rewrite Hlook.
    destruct (day_of d rows); [congruence|eauto]. }
  rewrite (forEach_add_day groups dates [] Hown). cbn [app].
  split; [exact Hnames|].
  exists (map (sorted_day groups) dates).
  assert (Hfst : map fst (map (sorted_day groups) dates) = dates).
  { rewrite map_map. apply map_id. }
  rewrite Hfst. split; [reflexivity|].
  split; [apply sorted_dates_later_first|].
  split; [rewrite Hperm; apply Hinv|].
  split; [intros d; rewrite Hperm; apply days_keys, Hinv|].
  apply Forall_forall. intros day Hday.
  apply list_elem_of_fmap in Hday as (d & -> & Hd).
  unfold day_ok, sorted_day. cbn [fst snd].
  split; [|apply sorted_ids_later_first].
  rewrite js_sort_perm. destruct Hinv as (_ & _ & Hlook). rewrite Hlook.
  rewrite Forall_forall in Hown. destruct (Hown d Hd) as [m Hm].
  rewrite Hlook in Hm. destruct (day_of d rows); [discriminate|reflexivity].
Qed.
End Days.

Section TableByDay.
Context `{JSRuntime}.
Import TransactionsTable.

(** X17.  The table is laid out day by day: for every list of entries,
    with [localeCompare] a consistent comparator (total and transitive),
    [groupedTransactions] throws a [TypeError] only when an entry's date
    names a member of [Object.prototype]; otherwise its items are, for each
    date that occurs, one header with the date and the sum of the day's
    amounts followed by the entries of that date, every entry under its own
    date exactly once, with the days ordered latest first and the entries
    of a day ordered by id, latest first. *)
Theorem transactions_are_laid_out_by_day (rows : list Row) :
  (∀ a b, (localeCompare a b ≤ 0 ∨ localeCompare b a ≤ 0)%Z) →
  (∀ a b c,
     (localeCompare a b ≤ 0 → localeCompare b c ≤ 0 → localeCompare a c ≤ 0)%Z) →
  grouped_by_day rows (groupedTransactions rows).
Proof.
  intros Htotal Htrans.
  apply (groupedTransactions_grouped Htotal Htrans).
Qed.
End TableByDay.

(** ** The further theorems at concrete inputs *)

Section FurtherScenarios.
Lemma decimal_toLowerCase_app a b :
  Decimal.toLowerCase (a +:+ b)
  = Decimal.toLowerCase a +:+ Decimal.toLowerCase b.
Proof.
  induction a as [|c a IH]; [reflexivity|].
  change (Decimal.toLowerCase (String c (a +:+ b))
          = String (Decimal.lower c)
              (Decimal.toLowerCase a +:+ Decimal.toLowerCase b)).
  simpl. rewrite IH. reflexivity.
Qed.

Lemma decimal_toLowerCase_words a b :
  Decimal.toLowerCase (a +:+ " " +:+ b)
  = Decimal.toLowerCase a +:+ " " +:+ Decimal.toLowerCase b.
Proof. rewrite !decimal_toLowerCase_app. reflexivity. Qed.

Example groceries_found_by_name :
  match BulkCategoryEditor.filteredTypes catalog "GROCERIES" with
  | Return shown =>
      map (λ it, (fst (fst it), snd (fst it), cat_name (gc_category (snd it))))
        (listed shown)
  | TypeError => []
  end
  = [(EXPENSE, "Food", "Groceries")].
Proof. vm_compute. reflexivity. Qed.

Example food_found_by_group :
  match InlineCategoryEditor.filteredTypes catalog "food" with
  | Return shown =>
      map (λ it, (fst (fst it), snd (fst it), cat_name (gc_category (snd it))))
        (listed shown)
  | TypeError => []
  end
  = [(EXPENSE, "Food", "Dining"); (EXPENSE, "Food", "Groceries")].
Proof. vm_compute. reflexivity. Qed.

Lemma search_by_name_or_group_finds_the_category_witness :
  (∃ shown,
     BulkCategoryEditor.filteredTypes catalog "GROCERIES" = Return shown
     ∧ item BulkCategoryEditor.groupName
         (category "c3" "Groceries" (Some "Food") EXPENSE)
       ∈ listed shown)
  ∧ (∃ shown,
       InlineCategoryEditor.filteredTypes catalog "GROCERIES" = Return shown
       ∧ item InlineCategoryEditor.groupName
           (category "c3" "Groceries" (Some "Food") EXPENSE)
         ∈ listed shown).
Proof.
  assert (Hin : category "c3" "Groceries" (Some "Food") EXPENSE ∈ catalog).
  { unfold catalog. do 2 right. left. }
  destruct (@search_by_name_or_group_finds_the_category Decimal.runtime
              catalog (category "c3" "Groceries" (Some "Food") EXPENSE)
              "GROCERIES" decimal_toLowerCase_words Hin) as [Hbulk Hinline].
  split.
  - apply Hbulk; [|left; reflexivity].
    repeat (apply List.Forall_cons; [reflexivity|]). apply List.Forall_nil.
  - apply Hinline; [|left; reflexivity].
    repeat (apply List.Forall_cons; [reflexivity|]). apply List.Forall_nil.
Defined.

Lemma removing_a_badge_deactivates_its_filter_witness :
  (AccountFilters.activeFiltersCount
     (AccountFilters.updateFilter filters_in_use AccountFilters.key_type "all")
   < AccountFilters.activeFiltersCount filters_in_use)%nat
  ∧ (AccountFilters.offered filters_in_use →
     S (AccountFilters.activeFiltersCount
          (AccountFilters.updateFilter filters_in_use AccountFilters.key_type
             "all"))
     = AccountFilters.activeFiltersCount filters_in_use).
Proof.
  apply (removing_a_badge_deactivates_its_filter filters_in_use
           "Type: Assets" AccountFilters.key_type "all").
  vm_compute. right. left.
Defined.

Lemma inactive_filters_hide_no_account_witness :
  AccountsList.filteredAccounts [checking; card; loan] AccountFilters.initial
  = [checking; card; loan].
Proof.
  apply (@inactive_filters_hide_no_account Decimal.runtime
           [checking; card; loan] AccountFilters.initial).
  reflexivity.
Defined.

Example accounts_page_groups :
  match AccountsList.accountGroups [checking; card; loan] with
  | Return view =>
      map (λ g, (AccountsList.ag_subtype g,
                 map acc_name (AccountsList.ag_accounts g),
                 Decimal.toFixed (AccountsList.ag_total g) 2))
        (AccountsList.sv_subtypes (AccountsList.view_assets view)
         ++ AccountsList.sv_subtypes (AccountsList.view_liabilities view))
  | TypeError => []
  end
  = [(CHECKING, ["Checking"], "1200.50"); (CREDIT, ["Card"], "300.25");
     (LOAN, ["Loan"], "5000.00")].
Proof. vm_compute. reflexivity. Qed.

Lemma selected_category_is_sent_and_shown_witness :
  "c3" ≠ ""
  ∧ List.find (λ cat, String.eqb (cat_id cat) "c3") catalog
    = Some (category "c3" "Groceries" (Some "Food") EXPENSE)
  ∧ InlineCategoryEditor.sent
      (InlineCategoryEditor.handleCategorySelect (ledger_entry "e1") catalog
         false true (Some "c3"))
    = [{| InlineCategoryEditor.ut_id := "e1";
          InlineCategoryEditor.ut_category := Some "c3" |}]
  ∧ Forall2
      (λ before after,
         if String.eqb (le_id (TransactionsTable.row_entry before)) "e1"
         then InlineCategoryEditor.getCurrentCategoryInfo
                (TransactionsTable.row_entry after)
              = shown_for (Some (category "c3" "Groceries" (Some "Food")
                                   EXPENSE))
              ∧ InlineCategoryEditor.categoryId
                  (InlineCategoryEditor.getCurrentCategoryInfo
                     (TransactionsTable.row_entry after))
                = Some "c3"
         else after = before)
      table_rows
      (TransactionsTable.after_selection table_rows
         (InlineCategoryEditor.handleCategorySelect (ledger_entry "e1")
            catalog false true (Some "c3"))).
Proof.
  assert (Hid : "c3" ≠ "") by discriminate.
  split; [exact Hid|]. split; [reflexivity|].
  apply (selected_category_is_sent_and_shown table_rows (ledger_entry "e1")
           catalog "c3" (category "c3" "Groceries" (Some "Food") EXPENSE)
           Hid eq_refl).
Defined.

Lemma created_category_is_sent_but_shown_uncategorized_witness :
  InlineCategoryEditor.sent
    (InlineCategoryEditor.handleCategoryCreated (ledger_entry "e1") catalog
       false true pets)
  = [{| InlineCategoryEditor.ut_id := "e1";
        InlineCategoryEditor.ut_category := Some "c9" |}]
  ∧ InlineCategoryEditor.toast
      (InlineCategoryEditor.handleCategoryCreated (ledger_entry "e1") catalog
         false true pets)
    = Some ("Category updated",
            "Transaction category changed to Uncategorized")
  ∧ Forall2
      (λ before after,
         if String.eqb (le_id (TransactionsTable.row_entry before)) "e1"
         then InlineCategoryEditor.getCurrentCategoryInfo
                (TransactionsTable.row_entry after)
              = InlineCategoryEditor.uncategorized_info
         else after = before)
      table_rows
      (TransactionsTable.after_selection table_rows
         (InlineCategoryEditor.handleCategoryCreated (ledger_entry "e1")
            catalog false true pets)).
Proof.
  apply (created_category_is_sent_but_shown_uncategorized
           table_rows (ledger_entry "e1") catalog pets).
  - discriminate.
  - repeat (apply List.Forall_cons; [discriminate|]). apply List.Forall_nil.
Defined.

Lemma selected_category_is_shown_by_its_name_witness :
  BulkCategoryEditor.getCurrentCategory catalog (selected_id "c3")
    "Search categories..."
  = {| BulkCategoryEditor.name := "Groceries";
       BulkCategoryEditor.isUncategorized := false |}.
Proof.
  apply (selected_category_is_shown_by_its_name catalog
           (category "c3" "Groceries" (Some "Food") EXPENSE)
           "Search categories...").
  - apply (bool_decide_unpack (NoDup (map cat_id catalog))).
    vm_compute. exact I.
  - unfold catalog. do 2 right. left.
Defined.

Example table_rows_by_day :
  match TransactionsTable.groupedTransactions table_rows with
  | Return items =>
      map (λ i, match i with
                | TransactionsTable.date_header date total =>
                    (date, Decimal.toFixed total 2)
                | TransactionsTable.transaction t =>
                    (le_id (TransactionsTable.row_entry t),
                     TransactionsTable.row_raw_amount t)
                end)
        items
  | TypeError => []
  end
  = [("2025-03-02", "5.50"); ("e2", "5.50");
     ("2025-03-01", "-24.25"); ("e3", "-4.25"); ("e1", "-20.00")].
Proof. vm_compute. reflexivity. Qed.

Lemma transactions_are_laid_out_by_day_witness :
  grouped_by_day table_rows (TransactionsTable.groupedTransactions table_rows).
Proof.
  apply (@transactions_are_laid_out_by_day Decimal.runtime table_rows
           decimal_localeCompare_total decimal_localeCompare_trans).
Defined.
End FurtherScenarios.
